(** * Template tree, windowed list and persistence of the formula editor

    A shallow embedding of the parts of [src/main.ts] and of the virtual
    list module that the specification talks about, followed by the
    properties established for them.

    Conventions of the embedding.
    - JavaScript strings are Rocq strings; [trim] and [toLowerCase] treat
      the ASCII range (white space 9-13 and 32, letters A-Z).
    - An optional field ([note?], [parentId?]) is an [option].
    - Module-level mutable variables of the source become fields of an
      explicit store record that every operation takes and returns.
    - [prompt], [confirm], [generateId], the clock and the outcome of a file
      write are inputs of the operation that consults them.
    - Recursion that the source leaves unbounded takes a [fuel] argument and
      answers [None] when it is exhausted (the source would not return).
    - DOM construction, toasts and writes to local storage are left out;
      what a render reads and what it caches is kept. *)

From stdpp Require Import gmap strings list fin_maps pretty.
From Stdlib Require Import Ascii ZArith QArith Qround Lia.

Local Open Scope string_scope.
Local Open Scope list_scope.

#[local] Set Warnings "-register-all,-clear-no-such-hyp".

(** ** JavaScript values *)

Module Js.

(** [a || b] on strings: the empty string is falsy. *)
Definition or (a b : string) : string := if decide (a = "") then b else a.

(** [x || ''] for an optional string. *)
Definition orEmpty (x : option string) : string := default "" x.

(** Truthiness of an optional string: present and non-empty. *)
Definition truthy (x : option string) : bool :=
  match x with
  | Some s => bool_decide (s ≠ "")
  | None => false
  end.

Definition isWhiteSpace (c : ascii) : bool :=
  let n := nat_of_ascii c in
  ((9 <=? n)%nat && (n <=? 13)%nat) || (n =? 32)%nat.

Fixpoint trimStart (s : string) : string :=
  match s with
  | String c s' => if isWhiteSpace c then trimStart s' else s
  | EmptyString => EmptyString
  end.

Fixpoint trimEnd (s : string) : string :=
  match s with
  | EmptyString => EmptyString
  | String c s' =>
      let t := trimEnd s' in
      if bool_decide (t = "") && isWhiteSpace c then "" else String c t
  end.

(** [String.prototype.trim]. *)
Definition trim (s : string) : string := trimEnd (trimStart s).

Definition lowerChar (c : ascii) : ascii :=
  let n := nat_of_ascii c in
  if ((65 <=? n)%nat && (n <=? 90)%nat) then ascii_of_nat (n + 32) else c.

(** [String.prototype.toLowerCase]. *)
Fixpoint toLowerCase (s : string) : string :=
  match s with
  | String c s' => String (lowerChar c) (toLowerCase s')
  | EmptyString => EmptyString
  end.

(** [haystack.includes(needle)]. *)
Fixpoint includes (haystack needle : string) : bool :=
  String.prefix needle haystack ||
  match haystack with
  | String _ rest => includes rest needle
  | EmptyString => false
  end.

(** The result of [JSON.parse]: a JSON value.  An object is the list of
    its own properties; numbers that occur here are integers. *)
Inductive json : Type :=
| JNull
| JBool (b : bool)
| JNum (n : Z)
| JStr (s : string)
| JArr (items : list json)
| JObj (fields : list (string * json)).

Fixpoint assoc (k : string) (fields : list (string * json)) : option json :=
  match fields with
  | [] => None
  | (k', v) :: rest => if decide (k = k') then Some v else assoc k rest
  end.

(** [value?.key]: [None] is [undefined]; only an object has the
    properties read by this program. *)
Definition field (k : string) (v : json) : option json :=
  match v with
  | JObj fields => assoc k fields
  | _ => None
  end.

(** [typeof x === 'string'] followed by the use of [x]. *)
Definition asString (x : option json) : option string :=
  match x with
  | Some (JStr s) => Some s
  | _ => None
  end.

(** [typeof x === 'number']. *)
Definition asNumber (x : option json) : option Z :=
  match x with
  | Some (JNum n) => Some n
  | _ => None
  end.

(** [Array.isArray(x)] followed by the use of [x]. *)
Definition asArray (x : option json) : option (list json) :=
  match x with
  | Some (JArr l) => Some l
  | _ => None
  end.

(** Truthiness of a possibly absent JSON value. *)
Definition truthyJson (x : option json) : bool :=
  match x with
  | None | Some JNull | Some (JBool false) => false
  | Some (JNum n) => bool_decide (n ≠ 0%Z)
  | Some (JStr s) => bool_decide (s ≠ "")
  | Some _ => true
  end.

End Js.

(** ** The template library and its caches *)

Module TemplateStore.

Record TemplateItem := mkTemplate {
  tpl_id : string;
  tpl_name : string;
  tpl_latex : string;
  tpl_note : option string;
}.

Record TemplateCategory := mkCategory {
  cat_id : string;
  cat_name : string;
  templates : list TemplateItem;
  parentId : option string;
}.

#[global] Instance TemplateItem_eq_dec : EqDecision TemplateItem.
Proof. solve_decision. Defined.

#[global] Instance TemplateCategory_eq_dec : EqDecision TemplateCategory.
Proof. solve_decision. Defined.

Definition ALL_CATEGORY_ID : string := "__all__".

(** [state.templateLibrary], [state.templateSearchTerm] and the module-level
    variables that the tree functions read and write. *)
Record Store := mkStore {
  categories : list TemplateCategory;
  selectedCategoryId : string;
  templateSearchTerm : string;
  descendantCategoryIdsCache : gmap string (list string);
  allTemplatesCache : option (list (TemplateItem * TemplateCategory));
  lastCategoriesLength : nat;
  templateTreeExpandedIds : gset string;
  hasInitializedTemplateTree : bool;
  suppressTemplateAutoExpandOnce : bool;
}.

Definition setCategories (cs : list TemplateCategory) (st : Store) : Store :=
  mkStore cs (selectedCategoryId st) (templateSearchTerm st)
    (descendantCategoryIdsCache st) (allTemplatesCache st)
    (lastCategoriesLength st) (templateTreeExpandedIds st)
    (hasInitializedTemplateTree st) (suppressTemplateAutoExpandOnce st).

Definition setSelected (s : string) (st : Store) : Store :=
  mkStore (categories st) s (templateSearchTerm st)
    (descendantCategoryIdsCache st) (allTemplatesCache st)
    (lastCategoriesLength st) (templateTreeExpandedIds st)
    (hasInitializedTemplateTree st) (suppressTemplateAutoExpandOnce st).

Definition setSearchTerm (s : string) (st : Store) : Store :=
  mkStore (categories st) (selectedCategoryId st) s
    (descendantCategoryIdsCache st) (allTemplatesCache st)
    (lastCategoriesLength st) (templateTreeExpandedIds st)
    (hasInitializedTemplateTree st) (suppressTemplateAutoExpandOnce st).

Definition setDescendantCache (c : gmap string (list string)) (st : Store) : Store :=
  mkStore (categories st) (selectedCategoryId st) (templateSearchTerm st)
    c (allTemplatesCache st)
    (lastCategoriesLength st) (templateTreeExpandedIds st)
    (hasInitializedTemplateTree st) (suppressTemplateAutoExpandOnce st).

Definition setAllTemplates (c : option (list (TemplateItem * TemplateCategory)))
    (n : nat) (st : Store) : Store :=
  mkStore (categories st) (selectedCategoryId st) (templateSearchTerm st)
    (descendantCategoryIdsCache st) c n (templateTreeExpandedIds st)
    (hasInitializedTemplateTree st) (suppressTemplateAutoExpandOnce st).

Definition setExpanded (e : gset string) (st : Store) : Store :=
  mkStore (categories st) (selectedCategoryId st) (templateSearchTerm st)
    (descendantCategoryIdsCache st) (allTemplatesCache st)
    (lastCategoriesLength st) e
    (hasInitializedTemplateTree st) (suppressTemplateAutoExpandOnce st).

Definition setInitialized (b : bool) (st : Store) : Store :=
  mkStore (categories st) (selectedCategoryId st) (templateSearchTerm st)
    (descendantCategoryIdsCache st) (allTemplatesCache st)
    (lastCategoriesLength st) (templateTreeExpandedIds st)
    b (suppressTemplateAutoExpandOnce st).

Definition setSuppress (b : bool) (st : Store) : Store :=
  mkStore (categories st) (selectedCategoryId st) (templateSearchTerm st)
    (descendantCategoryIdsCache st) (allTemplatesCache st)
    (lastCategoriesLength st) (templateTreeExpandedIds st)
    (hasInitializedTemplateTree st) b.

(** The store as the module leaves it after its declarations. *)
Definition initialStore : Store :=
  mkStore [] "" "" ∅ None 0 ∅ false false.

(** [cat.parentId || '']. *)
Definition parentKey (cat : TemplateCategory) : string :=
  Js.orEmpty (parentId cat).

(** [categories.find((cat) => cat.id === id) || null]. *)
Definition findCategory (cats : list TemplateCategory) (id : string)
    : option TemplateCategory :=
  List.find (fun cat => bool_decide (cat_id cat = id)) cats.

Definition getTemplateChildren (cats : list TemplateCategory)
    (parent : option string) : list TemplateCategory :=
  filter (fun cat => parentKey cat = Js.orEmpty parent) cats.

(** The two nested loops of [getAllTemplates]: every template with its
    category, category by category. *)
Definition flattenTemplates (cats : list TemplateCategory)
    : list (TemplateItem * TemplateCategory) :=
  flat_map (fun category => map (fun t => (t, category)) (templates category)) cats.

(** The closure of [getAllTemplates]: the flattened list is recomputed only
    when the number of categories differs from the one last seen. *)
Definition getAllTemplates (st : Store)
    : list (TemplateItem * TemplateCategory) * Store :=
  match allTemplatesCache st with
  | Some cache =>
      if decide (lastCategoriesLength st = length (categories st))
      then (cache, st)
      else
        let result := flattenTemplates (categories st) in
        (result, setAllTemplates (Some result) (length (categories st)) st)
  | None =>
      let result := flattenTemplates (categories st) in
      (result, setAllTemplates (Some result) (length (categories st)) st)
  end.

(** The [while] loop of [getTemplateCategoryDepth]; it leaves as soon as
    [depth] exceeds 6, so six rounds always suffice. *)
Fixpoint depthLoop (rounds : nat) (cats : list TemplateCategory)
    (current : option TemplateCategory) (depth : nat) : nat :=
  match rounds with
  | O => depth
  | S rounds' =>
      match current with
      | Some cur =>
          if Js.truthy (parentId cur) then
            let depth' := S depth in
            let current' := findCategory cats (Js.orEmpty (parentId cur)) in
            if (6 <? depth')%nat then depth'
            else depthLoop rounds' cats current' depth'
          else depth
      | None => depth
      end
  end.

Definition getTemplateCategoryDepth (cats : list TemplateCategory)
    (categoryId : option string) : nat :=
  if Js.truthy categoryId then
    depthLoop 6 cats (findCategory cats (Js.orEmpty categoryId)) 1
  else 0.

(** [getDescendantCategoryIds]: the memoised walk over the children.  The
    cache is read first; a computed list is stored under its key. *)
Fixpoint getDescendantCategoryIds (fuel : nat) (cats : list TemplateCategory)
    (categoryId : string) (cache : gmap string (list string))
    : option (list string * gmap string (list string)) :=
  match fuel with
  | O => None
  | S fuel' =>
      match cache !! categoryId with
      | Some cached => Some (cached, cache)
      | None =>
          '(result, cache') ←
            foldl (fun acc child =>
                     '(result, cache0) ← acc;
                     '(sub, cache1) ←
                       getDescendantCategoryIds fuel' cats (cat_id child) cache0;
                     Some (result ++ sub, cache1))
                  (Some ([categoryId], cache))
                  (getTemplateChildren cats (Some categoryId));
          Some (result, <[categoryId := result]> cache')
      end
  end.

(** [getCategoryTemplateCount]. *)
Definition countIn (ids : gset string) (cats : list TemplateCategory) : nat :=
  foldl (fun total category =>
           if decide (cat_id category ∈ ids)
           then (total + length (templates category))%nat
           else total)
        0%nat cats.

Definition getCategoryTemplateCount (fuel : nat) (categoryId : string)
    (st : Store) : option (nat * Store) :=
  '(ids, cache') ←
    getDescendantCategoryIds fuel (categories st) categoryId
      (descendantCategoryIdsCache st);
  Some (countIn (list_to_set ids) (categories st), setDescendantCache cache' st).

Definition initializeTemplateTreeExpandedState (st : Store) : Store :=
  if hasInitializedTemplateTree st then st
  else
    let st1 := setInitialized true st in
    if decide (templateTreeExpandedIds st1 = ∅) then
      let roots := getTemplateChildren (categories st1) None in
      let start : gset string := {[ ALL_CATEGORY_ID ]} in
      setExpanded
        (foldl (fun acc category =>
                  match getTemplateChildren (categories st1) (Some (cat_id category)) with
                  | [] => acc
                  | _ :: _ => acc ∪ {[ cat_id category ]}
                  end)
               start roots)
        st1
    else st1.

(** The [while (current?.parentId)] loop of
    [ensureTemplateTreeExpandedForSelection]. *)
Fixpoint expandLoop (fuel : nat) (cats : list TemplateCategory)
    (current : option TemplateCategory) (expanded : gset string)
    : option (gset string) :=
  match current with
  | Some cur =>
      if Js.truthy (parentId cur) then
        match fuel with
        | O => None
        | S fuel' =>
            let p := Js.orEmpty (parentId cur) in
            expandLoop fuel' cats (findCategory cats p) (expanded ∪ {[ p ]})
        end
      else Some expanded
  | None => Some expanded
  end.

Definition ensureTemplateTreeExpandedForSelection (fuel : nat)
    (selectedId : string) (st : Store) : option Store :=
  if decide (selectedId = "" ∨ selectedId = ALL_CATEGORY_ID) then Some st
  else
    expanded ←
      expandLoop fuel (categories st) (findCategory (categories st) selectedId)
        (templateTreeExpandedIds st ∪ {[ ALL_CATEGORY_ID ]});
    Some (setExpanded expanded st).

(** [renderTreeLevel] inside [renderTemplateCategoryOptions]: one row per
    child, each with its template count, descending into expanded rows. *)
Fixpoint renderTreeLevel (fuel : nat) (parent : option string) (st : Store)
    : option Store :=
  match fuel with
  | O => None
  | S fuel' =>
      foldl (fun acc category =>
               st0 ← acc;
               let hasChildren :=
                 bool_decide
                   (getTemplateChildren (categories st0) (Some (cat_id category)) ≠ []) in
               let expanded :=
                 bool_decide (cat_id category ∈ templateTreeExpandedIds st0) in
               '(_, st1) ← getCategoryTemplateCount fuel' (cat_id category) st0;
               if hasChildren && expanded
               then renderTreeLevel fuel' (Some (cat_id category)) st1
               else Some st1)
            (Some st)
            (getTemplateChildren (categories st) parent)
  end.

Definition renderTemplateCategoryOptions (fuel : nat) (st : Store)
    : option Store :=
  let st1 := match categories st with
             | [] => setSelected "" st
             | _ :: _ => st
             end in
  let st2 := initializeTemplateTreeExpandedState st1 in
  let selectedId := Js.or (selectedCategoryId st2) ALL_CATEGORY_ID in
  let st3 := if decide (selectedCategoryId st2 = "")
             then setSelected ALL_CATEGORY_ID st2 else st2 in
  st4 ← (if suppressTemplateAutoExpandOnce st3 then Some st3
         else ensureTemplateTreeExpandedForSelection fuel selectedId st3);
  let st5 := (getAllTemplates st4).2 in
  st6 ← (if decide (ALL_CATEGORY_ID ∈ templateTreeExpandedIds st5)
         then renderTreeLevel fuel None st5
         else Some st5);
  Some (setSuppress false st6).

(** [getSelectedTemplateCategory]. *)
Definition getSelectedTemplateCategory (st : Store) : option TemplateCategory :=
  if decide (selectedCategoryId st = ALL_CATEGORY_ID) then None
  else findCategory (categories st) (selectedCategoryId st).

(** [selectTemplateCategory]. *)
Definition selectTemplateCategory (categoryId : string) (st : Store) : Store :=
  setSelected (Js.or categoryId ALL_CATEGORY_ID) st.

(** What [renderTemplateList] puts into the list container. *)
Inductive TemplateListView :=
| HintEmptyLibrary
| HintNoTemplates
| HintNoMatch
| Items (shown : list (TemplateItem * TemplateCategory)).

(** The haystack of the filter in [renderTemplateList]. *)
Definition haystack (template : TemplateItem) (category : TemplateCategory)
    : string :=
  Js.toLowerCase
    (tpl_name template +:+ " " +:+ Js.orEmpty (tpl_note template) +:+ " " +:+
     tpl_latex template +:+ " " +:+ cat_name category).

Definition renderTemplateList (st : Store) : TemplateListView * Store :=
  match categories st with
  | [] => (HintEmptyLibrary, st)
  | _ :: _ =>
      let activeCategoryId := Js.or (selectedCategoryId st) ALL_CATEGORY_ID in
      let search := Js.toLowerCase (Js.trim (templateSearchTerm st)) in
      let '(templatesWithCategory, st1) :=
        if decide (activeCategoryId = ALL_CATEGORY_ID) then getAllTemplates st
        else
          match getSelectedTemplateCategory st with
          | Some selected =>
              (map (fun template => (template, selected)) (templates selected), st)
          | None => ([], st)
          end in
      match templatesWithCategory with
      | [] =>
          (if decide (search = "") then HintNoTemplates else HintNoMatch, st1)
      | _ :: _ =>
          let filteredTemplates :=
            List.filter
              (fun '(template, category) =>
                 if decide (search = "") then true
                 else Js.includes (haystack template category) search)
              templatesWithCategory in
          match filteredTemplates with
          | [] => (HintNoMatch, st1)
          | _ :: _ => (Items filteredTemplates, st1)
          end
      end
  end.

(** [handleCreateTemplateCategory]; [name] is the answer to the prompt
    ([None] when it is dismissed), [confirmDuplicate] the answer to the
    question asked when the name is taken, [newId] what [generateId]
    returns. *)
Definition handleCreateTemplateCategory (fuel : nat) (name : option string)
    (confirmDuplicate : bool) (newId : string) (st : Store) : option Store :=
  if negb (Js.truthy name) then Some st
  else
    let trimmed := Js.trim (Js.orEmpty name) in
    if decide (trimmed = "") then Some st
    else
      let exists_ :=
        existsb (fun cat => bool_decide (cat_name cat = trimmed)) (categories st) in
      if exists_ && negb confirmDuplicate then Some st
      else
        let parent :=
          if bool_decide (selectedCategoryId st ≠ "") &&
             bool_decide (selectedCategoryId st ≠ ALL_CATEGORY_ID)
          then Some (selectedCategoryId st) else None in
        let parentDepth := getTemplateCategoryDepth (categories st) parent in
        if (6 <=? parentDepth)%nat then Some st
        else
          let newCategory := mkCategory newId trimmed [] parent in
          let st1 := setCategories (categories st ++ [newCategory]) st in
          let st2 := selectTemplateCategory (cat_id newCategory) st1 in
          st3 ← renderTemplateCategoryOptions fuel st2;
          Some (renderTemplateList st3).2.

(** [category.templates = ...] on the object that [find] returned: the
    first category with that id. *)
Fixpoint updateCategory (id : string) (f : TemplateCategory -> TemplateCategory)
    (cats : list TemplateCategory) : list TemplateCategory :=
  match cats with
  | [] => []
  | c :: rest =>
      if decide (cat_id c = id) then f c :: rest
      else c :: updateCategory id f rest
  end.

Definition setTemplates (ts : list TemplateItem) (c : TemplateCategory)
    : TemplateCategory :=
  mkCategory (cat_id c) (cat_name c) ts (parentId c).

(** [saveTemplateEntry]; the three texts are the values of the name input,
    of [getCurrentLatex()] and of the note input. *)
Definition saveTemplateEntry (fuel : nat) (templateNameInput latex noteInput : string)
    (confirmOverwrite : bool) (newId : string) (st : Store) : option Store :=
  match getSelectedTemplateCategory st with
  | None => Some st
  | Some category =>
      let templateName := Js.trim templateNameInput in
      if decide (templateName = "") then Some st
      else if decide (latex = "") then Some st
      else
        let note := Js.trim noteInput in
        let exists_ :=
          List.find (fun tpl => bool_decide (tpl_name tpl = templateName))
                    (templates category) in
        match exists_ with
        | Some existing =>
            if negb confirmOverwrite then Some st
            else
              let templatePayload :=
                mkTemplate (tpl_id existing) templateName latex (Some note) in
              let replaced :=
                map (fun tpl => if decide (tpl_id tpl = tpl_id existing)
                                then templatePayload else tpl)
                    (templates category) in
              let st1 :=
                setCategories
                  (updateCategory (cat_id category) (setTemplates replaced)
                     (categories st)) st in
              st2 ← renderTemplateCategoryOptions fuel st1;
              Some (renderTemplateList st2).2
        | None =>
            let templatePayload := mkTemplate newId templateName latex (Some note) in
            let st1 :=
              setCategories
                (updateCategory (cat_id category)
                   (setTemplates (templates category ++ [templatePayload]))
                   (categories st)) st in
            st2 ← renderTemplateCategoryOptions fuel st1;
            Some (renderTemplateList st2).2
        end
  end.

(** [removeTemplateEntry]. *)
Definition removeTemplateEntry (fuel : nat) (categoryId templateId : string)
    (confirmed : bool) (st : Store) : option Store :=
  match findCategory (categories st) categoryId with
  | None => Some st
  | Some category =>
      match List.find (fun tpl => bool_decide (tpl_id tpl = templateId))
                      (templates category) with
      | None => Some st
      | Some _ =>
          if negb confirmed then Some st
          else
            let kept :=
              filter (fun tpl => tpl_id tpl ≠ templateId) (templates category) in
            let st1 :=
              setCategories
                (updateCategory (cat_id category) (setTemplates kept) (categories st))
                st in
            let st2 := setDescendantCache ∅ st1 in
            st3 ← renderTemplateCategoryOptions fuel st2;
            Some (renderTemplateList st3).2
      end
  end.

(** [removeTemplateCategory]. *)
Definition removeTemplateCategory (fuel : nat) (categoryId : string)
    (confirmed : bool) (st : Store) : option Store :=
  if decide (categoryId = ALL_CATEGORY_ID) then Some st
  else
    match findCategory (categories st) categoryId with
    | None => Some st
    | Some _ =>
        if negb confirmed then Some st
        else
          '(ids, cache') ←
            getDescendantCategoryIds fuel (categories st) categoryId
              (descendantCategoryIdsCache st);
          let idsToRemove : gset string := list_to_set ids in
          let st1 :=
            setCategories
              (filter (fun cat => cat_id cat ∉ idsToRemove) (categories st))
              (setDescendantCache cache' st) in
          let st2 :=
            if decide (selectedCategoryId st1 ∈ idsToRemove)
            then setSelected ALL_CATEGORY_ID st1 else st1 in
          let st3 := setDescendantCache ∅ st2 in
          st4 ← renderTemplateCategoryOptions fuel st3;
          Some (renderTemplateList st4).2
    end.

(** A click on a row of the tree. *)
Definition onTreeItemClick (fuel : nat) (categoryId : string) (st : Store)
    : option Store :=
  st1 ← renderTemplateCategoryOptions fuel (selectTemplateCategory categoryId st);
  Some (renderTemplateList st1).2.

(** A click on the button that deletes the current category. *)
Definition onDeleteCurrentCategory (fuel : nat) (confirmed : bool) (st : Store)
    : option Store :=
  if decide (selectedCategoryId st = "") then Some st
  else removeTemplateCategory fuel (selectedCategoryId st) confirmed st.

(** The structural mutations of the library, as user actions. *)
Inductive Mutation :=
| CreateCategory (name : option string) (confirmDuplicate : bool) (newId : string)
| DeleteCategory (categoryId : string) (confirmed : bool)
| RemoveTemplate (categoryId templateId : string) (confirmed : bool).

Definition applyMutation (fuel : nat) (m : Mutation) (st : Store) : option Store :=
  match m with
  | CreateCategory name c newId => handleCreateTemplateCategory fuel name c newId st
  | DeleteCategory categoryId c => removeTemplateCategory fuel categoryId c st
  | RemoveTemplate categoryId templateId c =>
      removeTemplateEntry fuel categoryId templateId c st
  end.

Fixpoint applyMutations (fuel : nat) (ms : list Mutation) (st : Store)
    : option Store :=
  match ms with
  | [] => Some st
  | m :: rest => st' ← applyMutation fuel m st; applyMutations fuel rest st'
  end.

(** The end of the module: with nothing in local storage, the tree and the
    list are rendered once over the initial store. *)
Definition startup (fuel : nat) : option Store :=
  st ← renderTemplateCategoryOptions fuel initialStore;
  Some (renderTemplateList st).2.

(** [x] lies in the subtree rooted at [c]: [c] itself, or a category whose
    parent reference names a member of the subtree (an absent reference
    being the empty string, which names no category). *)
Inductive InSubtree (cats : list TemplateCategory) (c : string) : string -> Prop :=
| subtree_root : InSubtree cats c c
| subtree_child (cat : TemplateCategory) :
    cat ∈ cats -> InSubtree cats c (parentKey cat) -> InSubtree cats c (cat_id cat).

(** The sum of [templates.length] over the categories of the subtree. *)
Definition subtreeTemplateCount (cats : list TemplateCategory) (c : string)
    (n : nat) : Prop :=
  exists members : gset string,
    (forall x, x ∈ members <-> InSubtree cats c x) /\
    n = sum_list (map (fun cat => length (templates cat))
                      (filter (fun cat => cat_id cat ∈ members) cats)).

(** The parent references lead upwards: a rank, nowhere above [bound],
    grows from every category to what its parent reference names. *)
Definition Acyclic (bound : nat) (cats : list TemplateCategory) : Prop :=
  exists rank : string -> nat,
    (forall x, (rank x <= bound)%nat) /\
    forall cat, cat ∈ cats -> (rank (cat_id cat) < rank (parentKey cat))%nat.

(** Every cached list holds exactly the subtree of its key. *)
Definition CacheCoherent (st : Store) : Prop :=
  forall k l, descendantCategoryIdsCache st !! k = Some l ->
    forall x, x ∈ l <-> InSubtree (categories st) k x.

(** The strings that a store already uses as identifiers. *)
Definition usedNames (st : Store) : list string :=
  selectedCategoryId st ::
  map cat_id (categories st) ++ map parentKey (categories st).

(** One creation of a category: the row of the tree clicked beforehand to
    choose the parent, if any, then the click on the button that creates,
    with the answers given to it. *)
Record CreateCall := mkCreateCall {
  call_parent : option string;
  call_name : option string;
  call_confirm : bool;
  call_newId : string;
}.

(** [generateId] returns identifiers that are new: not empty, and none of
    the strings in use when it is called. *)
Fixpoint FreshFrom (used : list string) (calls : list CreateCall) : Prop :=
  match calls with
  | [] => True
  | c :: rest =>
      let used' :=
        match call_parent c with
        | Some p => p :: used
        | None => used
        end in
      (call_newId c ∉ used') /\ FreshFrom (call_newId c :: used') rest
  end.

Definition FreshIds (calls : list CreateCall) (st : Store) : Prop :=
  FreshFrom ("" :: ALL_CATEGORY_ID :: usedNames st) calls.

Definition createCategory (fuel : nat) (c : CreateCall) (st : Store)
    : option Store :=
  st1 ← match call_parent c with
        | Some p => onTreeItemClick fuel p st
        | None => Some st
        end;
  handleCreateTemplateCategory fuel (call_name c) (call_confirm c)
    (call_newId c) st1.

Fixpoint createCategories (fuel : nat) (calls : list CreateCall) (st : Store)
    : option Store :=
  match calls with
  | [] => Some st
  | c :: rest => st' ← createCategory fuel c st; createCategories fuel rest st'
  end.

(** A list [l] covers the subtree of [k] up to the categories that satisfy
    [P]: it holds [k], nothing outside the subtree, and every category of
    the subtree that it misses satisfies [P]. *)
Definition Covers (P : TemplateCategory -> Prop) (cats : list TemplateCategory)
    (k : string) (l : list string) : Prop :=
  k ∈ l /\
  (forall x, x ∈ l -> InSubtree cats k x) /\
  (forall cat, cat ∈ cats -> InSubtree cats k (cat_id cat) ->
               cat_id cat ∉ l -> P cat).

Definition ownsNoTemplate (cat : TemplateCategory) : Prop := templates cat = [].

(** A small library used to exercise the statements: "Linear" lies under
    "Algebra", each owns one template, and "Linear" is selected. *)
Definition sampleStore : Store :=
  mkStore
    [mkCategory "alg" "Algebra" [mkTemplate "t1" "Identity" "a=a" (Some "")] None;
     mkCategory "lin" "Linear" [mkTemplate "t2" "Line" "y=kx" (Some "slope")]
       (Some "alg")]
    "lin" "" ∅ None 0 ∅ false false.

Definition sampleRank (x : string) : nat :=
  if decide (x = "lin") then 0%nat
  else if decide (x = "alg") then 1%nat else 2%nat.

(** "Planes" is created under "Algebra", then "Cubes" under "Planes". *)
Definition sampleCalls : list CreateCall :=
  [mkCreateCall (Some "alg") (Some "Planes") false "c1";
   mkCreateCall None (Some " Cubes ") false "c2"].

(** The templates that a view lists; a hint lists none. *)
Definition shownItems (view : TemplateListView)
    : list (TemplateItem * TemplateCategory) :=
  match view with
  | Items shown => shown
  | _ => []
  end.

(** The query, trimmed and lower-cased, is blank or occurs in the text made
    of the name, the note, the latex and the name of the category. *)
Definition matchesQuery (term : string) (template : TemplateItem)
    (category : TemplateCategory) : Prop :=
  let search := Js.toLowerCase (Js.trim term) in
  search = "" \/ Js.includes (haystack template category) search = true.

(** The list that [getAllTemplates] would reuse, if any, is the flattening
    of the categories as they are. *)
Definition AllTemplatesCurrent (st : Store) : Prop :=
  match allTemplatesCache st with
  | Some cache =>
      lastCategoriesLength st = length (categories st) ->
      cache = flattenTemplates (categories st)
  | None => True
  end.

(** The query occurs, whatever the case, in the name, the note or the latex
    of the template. *)
Definition fieldContainsQuery (term : string) (template : TemplateItem) : Prop :=
  Js.includes (Js.toLowerCase (tpl_name template)) (Js.toLowerCase term) = true \/
  Js.includes (Js.toLowerCase (Js.orEmpty (tpl_note template)))
              (Js.toLowerCase term) = true \/
  Js.includes (Js.toLowerCase (tpl_latex template)) (Js.toLowerCase term) = true.

End TemplateStore.

(** ** Import of a template library *)

Module TemplateImport.
Import TemplateStore.

(** [generateId] is consulted through [ids]: [ids n] is what its [n]-th
    call returns; the counter is threaded with the accumulator. *)
Definition IdSource := nat -> string.

(** One element of [source.templates] in [normalizeTemplateCategories]:
    [None] for an entry that the [filter(Boolean)] removes. *)
Definition normalizeTemplate (ids : IdSource) (tplIdx : nat) (tpl : Js.json)
    (n : nat) : option TemplateItem * nat :=
  let latex :=
    match Js.asString (Js.field "latex" tpl) with
    | Some s => Js.trim s
    | None => ""
    end in
  if decide (latex = "") then (None, n)
  else
    let '(id, n1) :=
      match Js.asString (Js.field "id" tpl) with
      | Some s => if decide (s = "") then (ids n, S n) else (s, n)
      | None => (ids n, S n)
      end in
    let name :=
      match Js.asString (Js.field "name" tpl) with
      | Some s =>
          if decide (Js.trim s = "") then "模板 " +:+ pretty (tplIdx + 1)%nat
          else Js.trim s
      | None => "模板 " +:+ pretty (tplIdx + 1)%nat
      end in
    let note :=
      match Js.asString (Js.field "note" tpl) with
      | Some s => Js.trim s
      | None => ""
      end in
    (Some (mkTemplate id name latex (Some note)), n1).

(** [source.templates.map(...).filter(Boolean)], left to right. *)
Fixpoint normalizeTemplates (ids : IdSource) (tplIdx : nat) (tpls : list Js.json)
    (n : nat) : list TemplateItem * nat :=
  match tpls with
  | [] => ([], n)
  | tpl :: rest =>
      let '(item, n1) := normalizeTemplate ids tplIdx tpl n in
      let '(items, n2) := normalizeTemplates ids (S tplIdx) rest n1 in
      (match item with Some t => t :: items | None => items end, n2)
  end.

(** [Array.isArray(source?.categories) ? source.categories
     : Array.isArray(source?.children) ? source.children : null]. *)
Definition childCategories (source : Js.json) : option (list Js.json) :=
  match Js.asArray (Js.field "categories" source) with
  | Some l => Some l
  | None => Js.asArray (Js.field "children" source)
  end.

(** The part of the [forEach] body that precedes the recursive call: the
    category pushed for [source], and the counter after it. *)
Definition normalizeCategory (ids : IdSource) (idx : nat) (source : Js.json)
    (parent : option string) (n : nat) : TemplateCategory * nat :=
  let name :=
    match Js.asString (Js.field "name" source) with
    | Some s => Js.trim s
    | None => ""
    end in
  let '(tpls, n1) :=
    match Js.asArray (Js.field "templates" source) with
    | Some l => normalizeTemplates ids 0 l n
    | None => ([], n)
    end in
  let '(id, n2) :=
    match Js.asString (Js.field "id" source) with
    | Some s => if decide (s = "") then (ids n1, S n1) else (s, n1)
    | None => (ids n1, S n1)
    end in
  let safeName := Js.or name ("分类 " +:+ pretty (idx + 1)%nat) in
  let ownParent := Js.asString (Js.field "parentId" source) in
  (mkCategory id safeName tpls (if Js.truthy ownParent then ownParent else parent),
   n2).

(** The [forEach] of [normalizeTemplateCategories] over the elements from
    index [idx] on; [descend children parentId acc] is the recursive call
    made for a node that has child categories. *)
Fixpoint eachCategory
    (descend : list Js.json -> option string ->
               list TemplateCategory * nat -> list TemplateCategory * nat)
    (ids : IdSource) (parent : option string) (idx : nat) (items : list Js.json)
    (acc : list TemplateCategory * nat) : list TemplateCategory * nat :=
  match items with
  | [] => acc
  | source :: rest =>
      let '(category, n1) := normalizeCategory ids idx source parent acc.2 in
      let acc1 := (acc.1 ++ [category], n1) in
      let acc2 :=
        match childCategories source with
        | Some children => descend children (Some (cat_id category)) acc1
        | None => acc1
        end in
      eachCategory descend ids parent (S idx) rest acc2
  end.

(** [normalizeTemplateCategories(categories, parentId, depth, acc)].  The
    guard [depth > 6] ends the descent, so a call at [depth] needs at most
    [8 - depth] nested calls; [levels] counts them.  [categories] is the
    argument once [Array.isArray] has been applied ([None] otherwise). *)
Fixpoint normalizeFrom (levels : nat) (ids : IdSource)
    (categories : option (list Js.json)) (parent : option string) (depth : nat)
    (acc : list TemplateCategory * nat) : list TemplateCategory * nat :=
  match levels with
  | O => acc
  | S levels' =>
      match categories with
      | None => acc
      | Some items =>
          if (6 <? depth)%nat then acc
          else
            eachCategory
              (fun children parentId acc' =>
                 normalizeFrom levels' ids (Some children) parentId (S depth) acc')
              ids parent 0 items acc
      end
  end.

Definition normalizeTemplateCategories (ids : IdSource) (categories : option Js.json)
    : list TemplateCategory :=
  (normalizeFrom 7 ids (Js.asArray categories) None 1 ([], 0%nat)).1.

(** What [JSON.parse] answers. *)
Inductive ParseResult :=
| SyntaxError (message : string)
| Parsed (value : Js.json).

(** What a command of the desktop host answers: a rejection carries the
    message of the error when it is an [Error]. *)
Inductive HostResult (A : Type) :=
| HostRejected (message : option string)
| HostOk (a : A).
Arguments HostRejected {A} message.
Arguments HostOk {A} a.

(** [error instanceof Error ? error.message : '未知错误']. *)
Definition errorMessage (m : option string) : string := default "未知错误" m.

(** The message of the [TypeError] raised by reading a property of
    [null]; its wording is the engine's. *)
Definition nullPropertyMessage : string :=
  "Cannot read properties of null (reading 'categories')".

Inductive TemplateStatus :=
| StatusLoaded (count : nat)
| StatusEmptyFile.

Inductive TemplateImportResult :=
| TemplateImported (status : TemplateStatus)
| TemplateImportFailed (message : string).

(** [importTemplateText] outside the desktop host ([isTauriEnv] false). *)
Definition importTemplateText (fuel : nat) (ids : IdSource) (parsed : ParseResult)
    (st : Store) : option (TemplateImportResult * Store) :=
  match parsed with
  | SyntaxError message => Some (TemplateImportFailed message, st)
  | Parsed Js.JNull => Some (TemplateImportFailed nullPropertyMessage, st)
  | Parsed value =>
      let categories :=
        match Js.asArray (Js.field "categories" value) with
        | Some l => Some (Js.JArr l)
        | None => Some value
        end in
      let normalized := normalizeTemplateCategories ids categories in
      let st1 := setSelected ALL_CATEGORY_ID (setCategories normalized st) in
      let st2 := setSearchTerm "" st1 in
      st3 ← renderTemplateCategoryOptions fuel st2;
      let st4 := (renderTemplateList st3).2 in
      match TemplateStore.categories st4 with
      | [] => Some (TemplateImported StatusEmptyFile, st4)
      | _ :: _ =>
          Some (TemplateImported (StatusLoaded (length (TemplateStore.categories st4))), st4)
      end
  end.

(** The number of raw nodes at the first [level] levels of a nested input,
    the array [items] being the first. *)
Fixpoint nodesUpToLevel (level : nat) (items : list Js.json) : nat :=
  match level with
  | O => 0
  | S level' =>
      (length items +
       sum_list (map (fun source =>
                        nodesUpToLevel level' (default [] (childCategories source)))
                     items))%nat
  end.

(** The latex that an element of a [templates] array contributes, if any. *)
Definition validLatex (tpl : Js.json) : option string :=
  match Js.asString (Js.field "latex" tpl) with
  | Some s => if decide (Js.trim s = "") then None else Some (Js.trim s)
  | None => None
  end.

(** [c] is what normalisation makes of the raw node [source] found at
    position [idx] of an array nested under [parent]. *)
Definition NormalOf (ids : IdSource) (idx : nat) (source : Js.json)
    (parent : option string) (c : TemplateCategory) : Prop :=
  (* the identifier is the node's own when it has one, a generated one
     otherwise *)
  match Js.asString (Js.field "id" source) with
  | Some s => if decide (s = "") then exists n, cat_id c = ids n else cat_id c = s
  | None => exists n, cat_id c = ids n
  end /\
  (* the name is the node's own, trimmed, or the synthesized one *)
  cat_name c =
    Js.or (match Js.asString (Js.field "name" source) with
           | Some s => Js.trim s
           | None => ""
           end)
          ("分类 " +:+ pretty (idx + 1)%nat) /\
  (* the parent pointer is the node's own or the enclosing category *)
  parentId c =
    (if Js.truthy (Js.asString (Js.field "parentId" source))
     then Js.asString (Js.field "parentId" source) else parent) /\
  (* every kept template has a non-empty trimmed latex ... *)
  Forall (fun t => tpl_latex t ≠ "" /\ tpl_name t ≠ "") (templates c) /\
  (* ... and the kept templates are those of the input that have one *)
  map tpl_latex (templates c) =
    omap validLatex (default [] (Js.asArray (Js.field "templates" source))).

(** [out] is the flattening of the array [items], found at [depth] under
    [parent], whose first element has index [idx]: each node of a level up to
    6 contributes its category followed by the flattening of its children,
    which point to it; an array below level 6 contributes nothing. *)
Inductive Flattens (ids : IdSource) :
    nat -> option string -> nat -> list Js.json -> list TemplateCategory -> Prop :=
| flat_deep depth parent idx items :
    (6 < depth)%nat -> Flattens ids depth parent idx items []
| flat_nil depth parent idx :
    Flattens ids depth parent idx [] []
| flat_node depth parent idx source rest c below after :
    (depth <= 6)%nat ->
    NormalOf ids idx source parent c ->
    Flattens ids (S depth) (Some (cat_id c)) 0
      (default [] (childCategories source)) below ->
    Flattens ids depth parent (S idx) rest after ->
    Flattens ids depth parent idx (source :: rest) (c :: below ++ after).

(** A chain of [n] nested categories named after their distance to the
    innermost one, nested through [categories]. *)
Fixpoint chain (n : nat) : list Js.json :=
  match n with
  | O => []
  | S n' =>
      [Js.JObj [("name", Js.JStr ("L" +:+ pretty n));
                ("id", Js.JStr ("id" +:+ pretty n));
                ("categories", Js.JArr (chain n'))]]
  end.

(** An id source for the examples. *)
Definition sampleIds : IdSource := fun n => "gen-" +:+ pretty n.

End TemplateImport.

(** ** The formula collection: export and import *)

Module Formulas.
Import TemplateImport.

Record FormulaItem := mkFormula {
  f_id : string;
  f_index : Z;
  f_latex : string;
  f_note : option string;
}.

(** The fields of [state] that an import touches. *)
Record FormulaState := mkFormulaState {
  formulas : list FormulaItem;
  nextIndex : Z;
  editingId : option string;
}.

(** What [JSON.stringify] serialises for one formula: its own properties,
    a [note] that is [undefined] being left out. *)
Definition formulaToJson (f : FormulaItem) : Js.json :=
  Js.JObj
    ([("id", Js.JStr (f_id f)); ("index", Js.JNum (f_index f));
      ("latex", Js.JStr (f_latex f))] ++
     match f_note f with
     | Some note => [("note", Js.JStr note)]
     | None => []
     end).

(** [exportJson]: the value handed to [JSON.stringify] and then to the
    download or to the host; [None] when there is nothing to export. *)
Definition exportJson (st : FormulaState) : option Js.json :=
  match formulas st with
  | [] => None
  | _ :: _ => Some (Js.JArr (map formulaToJson (formulas st)))
  end.

(** [applyImportedFormulas]: the state after it, and whether the alert for
    an empty result was shown. *)
Definition applyImportedFormulas (sanitized : list FormulaItem) (silent : bool)
    (st : FormulaState) : bool * FormulaState :=
  let alerted := bool_decide (sanitized = []) && negb silent in
  let maxIndex := foldl (fun m entry => Z.max m (f_index entry)) 0%Z sanitized in
  let next := if decide ((maxIndex + 1)%Z = 0%Z) then 1%Z else (maxIndex + 1)%Z in
  (alerted, mkFormulaState sanitized next None).

#[global] Instance FormulaItem_eq_dec : EqDecision FormulaItem.
Proof. solve_decision. Defined.

(** One element of the parsed array in [importJsonText]; [None] for an
    entry that the [filter(Boolean)] removes. *)
Definition sanitizeEntry (ids : IdSource) (idx : nat) (item : Js.json) (n : nat)
    : option FormulaItem * nat :=
  match Js.asString (Js.field "latex" item) with
  | None => (None, n)
  | Some raw =>
      let latex := Js.trim raw in
      if decide (latex = "") then (None, n)
      else
        let '(id, n1) :=
          match Js.asString (Js.field "id" item) with
          | Some s => (s, n)
          | None => (ids n, S n)
          end in
        let index :=
          match Js.asNumber (Js.field "index" item) with
          | Some i => i
          | None => (Z.of_nat idx + 1)%Z
          end in
        let note :=
          match Js.asString (Js.field "note" item) with
          | Some s => Js.trim s
          | None => ""
          end in
        (Some (mkFormula id index latex (Some note)), n1)
  end.

Fixpoint sanitizeEntries (ids : IdSource) (idx : nat) (items : list Js.json)
    (n : nat) : list FormulaItem :=
  match items with
  | [] => []
  | item :: rest =>
      let '(entry, n1) := sanitizeEntry ids idx item n in
      match entry with
      | Some f => f :: sanitizeEntries ids (S idx) rest n1
      | None => sanitizeEntries ids (S idx) rest n1
      end
  end.

(** The three refusals of [importJsonText]. *)
Definition msgInvalidJson : string := "文件内容不是有效的 JSON 格式".
Definition msgTemplateLibraryFile : string :=
  "这是模板库文件，请使用“绑定模板”功能导入".
Definition msgNotAnArray : string := "文件格式错误：公式集必须是 JSON 数组".

Inductive ImportResult :=
| Imported (alertedEmpty : bool)
| ImportFailed (message : string).

(** Where the program runs: in the browser, or in the desktop host whose
    [normalizeFormulas] command answered [host]. *)
Inductive Env :=
| Browser
| Tauri (host : HostResult (list FormulaItem)).

(** [importJsonText]: [true] is [Imported], [false] is [ImportFailed] with
    the message shown after the prefix of the alert (or logged when
    [silent]). *)
Definition importJsonText (env : Env) (ids : IdSource) (parsed : ParseResult)
    (silent : bool) (st : FormulaState) : ImportResult * FormulaState :=
  match env with
  | Tauri (HostOk sanitized) =>
      let '(alerted, st') := applyImportedFormulas sanitized silent st in
      (Imported alerted, st')
  | Tauri (HostRejected message) => (ImportFailed (errorMessage message), st)
  | Browser =>
      match parsed with
      | SyntaxError _ => (ImportFailed msgInvalidJson, st)
      | Parsed (Js.JArr items) =>
          let sanitized := sanitizeEntries ids 0 items 0 in
          let '(alerted, st') := applyImportedFormulas sanitized silent st in
          (Imported alerted, st')
      | Parsed value =>
          if Js.truthyJson (Js.field "categories" value)
          then (ImportFailed msgTemplateLibraryFile, st)
          else (ImportFailed msgNotAnArray, st)
      end
  end.

(** A stored formula as the browser paths of the program produce it
    ([addFormula] from the LaTeX input, [importJsonText]): the latex is
    trimmed and not empty, the note is a trimmed string. *)
Definition Sanitized (f : FormulaItem) : Prop :=
  Js.trim (f_latex f) = f_latex f /\ f_latex f ≠ "" /\
  exists note, f_note f = Some note /\ Js.trim note = note.

(** A collection of two formulas as [addFormula] stores them. *)
Definition sampleFormulas : FormulaState :=
  mkFormulaState
    [mkFormula "f1" 1 "a^2+b^2=c^2" (Some "Pythagoras");
     mkFormula "f2" 3 "e^{i\pi}=-1" (Some "")]
    4 None.

End Formulas.

(** ** The windowed list *)

Module VirtualList.

Section WithItems.

(** The payload of an item and the content of a rendered element. *)
Context {T E : Type}.

Record VirtualListItem := mkItem {
  item_id : string;
  item_data : T;
}.

(** A rendered element with the two properties that [render] sets. *)
Record Element := mkElement {
  el_content : E;
  el_top : Q;
  el_virtualIndex : Z;
}.

Record VirtualList := mkVirtualList {
  items : list VirtualListItem;
  itemHeight : Q;
  bufferSize : Z;
  renderItem : VirtualListItem -> option Element -> Element;
  (* the viewport element *)
  scrollTop : Q;
  clientHeight : Q;
  (* private state *)
  visibleStart : Z;
  visibleEnd : Z;
  renderedElements : gmap string Element;
}.

Definition setRange (s e : Z) (vl : VirtualList) : VirtualList :=
  mkVirtualList (items vl) (itemHeight vl) (bufferSize vl) (renderItem vl)
    (scrollTop vl) (clientHeight vl) s e (renderedElements vl).

Definition setRendered (m : gmap string Element) (vl : VirtualList) : VirtualList :=
  mkVirtualList (items vl) (itemHeight vl) (bufferSize vl) (renderItem vl)
    (scrollTop vl) (clientHeight vl) (visibleStart vl) (visibleEnd vl) m.

Definition setItems (l : list VirtualListItem) (vl : VirtualList) : VirtualList :=
  mkVirtualList l (itemHeight vl) (bufferSize vl) (renderItem vl)
    (scrollTop vl) (clientHeight vl) (visibleStart vl) (visibleEnd vl)
    (renderedElements vl).

Definition setScrollTop (y : Q) (vl : VirtualList) : VirtualList :=
  mkVirtualList (items vl) (itemHeight vl) (bufferSize vl) (renderItem vl)
    y (clientHeight vl) (visibleStart vl) (visibleEnd vl) (renderedElements vl).

(** [updateVisibleRange]. *)
Definition updateVisibleRange (vl : VirtualList) : VirtualList :=
  let start := Qfloor (scrollTop vl / itemHeight vl) in
  let visibleCount := Qceiling (clientHeight vl / itemHeight vl) in
  let end_ := (start + visibleCount)%Z in
  setRange (Z.max 0 (start - bufferSize vl))
           (Z.min (Z.of_nat (length (items vl))) (end_ + bufferSize vl))
           vl.

(** [Array.prototype.slice(start, end)] on integers, a negative bound
    counting from the end. *)
Definition slice {A} (start end_ : Z) (l : list A) : list A :=
  let len := Z.of_nat (length l) in
  let k := if (start <? 0)%Z then Z.max (len + start) 0 else Z.min start len in
  let final := if (end_ <? 0)%Z then Z.max (len + end_) 0 else Z.min end_ len in
  take (Z.to_nat (final - k)) (drop (Z.to_nat k) l).

(** [items[i]] for an integer [i]. *)
Definition at_ {A} (l : list A) (i : Z) : option A :=
  if (i <? 0)%Z then None else l !! Z.to_nat i.

Definition place (i : Z) (h : Q) (e : Element) : Element :=
  mkElement (el_content e) (inject_Z i * h) i.

(** The body of the [for] loop of [render] at index [i]. *)
Definition renderAt (vl : VirtualList) (rendered : gmap string Element) (i : Z)
    : gmap string Element :=
  match at_ (items vl) i with
  | None => rendered
  | Some item =>
      match rendered !! item_id item with
      | None =>
          <[item_id item := place i (itemHeight vl) (renderItem vl item None)]> rendered
      | Some element =>
          <[item_id item :=
              place i (itemHeight vl) (renderItem vl item (Some element))]> rendered
      end
  end.

(** [render]: the elements outside the window are released, those inside
    are created or updated, index by index. *)
Definition render (vl : VirtualList) : VirtualList :=
  let visibleIds : gset string :=
    list_to_set (map item_id (slice (visibleStart vl) (visibleEnd vl) (items vl))) in
  let kept := filter (fun entry => entry.1 ∈ visibleIds) (renderedElements vl) in
  setRendered
    (foldl (renderAt vl) kept
           (seqZ (visibleStart vl) (visibleEnd vl - visibleStart vl)))
    vl.

(** The callback registered by [handleScroll], once the frame arrives. *)
Definition onScrollFrame (vl : VirtualList) : VirtualList :=
  render (updateVisibleRange vl).

(** [updateItems]. *)
Definition updateItems (l : list VirtualListItem) (vl : VirtualList) : VirtualList :=
  render (updateVisibleRange (setItems l vl)).

(** [scrollToIndex]. *)
Definition scrollToIndex (index : Z) (vl : VirtualList) : VirtualList :=
  setScrollTop (inject_Z index * itemHeight vl) vl.

(** The constructor: the buffer defaults to 5, nothing is rendered yet,
    and the first range and render are computed at once. *)
Definition create (items : list VirtualListItem) (itemHeight : Q)
    (bufferSize : option Z)
    (renderItem : VirtualListItem -> option Element -> Element)
    (scrollTop clientHeight : Q) : VirtualList :=
  render
    (updateVisibleRange
       (mkVirtualList items itemHeight (default 5%Z bufferSize) renderItem
          scrollTop clientHeight 0 0 ∅)).

(** [destroy]. *)
Definition destroy (vl : VirtualList) : VirtualList := setRendered ∅ vl.

(** [items[visibleStart:visibleEnd]] of the specification: the items at the
    indices from [s] up to, not including, [e]. *)
Definition window {A} (s e : Z) (l : list A) : list A :=
  take (Z.to_nat (e - s)) (drop (Z.to_nat s) l).

End WithItems.

Arguments VirtualListItem T : clear implicits.
Arguments Element E : clear implicits.
Arguments VirtualList T E : clear implicits.

(** A list of a hundred formulas shown in a window of 600 pixels, scrolled
    by 900 pixels, with the settings used by the editor. *)
Definition sampleList : VirtualList unit string :=
  mkVirtualList
    (map (fun n => mkItem ("f" +:+ pretty n) tt) (seq 0 100))
    180 5 (fun item _ => mkElement (item_id item) 0 0)
    900 600 0 0 ∅.

End VirtualList.

(** ** Autosave of the formula collection to a bound file *)

Module Autosave.

Inductive BoundFileHandleType := none | fsa | electron | tauri.

#[global] Instance BoundFileHandleType_eq_dec : EqDecision BoundFileHandleType.
Proof. solve_decision. Defined.

(** A [FileSystemFileHandle]: its name, and whether it offers
    [requestPermission]. *)
Record FileHandle := mkHandle {
  handleName : string;
  hasRequestPermission : bool;
}.

Inductive PermissionState := granted | denied | prompt.

(** What the outside world answers during one call of [saveToBoundFile]:
    the permission the handle reports, whether the write (or the host
    command) throws, and with which message when the error is an [Error]. *)
Record WriteOutcome := mkOutcome {
  permission : PermissionState;
  writeThrows : option (option string);
}.

(** Timers are those of the window: an identifier is a positive integer,
    and [activeTimers] holds the ones that have been set and not cleared. *)
Record AutosaveState := mkAutosave {
  boundFileHandle : option FileHandle;
  boundFileName : string;
  boundFileHandleType : BoundFileHandleType;
  boundFilePath : string;
  lastAutosaveAt : option Z;
  autosaveIntervalId : option positive;
  autosaveDebounceId : option positive;
  activeTimers : gset positive;
  nextTimer : positive;
  statusText : string;
  statusVariant : string;
  (* every write that was attempted, latest first *)
  writeAttempts : list string;
}.

Definition hasBoundFile (st : AutosaveState) : bool :=
  match boundFileHandleType st with
  | fsa => bool_decide (boundFileHandle st ≠ None)
  | electron => bool_decide (boundFilePath st ≠ "")
  | tauri => bool_decide (boundFilePath st ≠ "")
  | none => false
  end.

(** [updateAutosaveStatusText]. *)
Definition updateAutosaveStatusText (text variant : string) (st : AutosaveState)
    : AutosaveState :=
  mkAutosave (boundFileHandle st) (boundFileName st) (boundFileHandleType st)
    (boundFilePath st) (lastAutosaveAt st) (autosaveIntervalId st)
    (autosaveDebounceId st) (activeTimers st) (nextTimer st) text variant
    (writeAttempts st).

(** [stopAutoSave]. *)
Definition stopAutoSave (st : AutosaveState) : AutosaveState :=
  let active1 :=
    match autosaveIntervalId st with
    | Some id => activeTimers st ∖ {[ id ]}
    | None => activeTimers st
    end in
  let active2 :=
    match autosaveDebounceId st with
    | Some id => active1 ∖ {[ id ]}
    | None => active1
    end in
  mkAutosave (boundFileHandle st) (boundFileName st) (boundFileHandleType st)
    (boundFilePath st) (lastAutosaveAt st) None None active2 (nextTimer st)
    (statusText st) (statusVariant st) (writeAttempts st).

(** [unbindAutosaveFile(message, variant)]. *)
Definition unbindAutosaveFile (message variant : option string)
    (st : AutosaveState) : AutosaveState :=
  let st1 := stopAutoSave st in
  let st2 :=
    mkAutosave None "" none "" None (autosaveIntervalId st1)
      (autosaveDebounceId st1) (activeTimers st1) (nextTimer st1)
      (statusText st1) (statusVariant st1) (writeAttempts st1) in
  updateAutosaveStatusText
    (Js.or (Js.orEmpty message) "未绑定自动保存文件")
    (if Js.truthy message then default "error" variant else "normal")
    st2.

(** [getBoundFileLabel], the file name taken from a path being left to
    [extractFileName]. *)
Definition getBoundFileLabel (extractFileName : string -> string)
    (st : AutosaveState) : string :=
  if decide (boundFileName st ≠ "") then boundFileName st
  else
    match boundFileHandleType st with
    | electron | tauri =>
        if decide (boundFilePath st ≠ "") then extractFileName (boundFilePath st)
        else "formulas.json"
    | _ => "formulas.json"
    end.

Definition recordWrite (content : string) (st : AutosaveState) : AutosaveState :=
  mkAutosave (boundFileHandle st) (boundFileName st) (boundFileHandleType st)
    (boundFilePath st) (lastAutosaveAt st) (autosaveIntervalId st)
    (autosaveDebounceId st) (activeTimers st) (nextTimer st) (statusText st)
    (statusVariant st) (content :: writeAttempts st).

Definition setLastAutosaveAt (now : Z) (st : AutosaveState) : AutosaveState :=
  mkAutosave (boundFileHandle st) (boundFileName st) (boundFileHandleType st)
    (boundFilePath st) (Some now) (autosaveIntervalId st)
    (autosaveDebounceId st) (activeTimers st) (nextTimer st) (statusText st)
    (statusVariant st) (writeAttempts st).

(** The body of the [try] block of [saveToBoundFile]: the state once the
    write has been attempted, or the error that was thrown. *)
Definition tryWrite (content : string) (io : WriteOutcome) (st : AutosaveState)
    : AutosaveState + (AutosaveState * option string) :=
  let attempt st0 :=
    let st1 := recordWrite content st0 in
    match writeThrows io with
    | Some message => inr (st1, message)
    | None => inl st1
    end in
  if bool_decide (boundFileHandleType st = tauri) &&
     bool_decide (boundFilePath st ≠ "")
  then attempt st
  else if bool_decide (boundFileHandleType st = fsa) &&
          bool_decide (boundFileHandle st ≠ None)
  then
    match boundFileHandle st with
    | Some handle =>
        if hasRequestPermission handle then
          match permission io with
          | denied => inr (st, Some "没有写入该文件的权限")
          | _ => attempt st
          end
        else attempt st
    | None => inl st
    end
  else if bool_decide (boundFileHandleType st = electron) &&
          bool_decide (boundFilePath st ≠ "")
  then attempt st
  else inl st.

(** [saveToBoundFile]; [content] is [JSON.stringify(state.formulas, null, 2)],
    [now] and [timeText] what the clock answers. *)
Definition saveToBoundFile (extractFileName : string -> string) (content : string)
    (now : Z) (timeText : string) (io : WriteOutcome) (st : AutosaveState)
    : AutosaveState :=
  if negb (hasBoundFile st) then st
  else
    match tryWrite content io st with
    | inl st1 =>
        let st2 := setLastAutosaveAt now st1 in
        updateAutosaveStatusText
          ("已自动保存到 " +:+ getBoundFileLabel extractFileName st2 +:+ " · " +:+ timeText)
          "normal" st2
    | inr (st1, message) =>
        unbindAutosaveFile
          (Some ("自动保存失败：" +:+ TemplateImport.errorMessage message)) None st1
    end.

(** [scheduleAutosave]. *)
Definition scheduleAutosave (st : AutosaveState) : AutosaveState :=
  if negb (hasBoundFile st) then st
  else
    let active1 :=
      match autosaveDebounceId st with
      | Some id => activeTimers st ∖ {[ id ]}
      | None => activeTimers st
      end in
    mkAutosave (boundFileHandle st) (boundFileName st) (boundFileHandleType st)
      (boundFilePath st) (lastAutosaveAt st) (autosaveIntervalId st)
      (Some (nextTimer st)) (active1 ∪ {[ nextTimer st ]}) (Pos.succ (nextTimer st))
      (statusText st) (statusVariant st) (writeAttempts st).

(** [startAutoSave]. *)
Definition startAutoSave (extractFileName : string -> string)
    (st : AutosaveState) : AutosaveState :=
  let st1 := stopAutoSave st in
  if negb (hasBoundFile st1) then
    updateAutosaveStatusText "未绑定自动保存文件" "normal" st1
  else
    let st2 :=
      updateAutosaveStatusText
        ("已绑定 " +:+ getBoundFileLabel extractFileName st1 +:+ " · 每分钟自动保存")
        "normal" st1 in
    mkAutosave (boundFileHandle st2) (boundFileName st2) (boundFileHandleType st2)
      (boundFilePath st2) (lastAutosaveAt st2) (Some (nextTimer st2))
      (autosaveDebounceId st2) (activeTimers st2 ∪ {[ nextTimer st2 ]})
      (Pos.succ (nextTimer st2)) (statusText st2) (statusVariant st2)
      (writeAttempts st2).

(** What can happen to the binding without the user binding a file: a
    timer callback runs (with what the outside world answers to it), an
    edit asks for a save, the autosave loop is started again. *)
Inductive Event :=
| IntervalFires (content : string) (now : Z) (timeText : string) (io : WriteOutcome)
| DebounceFires (content : string) (now : Z) (timeText : string) (io : WriteOutcome)
| EditSchedules
| LoopStarts.

Definition step (extractFileName : string -> string) (st : AutosaveState)
    (ev : Event) : AutosaveState :=
  match ev with
  | IntervalFires content now timeText io =>
      saveToBoundFile extractFileName content now timeText io st
  | DebounceFires content now timeText io =>
      saveToBoundFile extractFileName content now timeText io st
  | EditSchedules => scheduleAutosave st
  | LoopStarts => startAutoSave extractFileName st
  end.

(** The message of the error that one call of [saveToBoundFile] would
    catch, if any. *)
Definition failure (content : string) (io : WriteOutcome) (st : AutosaveState)
    : option string :=
  if hasBoundFile st then
    match tryWrite content io st with
    | inr (_, message) => Some (TemplateImport.errorMessage message)
    | inl _ => None
    end
  else None.

(** The timers that the two module variables refer to. *)
Definition referencedTimers (st : AutosaveState) : gset positive :=
  match autosaveIntervalId st with Some id => {[ id ]} | None => ∅ end ∪
  match autosaveDebounceId st with Some id => {[ id ]} | None => ∅ end.

(** A binding to a file of the desktop host, with both timers running. *)
Definition sampleBinding : AutosaveState :=
  mkAutosave None "f.json" tauri "/home/u/f.json" None (Some 1%positive)
    (Some 2%positive) {[ 1%positive; 2%positive ]} 3%positive "" "normal" [].

Definition sampleFailure : WriteOutcome := mkOutcome granted (Some (Some "disk full")).

End Autosave.

(** ** File names *)

Module Paths.

(** A character of the class [[/\\]]. *)
Definition isSeparator (c : ascii) : bool :=
  (nat_of_ascii c =? 47)%nat || (nat_of_ascii c =? 92)%nat.

(** [path.split(/[/\\]/)]: the texts between the separators, at least one. *)
Fixpoint split (path : string) : list string :=
  match path with
  | EmptyString => [""]
  | String c rest =>
      if isSeparator c then "" :: split rest
      else
        match split rest with
        | first :: others => String c first :: others
        | [] => [String c ""]
        end
  end.

(** [extractFileName]: [parts.pop() || path]. *)
Definition extractFileName (path : string) : string :=
  if decide (path = "") then ""
  else Js.or (default "" (last (split path))) path.

(** No character of [s] is a separator. *)
Fixpoint separatorFree (s : string) : Prop :=
  match s with
  | EmptyString => True
  | String c rest => isSeparator c = false /\ separatorFree rest
  end.

(** A text ends with a separator. *)
Definition endsWithSeparator (s : string) : Prop :=
  exists d c, s = d +:+ String c "" /\ isSeparator c = true.

End Paths.

(** ** Caches and pools of the memory module *)

Module MemoryOptimizer.

(** [StringCache]: the [Map] is the list of its entries, oldest first. *)
Record StringCache := mkStringCache {
  sc_cache : list (string * string);
  sc_maxSize : Z;
}.

(** [new StringCache(maxSize = 10000)]. *)
Definition newStringCache (maxSize : option Z) : StringCache :=
  mkStringCache [] (default 10000%Z maxSize).

(** [Map.prototype.get]. *)
Definition mapGet (k : string) (m : list (string * string)) : option string :=
  snd <$> List.find (fun e => bool_decide (e.1 = k)) m.

(** [Map.prototype.delete] of the first key, if there is one. *)
Definition deleteFirstKey (m : list (string * string)) : list (string * string) :=
  match m with
  | [] => []
  | (firstKey, _) :: _ => filter (fun e => e.1 ≠ firstKey) m
  end.

(** [intern]: what it returns and the cache after it. *)
Definition intern (str : string) (c : StringCache) : string * StringCache :=
  match mapGet str (sc_cache c) with
  | Some cached => (cached, c)
  | None =>
      let kept :=
        if (sc_maxSize c <=? Z.of_nat (length (sc_cache c)))%Z
        then deleteFirstKey (sc_cache c) else sc_cache c in
      (str, mkStringCache (kept ++ [(str, str)]) (sc_maxSize c))
  end.

(** [clear] and [size]. *)
Definition clearStrings (c : StringCache) : StringCache :=
  mkStringCache [] (sc_maxSize c).

Definition stringCacheSize (c : StringCache) : nat := length (sc_cache c).

(** The calls made on a string cache. *)
Inductive CacheCall :=
| Intern (str : string)
| ClearStrings.

Definition cacheCall (c : StringCache) (call : CacheCall) : StringCache :=
  match call with
  | Intern str => (intern str c).2
  | ClearStrings => clearStrings c
  end.

(** Every entry maps a string to itself, and the size stays within the
    bound. *)
Definition CacheOk (c : StringCache) : Prop :=
  Forall (fun e => e.1 = e.2) (sc_cache c) /\
  (Z.of_nat (length (sc_cache c)) <= sc_maxSize c)%Z.

Section Pool.

(** The elements of a pool; [createElement ()] answers [blank], and
    [clean] is what [release] does to an element before it keeps it. *)
Context {E : Type} (blank : E) (clean : E -> E).

Record DOMElementPool := mkPool {
  pool : list E;
  pool_maxSize : Z;
}.

(** [new DOMElementPool(createElement, initialSize, maxSize)]. *)
Definition newPool (initialSize : nat) (maxSize : Z) : DOMElementPool :=
  mkPool (replicate initialSize blank) maxSize.

(** [acquire]: [this.pool.pop() || this.createElement()]. *)
Definition acquire (p : DOMElementPool) : E * DOMElementPool :=
  match last (pool p) with
  | Some element => (element, mkPool (removelast (pool p)) (pool_maxSize p))
  | None => (blank, p)
  end.

(** [release]. *)
Definition release (element : E) (p : DOMElementPool) : DOMElementPool :=
  if (Z.of_nat (length (pool p)) <? pool_maxSize p)%Z
  then mkPool (pool p ++ [clean element]) (pool_maxSize p)
  else p.

Inductive PoolCall :=
| Acquire
| Release (element : E).

Definition poolCall (p : DOMElementPool) (call : PoolCall) : DOMElementPool :=
  match call with
  | Acquire => (acquire p).2
  | Release element => release element p
  end.

End Pool.

Arguments DOMElementPool E : clear implicits.
Arguments PoolCall E : clear implicits.

(** The [for] loop of [BatchOptimizer.filterInPlace] from [readIndex] on;
    [rounds] bounds the rounds left, the length of the array being enough
    since the loop only writes below [readIndex]. *)
Fixpoint filterLoop {A} (predicate : A -> nat -> bool) (rounds : nat)
    (readIndex writeIndex : nat) (array : list A) : nat * list A :=
  match rounds with
  | O => (writeIndex, array)
  | S rounds' =>
      match array !! readIndex with
      | None => (writeIndex, array)
      | Some x =>
          if predicate x readIndex then
            let array' :=
              if decide (writeIndex ≠ readIndex)
              then <[writeIndex := x]> array else array in
            filterLoop predicate rounds' (S readIndex) (S writeIndex) array'
          else filterLoop predicate rounds' (S readIndex) writeIndex array
      end
  end.

(** [filterInPlace]: the array once [array.length = writeIndex] has cut it. *)
Definition filterInPlace {A} (predicate : A -> nat -> bool) (array : list A)
    : list A :=
  let '(writeIndex, array') :=
    filterLoop predicate (length array) 0 0 array in
  take writeIndex array'.

(** [array.filter(predicate)], the predicate receiving each element with
    its index, the first index being [i]. *)
Fixpoint filterFrom {A} (predicate : A -> nat -> bool) (i : nat) (array : list A)
    : list A :=
  match array with
  | [] => []
  | x :: rest =>
      if predicate x i then x :: filterFrom predicate (S i) rest
      else filterFrom predicate (S i) rest
  end.

End MemoryOptimizer.

(** ** Render timings *)

Module Performance.

Definition maxSamples : nat := 60.

(** What [measureRender] does to [renderTimes] once [fn] took [duration]. *)
Definition recordSample (duration : Q) (renderTimes : list Q) : list Q :=
  let pushed := renderTimes ++ [duration] in
  if (maxSamples <? length pushed)%nat then tail pushed else pushed.

(** The average that [getMetrics] reports. *)
Definition averageRenderTime (renderTimes : list Q) : Q :=
  match renderTimes with
  | [] => 0
  | _ :: _ => foldl Qplus 0 renderTimes / inject_Z (Z.of_nat (length renderTimes))
  end.

End Performance.

(** ** The formula list and the actions on it *)

Module Editor.
Import Formulas MemoryOptimizer.

Definition VIRTUAL_LIST_THRESHOLD : nat := 50.

(** The children of the list container: the paragraph of the hint, the
    cards of the standard rendering (each shows a formula), the viewport of
    the virtual list. *)
Record ListContainer := mkContainer {
  hasHint : bool;
  cards : list FormulaItem;
  hasViewport : bool;
}.

(** The virtual list of formulas; the content of an element is the formula
    that the card was last rendered for. *)
Definition FormulaVirtualList : Type :=
  VirtualList.VirtualList FormulaItem FormulaItem.

(** [state] and the module-level variables that the actions on formulas
    read and write. *)
Record App := mkApp {
  formulaState : FormulaState;
  formulaSearchTerm : string;
  virtualListEnabled : bool;
  formulaVirtualList : option FormulaVirtualList;
  formulaList : ListContainer;
  stringCache : StringCache;
  autosave : Autosave.AutosaveState;
  templateLibrary : TemplateStore.Store;
}.

Definition withFormulaState (fs : FormulaState) (app : App) : App :=
  mkApp fs (formulaSearchTerm app) (virtualListEnabled app)
    (formulaVirtualList app) (formulaList app) (stringCache app)
    (autosave app) (templateLibrary app).

Definition withSearchTerm (term : string) (app : App) : App :=
  mkApp (formulaState app) term (virtualListEnabled app)
    (formulaVirtualList app) (formulaList app) (stringCache app)
    (autosave app) (templateLibrary app).

Definition withVirtualList (enabled : bool) (vl : option FormulaVirtualList)
    (app : App) : App :=
  mkApp (formulaState app) (formulaSearchTerm app) enabled vl
    (formulaList app) (stringCache app) (autosave app) (templateLibrary app).

Definition withContainer (c : ListContainer) (app : App) : App :=
  mkApp (formulaState app) (formulaSearchTerm app) (virtualListEnabled app)
    (formulaVirtualList app) c (stringCache app) (autosave app)
    (templateLibrary app).

Definition withStringCache (c : StringCache) (app : App) : App :=
  mkApp (formulaState app) (formulaSearchTerm app) (virtualListEnabled app)
    (formulaVirtualList app) (formulaList app) c (autosave app)
    (templateLibrary app).

Definition withAutosave (a : Autosave.AutosaveState) (app : App) : App :=
  mkApp (formulaState app) (formulaSearchTerm app) (virtualListEnabled app)
    (formulaVirtualList app) (formulaList app) (stringCache app) a
    (templateLibrary app).

Definition withTemplateLibrary (st : TemplateStore.Store) (app : App) : App :=
  mkApp (formulaState app) (formulaSearchTerm app) (virtualListEnabled app)
    (formulaVirtualList app) (formulaList app) (stringCache app)
    (autosave app) st.

Definition setFormulas (l : list FormulaItem) (fs : FormulaState) : FormulaState :=
  mkFormulaState l (nextIndex fs) (editingId fs).

Definition setNextIndex (n : Z) (fs : FormulaState) : FormulaState :=
  mkFormulaState (formulas fs) n (editingId fs).

Definition setEditingId (e : option string) (fs : FormulaState) : FormulaState :=
  mkFormulaState (formulas fs) (nextIndex fs) e.

(** A formula as an item of the virtual list. *)
Definition asItem (f : FormulaItem) : VirtualList.VirtualListItem FormulaItem :=
  VirtualList.mkItem (f_id f) f.

(** The [renderItem] handed to the virtual list: the element passed in, or
    a new one, made to show the item. *)
Definition renderCard (item : VirtualList.VirtualListItem FormulaItem)
    (existing : option (VirtualList.Element FormulaItem))
    : VirtualList.Element FormulaItem :=
  match existing with
  | Some element =>
      VirtualList.mkElement (VirtualList.item_data item)
        (VirtualList.el_top element) (VirtualList.el_virtualIndex element)
  | None => VirtualList.mkElement (VirtualList.item_data item) 0 0
  end.

(** The filter of [renderFormulaList]. *)
Definition matchesSearch (searchTerm : string) (item : FormulaItem) : bool :=
  if decide (searchTerm = "") then true
  else
    Js.includes
      (Js.toLowerCase (f_latex item +:+ " " +:+ Js.orEmpty (f_note item)))
      searchTerm.

(** [if (formulaVirtualList) { destroy(); formulaVirtualList = null;
    state.virtualListEnabled = false; }]. *)
Definition dropVirtualList (app : App) : App :=
  match formulaVirtualList app with
  | Some _ =>
      withVirtualList false None
        (withContainer
           (mkContainer (hasHint (formulaList app)) (cards (formulaList app)) false)
           app)
  | None => app
  end.

(** [renderFormulaListStandard]: a hint, if shown, is cleared with all the
    rest; the cards become those of the filtered formulas, in their order. *)
Definition renderFormulaListStandard (filteredFormulas : list FormulaItem)
    (app : App) : App :=
  let c := formulaList app in
  withContainer
    (mkContainer false filteredFormulas
       (if hasHint c then false else hasViewport c))
    app.

(** The four assignments by which [importJsonViaTauri] binds the file at
    [path]. *)
Definition bindTauriFile (path : string) (a : Autosave.AutosaveState)
    : Autosave.AutosaveState :=
  Autosave.mkAutosave None
    (Js.or (Paths.extractFileName path) "formulas.json")
    Autosave.tauri path (Autosave.lastAutosaveAt a)
    (Autosave.autosaveIntervalId a) (Autosave.autosaveDebounceId a)
    (Autosave.activeTimers a) (Autosave.nextTimer a)
    (Autosave.statusText a) (Autosave.statusVariant a)
    (Autosave.writeAttempts a).

Section Host.

(** What the viewport of a virtual list reports when the list is created,
    and what [JSON.stringify(state.formulas, null, 2)] answers. *)
Context (viewportScrollTop viewportHeight : Q).
Context (stringify : list FormulaItem -> string).

(** [renderFormulaList]. *)
Definition renderFormulaList (app : App) : App :=
  let searchTerm := Js.toLowerCase (Js.trim (formulaSearchTerm app)) in
  let all := formulas (formulaState app) in
  let filteredFormulas := List.filter (matchesSearch searchTerm) all in
  if bool_decide (filteredFormulas = []) && bool_decide (all ≠ []) then
    dropVirtualList (withContainer (mkContainer true [] false) app)
  else if bool_decide (all = []) then
    dropVirtualList (withContainer (mkContainer false [] false) app)
  else
    let shouldUseVirtualList :=
      (VIRTUAL_LIST_THRESHOLD <=? length filteredFormulas)%nat in
    let app1 :=
      if shouldUseVirtualList && negb (virtualListEnabled app) then
        withVirtualList true
          (Some (VirtualList.create (map asItem filteredFormulas) 180 (Some 5%Z)
                   renderCard viewportScrollTop viewportHeight))
          (withContainer (mkContainer false [] true) app)
      else if negb shouldUseVirtualList && virtualListEnabled app then
        dropVirtualList app
      else app in
    match virtualListEnabled app1, formulaVirtualList app1 with
    | true, Some vl =>
        withVirtualList true
          (Some (VirtualList.updateItems (map asItem filteredFormulas) vl)) app1
    | _, _ => renderFormulaListStandard filteredFormulas app1
    end.

(** [scheduleAutosave] on the binding of the application. *)
Definition schedule (app : App) : App :=
  withAutosave (Autosave.scheduleAutosave (autosave app)) app.

(** [exitEditMode({ skipRender })]; the inputs that it resets are not part
    of the state. *)
Definition exitEditMode (skipRender : bool) (app : App) : App :=
  if Js.truthy (editingId (formulaState app)) then
    let app1 := withFormulaState (setEditingId None (formulaState app)) app in
    if skipRender then app1 else renderFormulaList app1
  else app.

(** [enterEditMode]. *)
Definition enterEditMode (formula : FormulaItem) (app : App) : App :=
  renderFormulaList
    (withFormulaState (setEditingId (Some (f_id formula)) (formulaState app)) app).

(** A click on the edit button of a card, which carries the id. *)
Definition onEditClick (id : string) (app : App) : App :=
  if decide (id = "") then app
  else
    match List.find (fun item => bool_decide (f_id item = id))
                    (formulas (formulaState app)) with
    | Some formula => enterEditMode formula app
    | None => app
    end.

(** A click on the reset button. *)
Definition onResetClick (app : App) : App := exitEditMode false app.

(** [addFormula]; [latex] is [getCurrentLatex()], [noteInput] the value of
    the note input, [newId] what [generateId] answers if it is called. *)
Definition addFormula (latex noteInput newId : string) (app : App) : App :=
  if decide (latex = "") then app
  else
    let note := Js.trim noteInput in
    let '(cachedLatex, strings1) := intern latex (stringCache app) in
    let '(cachedNote, strings2) :=
      if decide (note = "") then ("", strings1) else intern note strings1 in
    let app1 := withStringCache strings2 app in
    let fs := formulaState app1 in
    if Js.truthy (editingId fs) then
      let edited :=
        map (fun item =>
               if decide (Some (f_id item) = editingId fs)
               then mkFormula (f_id item) (f_index item) cachedLatex (Some cachedNote)
               else item)
            (formulas fs) in
      exitEditMode true (schedule (withFormulaState (setFormulas edited fs) app1))
    else
      let pushed :=
        formulas fs ++ [mkFormula newId (nextIndex fs) cachedLatex (Some cachedNote)] in
      schedule
        (renderFormulaList
           (withFormulaState
              (setNextIndex (nextIndex fs + 1) (setFormulas pushed fs)) app1)).

(** [removeFormula]. *)
Definition removeFormula (id : string) (app : App) : App :=
  let fs := formulaState app in
  let removingCurrent := bool_decide (editingId fs = Some id) in
  let kept := List.filter (fun item => bool_decide (f_id item ≠ id)) (formulas fs) in
  let app1 := schedule (renderFormulaList (withFormulaState (setFormulas kept fs) app)) in
  if removingCurrent then exitEditMode true app1 else app1.

(** A click on the remove button of a card, which carries the id. *)
Definition onRemoveClick (id : string) (app : App) : App :=
  if decide (id = "") then app else removeFormula id app.

(** [clearAll]; [confirmed] is the answer to the question it asks. *)
Definition clearAll (confirmed : bool) (app : App) : App :=
  match formulas (formulaState app) with
  | [] => app
  | _ :: _ =>
      if negb confirmed then app
      else
        let app1 :=
          withFormulaState
            (setNextIndex 1 (setFormulas [] (formulaState app))) app in
        let app2 := schedule (renderFormulaList (exitEditMode true app1)) in
        withTemplateLibrary
          (TemplateStore.setDescendantCache ∅ (templateLibrary app2))
          (withStringCache (clearStrings (stringCache app2)) app2)
  end.

(** [startNewFormulaSet]. *)
Definition startNewFormulaSet (confirmed : bool) (app : App) : App :=
  if bool_decide (formulas (formulaState app) ≠ []) && negb confirmed then app
  else
    let app1 :=
      withFormulaState (setNextIndex 1 (setFormulas [] (formulaState app))) app in
    let app2 := renderFormulaList (exitEditMode true app1) in
    withAutosave
      (Autosave.unbindAutosaveFile
         (Some "已创建新的公式集（未绑定文件）") (Some "warning") (autosave app2))
      app2.

(** [importJsonText] with what [applyImportedFormulas] does besides
    replacing the formulas: the list is rendered and a save is scheduled. *)
Definition importJson (env : Env) (ids : TemplateImport.IdSource)
    (parsed : TemplateImport.ParseResult) (silent : bool) (app : App)
    : ImportResult * App :=
  let '(result, fs) := importJsonText env ids parsed silent (formulaState app) in
  match result with
  | Imported _ => (result, schedule (renderFormulaList (withFormulaState fs app)))
  | ImportFailed _ => (result, app)
  end.

(** [importJsonViaTauri]: [filePath] is the answer of the open dialog,
    [read] tells whether the file could be read, [host] is the answer of the
    host to the content; [now], [timeText] and [io] are what the clock and
    the file system answer to the save that follows a successful import. *)
Definition importJsonViaTauri (filePath : option string)
    (read : TemplateImport.HostResult unit)
    (host : TemplateImport.HostResult (list FormulaItem))
    (ids : TemplateImport.IdSource) (parsed : TemplateImport.ParseResult)
    (now : Z) (timeText : string) (io : Autosave.WriteOutcome) (app : App)
    : bool * App :=
  if negb (Js.truthy filePath) then (false, app)
  else
    match read with
    | TemplateImport.HostRejected _ => (false, app)
    | TemplateImport.HostOk _ =>
        let '(result, app1) := importJson (Tauri host) ids parsed true app in
        match result with
        | ImportFailed _ => (false, app1)
        | Imported _ =>
            let bound := bindTauriFile (Js.orEmpty filePath) (autosave app1) in
            let started := Autosave.startAutoSave Paths.extractFileName bound in
            (true,
             withAutosave
               (Autosave.saveToBoundFile Paths.extractFileName
                  (stringify (formulas (formulaState app1))) now timeText io
                  started)
               app1)
        end
    end.

(** The callback of either autosave timer. *)
Definition onAutosaveTimer (now : Z) (timeText : string)
    (io : Autosave.WriteOutcome) (app : App) : App :=
  withAutosave
    (Autosave.saveToBoundFile Paths.extractFileName
       (stringify (formulas (formulaState app))) now timeText io (autosave app))
    app.

(** The search input changes. *)
Definition onSearchInput (term : string) (app : App) : App :=
  renderFormulaList (withSearchTerm term app).

(** The viewport of the virtual list is scrolled to [y] and the frame that
    [handleScroll] asked for arrives. *)
Definition onListScroll (y : Q) (app : App) : App :=
  match formulaVirtualList app with
  | Some vl =>
      withVirtualList (virtualListEnabled app)
        (Some (VirtualList.onScrollFrame (VirtualList.setScrollTop y vl))) app
  | None => app
  end.

(** What the user and the timers can do to the formulas. *)
Inductive Action :=
| AddFormula (latex noteInput newId : string)
| EditClick (id : string)
| ResetClick
| RemoveClick (id : string)
| ClearAll (confirmed : bool)
| NewFormulaSet (confirmed : bool)
| SearchInput (term : string)
| ImportJson (env : Env) (ids : TemplateImport.IdSource)
    (parsed : TemplateImport.ParseResult) (silent : bool)
| ImportViaTauri (filePath : option string)
    (read : TemplateImport.HostResult unit)
    (host : TemplateImport.HostResult (list FormulaItem))
    (ids : TemplateImport.IdSource) (parsed : TemplateImport.ParseResult)
    (now : Z) (timeText : string) (io : Autosave.WriteOutcome)
| AutosaveTimer (now : Z) (timeText : string) (io : Autosave.WriteOutcome)
| ListScroll (y : Q).

Definition act (app : App) (a : Action) : App :=
  match a with
  | AddFormula latex noteInput newId => addFormula latex noteInput newId app
  | EditClick id => onEditClick id app
  | ResetClick => onResetClick app
  | RemoveClick id => onRemoveClick id app
  | ClearAll confirmed => clearAll confirmed app
  | NewFormulaSet confirmed => startNewFormulaSet confirmed app
  | SearchInput term => onSearchInput term app
  | ImportJson env ids parsed silent => (importJson env ids parsed silent app).2
  | ImportViaTauri filePath read host ids parsed now timeText io =>
      (importJsonViaTauri filePath read host ids parsed now timeText io app).2
  | AutosaveTimer now timeText io => onAutosaveTimer now timeText io app
  | ListScroll y => onListScroll y app
  end.

Definition run (app : App) (actions : list Action) : App := foldl act app actions.

(** The application once the module has run: no formula, nothing bound,
    the list rendered once. *)
Definition initialApp : App :=
  renderFormulaList
    (mkApp (mkFormulaState [] 1 None) "" false None (mkContainer false [] false)
       (newStringCache None)
       (Autosave.mkAutosave None "" Autosave.none "" None None None ∅ 1%positive
          "未绑定自动保存文件" "normal" [])
       TemplateStore.initialStore).

End Host.

(** Every stored index lies below the next one to be given. *)
Definition IndicesBelowNext (fs : FormulaState) : Prop :=
  (1 <= nextIndex fs)%Z /\
  Forall (fun item => (f_index item < nextIndex fs)%Z) (formulas fs).

(** The formula being edited, if any, is one of the stored ones. *)
Definition EditedExists (fs : FormulaState) : Prop :=
  forall id, editingId fs = Some id -> id <> "" ->
    exists item, item ∈ formulas fs /\ f_id item = id.

(** The flag, the variable and the container agree on whether the virtual
    list is in use, and a viewport never stands beside cards or a hint. *)
Definition ListConsistent (app : App) : Prop :=
  match formulaVirtualList app with
  | Some _ =>
      virtualListEnabled app = true /\ hasViewport (formulaList app) = true /\
      hasHint (formulaList app) = false /\ cards (formulaList app) = []
  | None =>
      virtualListEnabled app = false /\ hasViewport (formulaList app) = false
  end.

(** The string cache keeps its bound and answers what it is given. *)
Definition StringsOk (app : App) : Prop :=
  (1 <= sc_maxSize (stringCache app))%Z /\ CacheOk (stringCache app).

(** The virtual list, when there is one, has the geometry that
    [renderFormulaList] gives it and a viewport that is not scrolled above
    its top. *)
Definition ListSized (app : App) : Prop :=
  forall vl, formulaVirtualList app = Some vl ->
    VirtualList.itemHeight vl = 180 /\ VirtualList.bufferSize vl = 5%Z /\
    0 <= VirtualList.scrollTop vl /\ 0 <= VirtualList.clientHeight vl.

(** The virtual list, when there is one, holds items of stored formulas
    and has elements for a window of them only: at most the number of cards
    that fit the viewport, and ten more. *)
Definition Windowed (app : App) : Prop :=
  forall vl, formulaVirtualList app = Some vl ->
    (forall id, id ∈ map VirtualList.item_id (VirtualList.items vl) ->
                id ∈ map f_id (formulas (formulaState app))) /\
    (forall id, id ∈ dom (VirtualList.renderedElements vl) ->
                id ∈ map VirtualList.item_id (VirtualList.items vl)) /\
    (Z.of_nat (size (dom (VirtualList.renderedElements vl))) <=
       Qceiling (VirtualList.clientHeight vl / 180) + 10)%Z.

(** The three together, as the actions keep them. *)
Definition ListInv (app : App) : Prop :=
  ListConsistent app /\ ListSized app /\ Windowed app.

(** No scroll event reports an offset above the top. *)
Definition scrollsFromTop (a : Action) : Prop :=
  match a with
  | ListScroll y => 0 <= y
  | _ => True
  end.

(** The formulas that pass the filter of the list. *)
Definition filtered (app : App) : list FormulaItem :=
  List.filter
    (matchesSearch (Js.toLowerCase (Js.trim (formulaSearchTerm app))))
    (formulas (formulaState app)).

(** The action binds a file. *)
Definition rebinds (a : Action) : bool :=
  match a with
  | ImportViaTauri _ _ _ _ _ _ _ _ => true
  | _ => false
  end.

(** No file is bound and no autosave timer is referred to. *)
Definition Unbound (a : Autosave.AutosaveState) : Prop :=
  Autosave.hasBoundFile a = false /\
  Autosave.autosaveIntervalId a = None /\ Autosave.autosaveDebounceId a = None.

(** The timers that are set and not cleared are those that the two
    variables refer to; these are distinct and were given out before. *)
Definition TimersTracked (a : Autosave.AutosaveState) : Prop :=
  Autosave.activeTimers a = Autosave.referencedTimers a /\
  (forall id, id ∈ Autosave.referencedTimers a -> (id < Autosave.nextTimer a)%positive) /\
  (forall id, Autosave.autosaveIntervalId a = Some id ->
              Autosave.autosaveDebounceId a <> Some id).

(** Sixty formulas, numbered from 1. *)
Definition sixtyFormulas : list FormulaItem :=
  map (fun n => mkFormula ("f" +:+ pretty n) (Z.of_nat n) "x^2" (Some "square"))
      (seq 1 60).

End Editor.

(** ** The template tree: toggles, storage and the bound file *)

Module TemplateTree.
Import TemplateStore TemplateImport.

(** A click on the toggle of a row of the tree; the toggle carries the id
    of its category, and an empty id is no toggle. *)
Definition onTreeToggleClick (fuel : nat) (id : string) (st : Store)
    : option Store :=
  if decide (id = "") then Some st
  else
    st1 ←
      (if decide (id ∈ templateTreeExpandedIds st) then
         if decide (id = ALL_CATEGORY_ID) then
           let st0 :=
             if bool_decide (selectedCategoryId st ≠ "") &&
                bool_decide (selectedCategoryId st ≠ ALL_CATEGORY_ID)
             then setSelected ALL_CATEGORY_ID st else st in
           Some (setExpanded ∅ st0)
         else
           '(descendants, cache') ←
             getDescendantCategoryIds fuel (categories st) id
               (descendantCategoryIdsCache st);
           let st0 := setDescendantCache cache' st in
           let st1 :=
             if decide (selectedCategoryId st0 ∈ descendants)
             then setSelected id st0 else st0 in
           Some (setExpanded
                   (templateTreeExpandedIds st1 ∖ list_to_set descendants) st1)
       else Some (setExpanded (templateTreeExpandedIds st ∪ {[ id ]}) st));
    renderTemplateCategoryOptions fuel (setSuppress true st1).

(** What [JSON.stringify] serialises for a template and for a category:
    their own properties, one that is [undefined] being left out. *)
Definition templateToJson (t : TemplateItem) : Js.json :=
  Js.JObj
    ([("id", Js.JStr (tpl_id t)); ("name", Js.JStr (tpl_name t));
      ("latex", Js.JStr (tpl_latex t))] ++
     match tpl_note t with
     | Some note => [("note", Js.JStr note)]
     | None => []
     end).

Definition categoryToJson (c : TemplateCategory) : Js.json :=
  Js.JObj
    ([("id", Js.JStr (cat_id c)); ("name", Js.JStr (cat_name c));
      ("templates", Js.JArr (map templateToJson (templates c)))] ++
     match parentId c with
     | Some p => [("parentId", Js.JStr p)]
     | None => []
     end).

(** What [saveTemplateLibraryToLocalStorage] stores: [state.templateLibrary]. *)
Definition libraryToJson (st : Store) : Js.json :=
  Js.JObj
    [("categories", Js.JArr (map categoryToJson (categories st)));
     ("selectedCategoryId", Js.JStr (selectedCategoryId st))].

(** What [exportTemplateLibrary] and [saveTemplatesToBoundFile] write. *)
Definition exportedLibrary (st : Store) : Js.json :=
  Js.JObj [("categories", Js.JArr (map categoryToJson (categories st)))].

(** [loadTemplateLibraryFromLocalStorage]; [cached] is what [getItem]
    answers, parsed: [None] when nothing, or the empty text, is stored. *)
Definition loadTemplateLibraryFromLocalStorage (ids : IdSource)
    (cached : option ParseResult) (st : Store) : Store :=
  match cached with
  | None => st
  | Some (SyntaxError _) => st
  | Some (Parsed parsed) =>
      let raw :=
        match Js.field "categories" parsed with
        | None | Some Js.JNull => Some (Js.JArr [])
        | Some value => Some value
        end in
      let cats := normalizeTemplateCategories ids raw in
      let selectedExists :=
        match Js.asString (Js.field "selectedCategoryId" parsed) with
        | Some desiredId =>
            cat_id <$> List.find (fun cat => bool_decide (cat_id cat = desiredId)) cats
        | None => None
        end in
      setSearchTerm ""
        (setSelected (Js.or (Js.orEmpty selectedExists) ALL_CATEGORY_ID)
           (setCategories cats st))
  end.

(** A template and a category as the program stores them: an identifier,
    a trimmed name, and for a template a trimmed latex and a note; a parent
    reference, when present, is not empty. *)
Definition StoredTemplate (t : TemplateItem) : Prop :=
  tpl_id t <> "" /\
  Js.trim (tpl_name t) = tpl_name t /\ tpl_name t <> "" /\
  Js.trim (tpl_latex t) = tpl_latex t /\ tpl_latex t <> "" /\
  exists note, tpl_note t = Some note /\ Js.trim note = note.

Definition StoredCategory (c : TemplateCategory) : Prop :=
  cat_id c <> "" /\
  Js.trim (cat_name c) = cat_name c /\ cat_name c <> "" /\
  parentId c <> Some "" /\
  Forall StoredTemplate (templates c).

(** No category lies deeper than the sixth level. *)
Definition DepthBounded (cats : list TemplateCategory) : Prop :=
  forall cat, cat ∈ cats ->
    (getTemplateCategoryDepth cats (Some (cat_id cat)) <= 6)%nat.

(** The identifiers of the categories are distinct and not empty. *)
Definition DistinctIds (cats : list TemplateCategory) : Prop :=
  NoDup (map cat_id cats) /\ "" ∉ map cat_id cats.

(** The binding of the template library to a file. *)
Record TemplateBinding := mkTemplateBinding {
  templateFileHandle : option Autosave.FileHandle;
  templateFileName : string;
  templateFilePath : string;
  templateAutosaveIntervalId : option positive;
  templateActiveTimers : gset positive;
  templateNextTimer : positive;
  templateStatusText : string;
  templateStatusVariant : string;
  (* every write that was attempted, latest first *)
  templateWriteAttempts : list string;
}.

(** [state.templateFileHandle || state.templateFilePath]. *)
Definition hasTemplateFile (b : TemplateBinding) : bool :=
  bool_decide (templateFileHandle b ≠ None) ||
  bool_decide (templateFilePath b ≠ "").

(** [setTemplateStatusText]. *)
Definition setTemplateStatusText (text variant : string) (b : TemplateBinding)
    : TemplateBinding :=
  mkTemplateBinding (templateFileHandle b) (templateFileName b)
    (templateFilePath b) (templateAutosaveIntervalId b) (templateActiveTimers b)
    (templateNextTimer b) text variant (templateWriteAttempts b).

(** [stopTemplateAutosave]. *)
Definition stopTemplateAutosave (b : TemplateBinding) : TemplateBinding :=
  match templateAutosaveIntervalId b with
  | Some id =>
      mkTemplateBinding (templateFileHandle b) (templateFileName b)
        (templateFilePath b) None (templateActiveTimers b ∖ {[ id ]})
        (templateNextTimer b) (templateStatusText b) (templateStatusVariant b)
        (templateWriteAttempts b)
  | None => b
  end.

(** [unbindTemplateFile(message, variant)]. *)
Definition unbindTemplateFile (message variant : option string)
    (b : TemplateBinding) : TemplateBinding :=
  let b1 := stopTemplateAutosave b in
  setTemplateStatusText
    (Js.or (Js.orEmpty message) "未绑定模板文件")
    (if Js.truthy message then default "warning" variant else "normal")
    (mkTemplateBinding None "" "" (templateAutosaveIntervalId b1)
       (templateActiveTimers b1) (templateNextTimer b1) (templateStatusText b1)
       (templateStatusVariant b1) (templateWriteAttempts b1)).

(** [startTemplateAutosave]. *)
Definition startTemplateAutosave (b : TemplateBinding) : TemplateBinding :=
  let b1 := stopTemplateAutosave b in
  if negb (hasTemplateFile b1) then setTemplateStatusText "未绑定模板文件" "normal" b1
  else
    let b2 :=
      setTemplateStatusText
        ("已绑定 " +:+ Js.or (templateFileName b1) "template-library.json" +:+
         " · 每分钟同步")
        "normal" b1 in
    mkTemplateBinding (templateFileHandle b2) (templateFileName b2)
      (templateFilePath b2) (Some (templateNextTimer b2))
      (templateActiveTimers b2 ∪ {[ templateNextTimer b2 ]})
      (Pos.succ (templateNextTimer b2)) (templateStatusText b2)
      (templateStatusVariant b2) (templateWriteAttempts b2).

Definition recordTemplateWrite (content : string) (b : TemplateBinding)
    : TemplateBinding :=
  mkTemplateBinding (templateFileHandle b) (templateFileName b)
    (templateFilePath b) (templateAutosaveIntervalId b) (templateActiveTimers b)
    (templateNextTimer b) (templateStatusText b) (templateStatusVariant b)
    (content :: templateWriteAttempts b).

(** The body of the [try] block of [saveTemplatesToBoundFile]: the binding
    once the write has been attempted, or the error that was thrown. *)
Definition tryTemplateWrite (isTauriEnv : bool) (content : string)
    (io : Autosave.WriteOutcome) (b : TemplateBinding)
    : TemplateBinding + (TemplateBinding * option string) :=
  let attempt b0 :=
    let b1 := recordTemplateWrite content b0 in
    match Autosave.writeThrows io with
    | Some message => inr (b1, message)
    | None => inl b1
    end in
  if bool_decide (templateFilePath b ≠ "") && isTauriEnv then attempt b
  else
    match templateFileHandle b with
    | Some handle =>
        if Autosave.hasRequestPermission handle then
          match Autosave.permission io with
          | Autosave.denied => inr (b, Some "没有写入模板文件的权限")
          | _ => attempt b
          end
        else attempt b
    | None => inl b
    end.

(** [saveTemplatesToBoundFile]; [content] is the serialised library. *)
Definition saveTemplatesToBoundFile (isTauriEnv : bool) (content : string)
    (io : Autosave.WriteOutcome) (b : TemplateBinding) : TemplateBinding :=
  if negb (hasTemplateFile b) then b
  else
    match tryTemplateWrite isTauriEnv content io b with
    | inl b1 =>
        setTemplateStatusText
          ("已写入 " +:+ Js.or (templateFileName b1) "template-library.json")
          "normal" b1
    | inr (b1, message) =>
        unbindTemplateFile
          (Some ("写入模板失败：" +:+ errorMessage message)) (Some "error") b1
    end.

(** [persistTemplateLibrary({ skipBoundWrite })], the write to local
    storage apart. *)
Definition persistTemplateLibrary (isTauriEnv skipBoundWrite : bool)
    (content : string) (io : Autosave.WriteOutcome) (b : TemplateBinding)
    : TemplateBinding :=
  let b1 := if hasTemplateFile b then startTemplateAutosave b else b in
  if skipBoundWrite then b1 else saveTemplatesToBoundFile isTauriEnv content io b1.

(** What happens to the binding without a file being bound: the interval
    fires, or a change of the library is persisted. *)
Inductive BindingEvent :=
| TemplateIntervalFires (content : string) (io : Autosave.WriteOutcome)
| LibraryPersisted (skipBoundWrite : bool) (content : string)
    (io : Autosave.WriteOutcome).

Definition bindingStep (isTauriEnv : bool) (b : TemplateBinding)
    (ev : BindingEvent) : TemplateBinding :=
  match ev with
  | TemplateIntervalFires content io =>
      saveTemplatesToBoundFile isTauriEnv content io b
  | LibraryPersisted skipBoundWrite content io =>
      persistTemplateLibrary isTauriEnv skipBoundWrite content io b
  end.

(** The message of the error that one call of [saveTemplatesToBoundFile]
    would catch, if any. *)
Definition templateWriteFailure (isTauriEnv : bool) (content : string)
    (io : Autosave.WriteOutcome) (b : TemplateBinding) : option string :=
  if hasTemplateFile b then
    match tryTemplateWrite isTauriEnv content io b with
    | inr (_, message) => Some (errorMessage message)
    | inl _ => None
    end
  else None.

(** The only timer that runs is the one that [templateAutosaveIntervalId]
    names. *)
Definition TemplateTimersTracked (b : TemplateBinding) : Prop :=
  templateActiveTimers b =
    match templateAutosaveIntervalId b with
    | Some id => {[ id ]}
    | None => ∅
    end.

(** A library bound to a file of the desktop host, its interval running. *)
Definition sampleTemplateBinding : TemplateBinding :=
  mkTemplateBinding None "library.json" "/home/u/library.json"
    (Some 1%positive) {[ 1%positive ]} 2%positive "" "normal" [].

End TemplateTree.

(** * Properties *)

(** ** Trimming *)

Module JsFacts.
Import Js.

Lemma trimEnd_idem s : trimEnd (trimEnd s) = trimEnd s.
Proof.
  induction s as [|c s IH]; simpl; [done|].
  destruct (bool_decide (trimEnd s = "") && isWhiteSpace c) eqn:Hb; [done|].
  simpl. by rewrite IH, Hb.
Qed.

Lemma trimStart_head s :
  match trimStart s with
  | String c _ => isWhiteSpace c = false
  | EmptyString => True
  end.
Proof.
  induction s as [|c s IH]; simpl; [done|].
  destruct (isWhiteSpace c) eqn:Hc; [done|]. exact Hc.
Qed.

Lemma trimEnd_head c r :
  isWhiteSpace c = false -> trimEnd (String c r) = String c (trimEnd r).
Proof. intros Hc. simpl. by rewrite Hc, andb_false_r. Qed.

(** A trimmed string has nothing left to trim. *)
Lemma trim_idem s : trim (trim s) = trim s.
Proof.
  unfold trim. pose proof (trimStart_head s) as Hh.
  destruct (trimStart s) as [|c r]; [done|].
  rewrite (trimEnd_head c r Hh). simpl. rewrite Hh.
  rewrite (trimEnd_head c _ Hh). by rewrite trimEnd_idem.
Qed.

End JsFacts.

(** ** The category tree and the cache of descendants *)

Module TreeFacts.
Import TemplateStore.

Lemma elem_of_children cats parent cat :
  cat ∈ getTemplateChildren cats parent <->
  cat ∈ cats /\ parentKey cat = Js.orEmpty parent.
Proof.
  unfold getTemplateChildren. rewrite list_elem_of_filter. tauto.
Qed.

Lemma findCategory_Some cats id c :
  findCategory cats id = Some c -> c ∈ cats /\ cat_id c = id.
Proof.
  unfold findCategory. intros Hf. apply find_some in Hf as [Hin Hb].
  apply bool_decide_eq_true in Hb. split; [by apply list_elem_of_In | done].
Qed.

Lemma subtree_trans cats a b c :
  InSubtree cats a b -> InSubtree cats b c -> InSubtree cats a c.
Proof.
  intros Hab Hbc. induction Hbc as [|cat Hin _ IH]; [done|].
  by apply subtree_child.
Qed.

(** A member of a subtree other than its root lies below a child of the
    root. *)
Lemma subtree_via_child cats k x :
  InSubtree cats k x -> x ≠ k ->
  exists child, child ∈ cats /\ parentKey child = k /\
                InSubtree cats (cat_id child) x.
Proof.
  induction 1 as [|cat Hin Hsub IH]; [done|]. intros _.
  destruct (decide (parentKey cat = k)) as [Heq|Hne].
  - exists cat. split_and!; [done..|constructor].
  - destruct (IH Hne) as (child & ? & ? & ?).
    exists child. split_and!; [done..|]. by apply subtree_child.
Qed.

Lemma setDescendantCache_twice c1 c0 st :
  setDescendantCache c1 (setDescendantCache c0 st) = setDescendantCache c1 st.
Proof. reflexivity. Qed.

(** *** The bounds added to the loops do not show in the results *)

(** The loop of [getTemplateCategoryDepth] has left before its six rounds
    are used up: further rounds change nothing. *)
Lemma depthLoop_rounds cats rounds :
  forall current depth,
    (7 <= rounds + depth)%nat -> (depth <= 6)%nat ->
    depthLoop (S rounds) cats current depth = depthLoop rounds cats current depth.
Proof.
  induction rounds as [|rounds IH]; intros current depth Hd Hle; [lia|].
  - change (depthLoop (S (S rounds)) cats current depth)
      with (match current with
            | Some cur =>
                if Js.truthy (parentId cur) then
                  if (6 <? S depth)%nat then S depth
                  else depthLoop (S rounds) cats
                         (findCategory cats (Js.orEmpty (parentId cur))) (S depth)
                else depth
            | None => depth
            end).
    change (depthLoop (S rounds) cats current depth)
      with (match current with
            | Some cur =>
                if Js.truthy (parentId cur) then
                  if (6 <? S depth)%nat then S depth
                  else depthLoop rounds cats
                         (findCategory cats (Js.orEmpty (parentId cur))) (S depth)
                else depth
            | None => depth
            end).
    destruct current as [cur|]; [|done].
    destruct (Js.truthy (parentId cur)); [|done].
    destruct (6 <? S depth)%nat eqn:Hlt; [done|].
    apply Nat.ltb_ge in Hlt. apply IH; lia.
Qed.

Lemma foldl_None {A B} (f : option A -> B -> option A) (l : list B) :
  (forall b, f None b = None) -> foldl f None l = None.
Proof. intros Hf. induction l as [|b l IH]; simpl; [done|]. by rewrite Hf. Qed.

(** A walk that returns with some fuel returns the same with more. *)
Lemma getDescendantCategoryIds_more_fuel cats fuel :
  forall k cache r,
    getDescendantCategoryIds fuel cats k cache = Some r ->
    getDescendantCategoryIds (S fuel) cats k cache = Some r.
Proof.
  induction fuel as [|fuel IH]; intros k cache r Hr; [done|].
  revert Hr.
  pose (F := fun (acc : option (list string * gmap string (list string))) child =>
               '(result, cache0) ← acc;
               '(sub, cache1) ←
                 getDescendantCategoryIds fuel cats (cat_id child) cache0;
               Some (result ++ sub, cache1)).
  pose (F' := fun (acc : option (list string * gmap string (list string))) child =>
                '(result, cache0) ← acc;
                '(sub, cache1) ←
                  getDescendantCategoryIds (S fuel) cats (cat_id child) cache0;
                Some (result ++ sub, cache1)).
  change (getDescendantCategoryIds (S (S fuel)) cats k cache)
    with (match cache !! k with
          | Some cached => Some (cached, cache)
          | None =>
              '(result, cache') ←
                foldl F' (Some ([k], cache)) (getTemplateChildren cats (Some k));
              Some (result, <[k := result]> cache')
          end).
  change (getDescendantCategoryIds (S fuel) cats k cache)
    with (match cache !! k with
          | Some cached => Some (cached, cache)
          | None =>
              '(result, cache') ←
                foldl F (Some ([k], cache)) (getTemplateChildren cats (Some k));
              Some (result, <[k := result]> cache')
          end).
  destruct (cache !! k); [done|].
  assert (Hfold : forall chs acc r0,
             foldl F acc chs = Some r0 -> foldl F' acc chs = Some r0).
  { assert (HF : forall b, F None b = None) by done.
    induction chs as [|c chs IHc]; intros acc r0; [done|]. simpl.
    destruct acc as [[res cache0]|].
    - replace (F (Some (res, cache0)) c)
        with ('(sub, cache1) ← getDescendantCategoryIds fuel cats (cat_id c) cache0;
              Some (res ++ sub, cache1)) by done.
      replace (F' (Some (res, cache0)) c)
        with ('(sub, cache1) ←
                getDescendantCategoryIds (S fuel) cats (cat_id c) cache0;
              Some (res ++ sub, cache1)) by done.
      destruct (getDescendantCategoryIds fuel cats (cat_id c) cache0)
        as [[sub cache1]|] eqn:Hsub.
      + rewrite (IH _ _ _ Hsub). simpl. apply IHc.
      + simpl. by rewrite foldl_None.
    - rewrite HF. by rewrite foldl_None. }
  destruct (foldl F _ _) as [[result cache']|] eqn:Hf; [|done].
  by rewrite (Hfold _ _ _ Hf).
Qed.

Lemma getDescendantCategoryIds_fuel cats fuel extra k cache r :
  getDescendantCategoryIds fuel cats k cache = Some r ->
  getDescendantCategoryIds (fuel + extra) cats k cache = Some r.
Proof.
  intros Hr. induction extra as [|extra IH].
  - by rewrite Nat.add_0_r.
  - rewrite Nat.add_succ_r. by apply getDescendantCategoryIds_more_fuel.
Qed.

Lemma elem_of_concat {A} (x : A) (ls : list (list A)) :
  x ∈ concat ls <-> exists l, l ∈ ls /\ x ∈ l.
Proof.
  rewrite list_elem_of_In, in_concat. split.
  - intros (l & Hl & Hx). exists l. by rewrite !list_elem_of_In.
  - intros (l & Hl & Hx). exists l. by rewrite <- !list_elem_of_In.
Qed.

Lemma Covers_node P cats k ls :
  Forall2 (fun child l => Covers P cats (cat_id child) l)
          (getTemplateChildren cats (Some k)) ls ->
  Covers P cats k (k :: concat ls).
Proof.
  intros HF. split_and!.
  - by left.
  - intros x [->|Hx]%elem_of_cons; [constructor|].
    apply elem_of_concat in Hx as (l & Hl & Hx).
    apply list_elem_of_lookup in Hl as [i Hi].
    destruct (Forall2_lookup_r _ _ _ _ _ HF Hi) as (child & Hch & Hcov).
    apply list_elem_of_lookup_2, elem_of_children in Hch as [Hin Hpk].
    apply subtree_trans with (cat_id child); [|by apply Hcov].
    apply subtree_child; [done|]. simpl in Hpk. rewrite Hpk. constructor.
  - intros cat Hin Hsub Hnot.
    apply not_elem_of_cons in Hnot as [Hne Hnot].
    destruct (subtree_via_child _ _ _ Hsub Hne) as (child & Hc & Hpk & Hbelow).
    assert (Hch : child ∈ getTemplateChildren cats (Some k))
      by by apply elem_of_children.
    apply list_elem_of_lookup in Hch as [i Hi].
    destruct (Forall2_lookup_l _ _ _ _ _ HF Hi) as (l & Hl & Hcov).
    apply Hcov; [done..|].
    intros Hx. apply Hnot, elem_of_concat. exists l.
    split; [by eapply list_elem_of_lookup_2|done].
Qed.

(** With nothing allowed to be missing, a covering list is the subtree. *)
Lemma Covers_exact cats k l :
  Covers (fun _ => False) cats k l ->
  forall x, x ∈ l <-> InSubtree cats k x.
Proof.
  intros (Hk & Hsound & Hcomplete) x. split; [apply Hsound|].
  intros Hx. destruct (decide (x ∈ l)) as [|Hnot]; [done|].
  destruct Hx as [|cat Hin Hsub]; [done|].
  destruct (Hcomplete cat Hin); [by apply subtree_child|done].
Qed.

Lemma countIn_sum ids cats :
  countIn ids cats =
  sum_list (map (fun cat => length (templates cat))
                (filter (fun cat => cat_id cat ∈ ids) cats)).
Proof.
  unfold countIn.
  assert (H : forall l a,
             foldl (fun total category =>
                      if decide (cat_id category ∈ ids)
                      then (total + length (templates category))%nat
                      else total) a l =
             (a + sum_list (map (fun cat => length (templates cat))
                                (filter (fun cat => cat_id cat ∈ ids) l)))%nat).
  { induction l as [|c l IH]; intros a; simpl; [lia|].
    rewrite IH. rewrite filter_cons. destruct (decide _); simpl; lia. }
  by rewrite H.
Qed.

(** Two lists that cover the same subtree, one exactly and one up to the
    categories without templates, select the same number of templates. *)
Lemma countIn_covers cats k l members :
  Covers ownsNoTemplate cats k l ->
  (forall x, x ∈ members <-> InSubtree cats k x) ->
  countIn (list_to_set l) cats = countIn members cats.
Proof.
  intros (Hk & Hsound & Hcomplete) Hm. rewrite !countIn_sum.
  assert (H : forall sub, (forall c, c ∈ sub -> c ∈ cats) ->
             sum_list (map (fun cat => length (templates cat))
                           (filter (fun cat => cat_id cat ∈ (list_to_set l : gset string)) sub)) =
             sum_list (map (fun cat => length (templates cat))
                           (filter (fun cat => cat_id cat ∈ members) sub))).
  { induction sub as [|c sub IH]; intros Hsub; [done|].
    rewrite !filter_cons.
    specialize (IH (fun c' Hc' => Hsub c' (list_elem_of_further _ _ _ Hc'))).
    assert (Hc : c ∈ cats) by (apply Hsub; left).
    destruct (decide (cat_id c ∈ (list_to_set l : gset string))) as [Hl|Hl];
      destruct (decide (cat_id c ∈ members)) as [Hmem|Hmem]; simpl; try lia.
    - exfalso. apply Hmem, Hm, Hsound. by apply elem_of_list_to_set in Hl.
    - rewrite (Hcomplete c Hc); [simpl; lia|by apply Hm|].
      intros Hin. apply Hl. by apply elem_of_list_to_set. }
  by apply H.
Qed.

Section Walk.
Context (cats : list TemplateCategory) (rank : string -> nat).
Hypothesis rank_parent :
  forall cat, cat ∈ cats -> (rank (cat_id cat) < rank (parentKey cat))%nat.

(** A property of cache entries that the walk establishes for a node
    from what holds of its children. *)
Context (Φ : string -> list string -> Prop).
Hypothesis Φ_node :
  forall k ls,
    Forall2 (fun child l => Φ (cat_id child) l)
            (getTemplateChildren cats (Some k)) ls ->
    Φ k (k :: concat ls).

Lemma getDescendantCategoryIds_total fuel :
  forall k cache,
    (rank k < fuel)%nat -> map_Forall Φ cache ->
    exists l cache',
      getDescendantCategoryIds fuel cats k cache = Some (l, cache') /\
      map_Forall Φ cache' /\ Φ k l.
Proof.
  induction fuel as [|fuel IH]; intros k cache Hk Hc; [lia|].
  simpl. destruct (cache !! k) as [l|] eqn:Hlk.
  { exists l, cache. split_and!; [done..|]. by apply (Hc k). }
  set (F := fun acc child =>
              '(result, cache0) ← acc;
              '(sub, cache1) ←
                getDescendantCategoryIds fuel cats (cat_id child) cache0;
              Some (result ++ sub, cache1)).
  assert (Hfold : forall chs res cache0,
             (forall c, c ∈ chs -> c ∈ cats /\ parentKey c = k) ->
             map_Forall Φ cache0 ->
             exists ls cache',
               foldl F (Some (res, cache0)) chs = Some (res ++ concat ls, cache') /\
               map_Forall Φ cache' /\
               Forall2 (fun child l => Φ (cat_id child) l) chs ls).
  { induction chs as [|c chs IHc]; intros res cache0 Hch Hc0.
    - exists [], cache0. simpl. rewrite app_nil_r. by split_and!.
    - destruct (Hch c) as [Hin Hpk]; [left|].
      destruct (IH (cat_id c) cache0) as (sub & cache1 & Hsub & Hc1 & HΦ);
        [|done|].
      { specialize (rank_parent c Hin). rewrite Hpk in rank_parent. lia. }
      destruct (IHc (res ++ sub) cache1) as (ls & cache' & Hls & Hc' & HF);
        [|done|].
      { intros c' Hc'. apply Hch. by right. }
      exists (sub :: ls), cache'. split_and!; [|done|by constructor].
      simpl. rewrite Hsub. simpl.
      rewrite Hls. by rewrite <- app_assoc. }
  destruct (Hfold (getTemplateChildren cats (Some k)) [k] cache)
    as (ls & cache' & Hls & Hc' & HF); [|done|].
  { intros c Hin. by apply elem_of_children in Hin. }
  fold F. rewrite Hls. simpl.
  exists (k :: concat ls), (<[k := k :: concat ls]> cache').
  split_and!; [done| |by apply Φ_node].
  apply map_Forall_insert_2; [by apply Φ_node|done].
Qed.

Lemma getCategoryTemplateCount_total fuel k st :
  categories st = cats -> (rank k < fuel)%nat ->
  map_Forall Φ (descendantCategoryIdsCache st) ->
  exists l cache',
    getCategoryTemplateCount fuel k st =
      Some (countIn (list_to_set l) cats, setDescendantCache cache' st) /\
    map_Forall Φ cache' /\ Φ k l.
Proof.
  intros Hcats Hk Hc. unfold getCategoryTemplateCount. rewrite Hcats.
  destruct (getDescendantCategoryIds_total fuel k _ Hk Hc)
    as (l & cache' & -> & Hc' & HΦ).
  exists l, cache'. by split_and!.
Qed.

Lemma renderTreeLevel_total fuel :
  forall parent st,
    categories st = cats -> (rank (Js.orEmpty parent) < fuel)%nat ->
    map_Forall Φ (descendantCategoryIdsCache st) ->
    exists cache',
      renderTreeLevel fuel parent st = Some (setDescendantCache cache' st) /\
      map_Forall Φ cache'.
Proof.
  induction fuel as [|fuel IH]; intros parent st Hcats Hp Hc; [lia|].
  simpl.
  set (F := fun acc category =>
              st0 ← acc;
              let hasChildren :=
                bool_decide
                  (getTemplateChildren (categories st0) (Some (cat_id category)) ≠ []) in
              let expanded :=
                bool_decide (cat_id category ∈ templateTreeExpandedIds st0) in
              '(_, st1) ← getCategoryTemplateCount fuel (cat_id category) st0;
              if hasChildren && expanded
              then renderTreeLevel fuel (Some (cat_id category)) st1
              else Some st1).
  assert (Hfold : forall chs cache0,
             (forall c, c ∈ chs -> c ∈ cats /\ parentKey c = Js.orEmpty parent) ->
             map_Forall Φ cache0 ->
             exists cache',
               foldl F (Some (setDescendantCache cache0 st)) chs =
                 Some (setDescendantCache cache' st) /\
               map_Forall Φ cache').
  { induction chs as [|c chs IHc]; intros cache0 Hch Hc0.
    - exists cache0. by split.
    - destruct (Hch c) as [Hin Hpk]; [left|].
      assert (Hr : (rank (cat_id c) < fuel)%nat).
      { specialize (rank_parent c Hin). rewrite Hpk in rank_parent. lia. }
      destruct (getCategoryTemplateCount_total fuel (cat_id c)
                  (setDescendantCache cache0 st))
        as (l & cache1 & Hcount & Hc1 & _); [done..|].
      simpl. rewrite Hcount. simpl. rewrite setDescendantCache_twice.
      destruct (bool_decide _ && bool_decide _).
      + destruct (IH (Some (cat_id c)) (setDescendantCache cache1 st))
          as (cache2 & -> & Hc2); [done..|].
        rewrite setDescendantCache_twice.
        destruct (IHc cache2) as (cache' & Hfin & Hc'); [|done|].
        { intros c' ?. apply Hch. by right. }
        exists cache'. by split.
      + destruct (IHc cache1) as (cache' & Hfin & Hc'); [|done|].
        { intros c' ?. apply Hch. by right. }
        exists cache'. by split.
  }
  fold F.
  destruct (Hfold (getTemplateChildren (categories st) parent)
              (descendantCategoryIdsCache st)) as (cache' & Hfin & Hc'); [|done|].
  { intros c Hin. rewrite Hcats in Hin. by apply elem_of_children in Hin. }
  exists cache'. split; [|done]. rewrite <- Hfin. by destruct st.
Qed.

Context (bound : nat).
Hypothesis rank_bound : forall x, (rank x <= bound)%nat.

Lemma expandLoop_total fuel :
  forall current expanded,
    (forall cur, current = Some cur ->
                 cur ∈ cats /\ (bound - rank (cat_id cur) <= fuel)%nat) ->
    is_Some (expandLoop fuel cats current expanded).
Proof.
  induction fuel as [|fuel IH]; intros [cur|] expanded Hcur; simpl; try done.
  - destruct (Hcur cur eq_refl) as [Hin Hr].
    destruct (Js.truthy (parentId cur)); [|done].
    specialize (rank_parent cur Hin). specialize (rank_bound (parentKey cur)). lia.
  - destruct (Hcur cur eq_refl) as [Hin Hr].
    destruct (Js.truthy (parentId cur)); [|done].
    apply IH. intros next Hnext. apply findCategory_Some in Hnext as [Hn Hid].
    split; [done|]. rewrite Hid. fold (parentKey cur).
    specialize (rank_parent cur Hin). specialize (rank_bound (parentKey cur)). lia.
Qed.

(** A render of the tree returns, leaves the categories alone and keeps
    what holds of the cache; the selection becomes the "all" entry only
    when there was none. *)
Lemma renderTemplateCategoryOptions_total fuel st :
  categories st = cats -> (bound < fuel)%nat ->
  map_Forall Φ (descendantCategoryIdsCache st) ->
  exists st',
    renderTemplateCategoryOptions fuel st = Some st' /\
    categories st' = cats /\
    map_Forall Φ (descendantCategoryIdsCache st') /\
    selectedCategoryId st' =
      match cats with
      | [] => ALL_CATEGORY_ID
      | _ :: _ => Js.or (selectedCategoryId st) ALL_CATEGORY_ID
      end.
Proof.
  intros Hcats Hfuel Hc. unfold renderTemplateCategoryOptions.
  set (st1 := match categories st with [] => setSelected "" st | _ :: _ => st end).
  assert (H1 : categories st1 = cats /\
               descendantCategoryIdsCache st1 = descendantCategoryIdsCache st /\
               selectedCategoryId st1 =
                 match cats with [] => "" | _ :: _ => selectedCategoryId st end).
  { subst st1. rewrite Hcats. by destruct cats. }
  destruct H1 as (Hc1 & Hd1 & Hs1). clearbody st1.
  set (st2 := initializeTemplateTreeExpandedState st1).
  assert (H2 : categories st2 = cats /\
               descendantCategoryIdsCache st2 = descendantCategoryIdsCache st /\
               selectedCategoryId st2 = selectedCategoryId st1).
  { subst st2. unfold initializeTemplateTreeExpandedState.
    destruct (hasInitializedTemplateTree st1); [done|].
    by destruct (decide _). }
  destruct H2 as (Hc2 & Hd2 & Hs2). clearbody st2.
  set (st3 := if decide (selectedCategoryId st2 = "")
              then setSelected ALL_CATEGORY_ID st2 else st2).
  assert (H3 : categories st3 = cats /\
               descendantCategoryIdsCache st3 = descendantCategoryIdsCache st /\
               selectedCategoryId st3 =
                 Js.or (selectedCategoryId st2) ALL_CATEGORY_ID).
  { subst st3. unfold Js.or. by destruct (decide _). }
  destruct H3 as (Hc3 & Hd3 & Hs3). clearbody st3.
  assert (H4 : exists st4,
             (if suppressTemplateAutoExpandOnce st3 then Some st3
              else ensureTemplateTreeExpandedForSelection fuel
                     (Js.or (selectedCategoryId st2) ALL_CATEGORY_ID) st3) = Some st4 /\
             categories st4 = cats /\
             descendantCategoryIdsCache st4 = descendantCategoryIdsCache st /\
             selectedCategoryId st4 = selectedCategoryId st3).
  { destruct (suppressTemplateAutoExpandOnce st3); [by exists st3|].
    unfold ensureTemplateTreeExpandedForSelection.
    destruct (decide _); [by exists st3|].
    rewrite Hc3.
    destruct (expandLoop_total fuel
                (findCategory cats
                   (Js.or (selectedCategoryId st2) ALL_CATEGORY_ID))
                (templateTreeExpandedIds st3 ∪ {[ALL_CATEGORY_ID]}))
      as [e He].
    { intros cur Hcur.
      apply findCategory_Some in Hcur as [? ?]. split; [done|lia]. }
    rewrite He. simpl. by eexists. }
  destruct H4 as (st4 & -> & Hc4 & Hd4 & Hs4). simpl.
  set (st5 := (getAllTemplates st4).2).
  assert (H5 : categories st5 = cats /\
               descendantCategoryIdsCache st5 = descendantCategoryIdsCache st /\
               selectedCategoryId st5 = selectedCategoryId st4).
  { subst st5. unfold getAllTemplates.
    destruct (allTemplatesCache st4); [destruct (decide _)|]; by simpl. }
  destruct H5 as (Hc5 & Hd5 & Hs5). clearbody st5.
  assert (Hsel : selectedCategoryId st5 =
                 match cats with
                 | [] => ALL_CATEGORY_ID
                 | _ :: _ => Js.or (selectedCategoryId st) ALL_CATEGORY_ID
                 end).
  { rewrite Hs5, Hs4, Hs3, Hs2, Hs1. by destruct cats. }
  destruct (decide (ALL_CATEGORY_ID ∈ templateTreeExpandedIds st5)).
  - destruct (renderTreeLevel_total fuel None st5) as (cache' & -> & Hc');
      [done| |by rewrite Hd5|].
    { specialize (rank_bound (Js.orEmpty None)). lia. }
    simpl. eexists. split; [done|]. by split_and!.
  - simpl. eexists. split; [done|]. simpl. split_and!; [done| |done].
    by rewrite Hd5.
Qed.

End Walk.

Lemma getAllTemplates_store st :
  exists cache n, (getAllTemplates st).2 = setAllTemplates cache n st.
Proof.
  unfold getAllTemplates.
  destruct (allTemplatesCache st) as [cache|] eqn:Hc;
    [destruct (decide _) as [Hl|]|]; simpl; eauto.
  exists (Some cache), (lastCategoriesLength st). destruct st; simpl in *.
  by subst.
Qed.

Lemma renderTemplateList_cases st :
  (renderTemplateList st).2 = st \/
  (renderTemplateList st).2 = (getAllTemplates st).2.
Proof.
  unfold renderTemplateList. destruct (categories st); [by left|].
  destruct (decide _).
  - right. destruct (getAllTemplates st) as [shown st1]. simpl.
    destruct shown; [done|]. by destruct (List.filter _ _).
  - left. destruct (getSelectedTemplateCategory st) as [selected|]; [|done].
    destruct (map _ (templates selected)); [done|].
    by destruct (List.filter _ _).
Qed.

Lemma renderTemplateList_store st :
  categories (renderTemplateList st).2 = categories st /\
  selectedCategoryId (renderTemplateList st).2 = selectedCategoryId st /\
  descendantCategoryIdsCache (renderTemplateList st).2 =
    descendantCategoryIdsCache st.
Proof.
  destruct (renderTemplateList_cases st) as [-> | ->]; [done|].
  by destruct (getAllTemplates_store st) as (cache & n & ->).
Qed.

Lemma Acyclic_weaken bound bound' cats :
  Acyclic bound cats -> (bound <= bound')%nat -> Acyclic bound' cats.
Proof.
  intros (rank & Hb & Hr) Hle. exists rank. split; [|done].
  intros x. specialize (Hb x). lia.
Qed.

Lemma subtree_mono cats extra k x :
  InSubtree cats k x -> InSubtree (cats ++ extra) k x.
Proof.
  induction 1 as [|cat Hin _ IH]; [constructor|].
  apply subtree_child; [|done]. apply elem_of_app. by left.
Qed.

(** A new leaf, whose identifier nothing refers to, adds at most itself to
    a subtree. *)
Lemma subtree_new_leaf cats new k x :
  (forall cat, cat ∈ cats -> parentKey cat ≠ cat_id new) ->
  parentKey new ≠ cat_id new ->
  InSubtree (cats ++ [new]) k x ->
  InSubtree cats k x \/ x = cat_id new.
Proof.
  intros Hfresh Hself. induction 1 as [|cat Hin Hsub IH]; [left; constructor|].
  apply elem_of_app in Hin as [Hin|Hin%list_elem_of_singleton].
  - destruct IH as [IH|IH]; [|by destruct (Hfresh cat Hin)].
    left. by apply subtree_child.
  - subst cat. by right.
Qed.

Lemma Covers_new_leaf cats new k l :
  templates new = [] ->
  (forall cat, cat ∈ cats -> parentKey cat ≠ cat_id new /\ cat_id cat ≠ cat_id new) ->
  parentKey new ≠ cat_id new ->
  Covers ownsNoTemplate cats k l ->
  Covers ownsNoTemplate (cats ++ [new]) k l.
Proof.
  intros Hempty Hfresh Hself (Hk & Hsound & Hcomplete). split_and!; [done| |].
  - intros x Hx. by apply subtree_mono, Hsound.
  - intros cat Hin Hsub Hnot.
    apply elem_of_app in Hin as [Hin|Hin%list_elem_of_singleton];
      [|by subst cat].
    apply subtree_new_leaf in Hsub as [Hsub|Heq]; [by apply Hcomplete| | |done].
    + by destruct (Hfresh cat Hin).
    + intros c Hc. by destruct (Hfresh c Hc).
Qed.

Lemma Acyclic_new_leaf bound cats new :
  Acyclic bound cats ->
  (forall cat, cat ∈ cats -> parentKey cat ≠ cat_id new /\ cat_id cat ≠ cat_id new) ->
  parentKey new ≠ cat_id new ->
  Acyclic (S bound) (cats ++ [new]).
Proof.
  intros (rank & Hb & Hr) Hfresh Hself.
  exists (fun x => if decide (x = cat_id new) then 0%nat else S (rank x)). split.
  - intros x. specialize (Hb x). destruct (decide _); lia.
  - intros cat [Hin|Hin%list_elem_of_singleton]%elem_of_app.
    + destruct (Hfresh cat Hin). specialize (Hr cat Hin).
      rewrite !decide_False by done. lia.
    + subst cat. rewrite decide_True by done. rewrite decide_False by done. lia.
Qed.

Lemma elem_of_usedNames x st :
  x ∈ usedNames st <->
  x = selectedCategoryId st \/
  (exists cat, cat ∈ categories st /\ (x = cat_id cat \/ x = parentKey cat)).
Proof.
  unfold usedNames. rewrite elem_of_cons, elem_of_app.
  rewrite !list_elem_of_In, !in_map_iff. setoid_rewrite <- list_elem_of_In.
  split.
  - intros [?|[(cat & ? & ?)|(cat & ? & ?)]]; [by left|right; exists cat; auto..].
  - intros [?|(cat & ? & [?|?])]; [by left|right; left|right; right];
      by exists cat.
Qed.

(** One creation keeps the forest acyclic and the cache covering, and uses
    no other new name than the generated identifier. *)
Lemma create_step fuel bound name confirm n st :
  Acyclic bound (categories st) ->
  map_Forall (Covers ownsNoTemplate (categories st)) (descendantCategoryIdsCache st) ->
  n ≠ "" -> n ∉ usedNames st -> (S bound < fuel)%nat ->
  exists st',
    handleCreateTemplateCategory fuel name confirm n st = Some st' /\
    Acyclic (S bound) (categories st') /\
    map_Forall (Covers ownsNoTemplate (categories st'))
               (descendantCategoryIdsCache st') /\
    (forall x, x ∈ usedNames st' -> x = n \/ x = "" \/ x ∈ usedNames st).
Proof.
  intros Hacyc Hcov Hn Hfresh Hfuel.
  assert (Hsame : Acyclic (S bound) (categories st) /\
                  map_Forall (Covers ownsNoTemplate (categories st))
                             (descendantCategoryIdsCache st) /\
                  (forall x, x ∈ usedNames st -> x = n \/ x = "" \/ x ∈ usedNames st)).
  { split_and!; [eapply Acyclic_weaken; [done|lia]|done|auto]. }
  unfold handleCreateTemplateCategory.
  destruct (negb (Js.truthy name)); [by exists st|].
  destruct (decide (Js.trim (Js.orEmpty name) = "")); [by exists st|].
  destruct (existsb _ _ && negb confirm); [by exists st|].
  set (parent := if bool_decide (selectedCategoryId st ≠ "") &&
                    bool_decide (selectedCategoryId st ≠ ALL_CATEGORY_ID)
                 then Some (selectedCategoryId st) else None).
  destruct (6 <=? getTemplateCategoryDepth (categories st) parent)%nat;
    [by exists st|].
  clear Hsame.
  set (new := mkCategory n (Js.trim (Js.orEmpty name)) [] parent).
  set (cats' := categories st ++ [new]).
  assert (Hparent : parentKey new = selectedCategoryId st \/ parentKey new = "").
  { subst new parent. unfold parentKey. simpl.
    destruct (_ && _); simpl; auto. }
  assert (Hnew : forall cat, cat ∈ categories st ->
                   parentKey cat ≠ cat_id new /\ cat_id cat ≠ cat_id new).
  { intros cat Hin. simpl. split; intros Heq; apply Hfresh, elem_of_usedNames;
      right; exists cat; split; auto. }
  assert (Hself : parentKey new ≠ cat_id new).
  { simpl. destruct Hparent as [-> | ->]; [|done].
    intros Heq. apply Hfresh, elem_of_usedNames. by left. }
  destruct (Acyclic_new_leaf _ _ new Hacyc Hnew Hself) as (rank & Hb & Hr).
  simpl.
  destruct (renderTemplateCategoryOptions_total cats' rank Hr
              (Covers ownsNoTemplate cats') (Covers_node _ _) (S bound) Hb fuel
              (selectTemplateCategory n (setCategories cats' st)))
    as (st3 & -> & Hc3 & Hcov3 & Hsel3); [done|done| |].
  { simpl. intros k l Hkl. apply Covers_new_leaf; [done..|]. by apply Hcov. }
  simpl. destruct (renderTemplateList_store st3) as (Hc4 & Hs4 & Hd4).
  eexists. split; [done|]. rewrite Hc4, Hd4, Hc3. split_and!; [by exists rank|done|].
  intros x. rewrite !elem_of_usedNames, Hs4, Hc4, Hc3, Hsel3.
  assert (Hsel : match cats' with
                 | [] => ALL_CATEGORY_ID
                 | _ :: _ =>
                     Js.or (selectedCategoryId
                              (selectTemplateCategory n (setCategories cats' st)))
                           ALL_CATEGORY_ID
                 end = n).
  { subst cats'. destruct (categories st); simpl; unfold Js.or;
      rewrite (decide_False (P := n = "")) by done; by rewrite decide_False. }
  rewrite Hsel. intros [->|(cat & Hin & Hx)]; [by left|].
  apply elem_of_app in Hin as [Hin|Hin%list_elem_of_singleton].
  - right; right; right. by exists cat.
  - subst cat. destruct Hx as [->| ->]; [by left|].
    destruct Hparent as [-> | ->]; auto.
Qed.

(** A click on a row keeps the categories and what holds of the cache, and
    selects the row or the "all" entry. *)
Lemma click_step fuel bound p st :
  Acyclic bound (categories st) ->
  map_Forall (Covers ownsNoTemplate (categories st)) (descendantCategoryIdsCache st) ->
  (bound < fuel)%nat ->
  exists st',
    onTreeItemClick fuel p st = Some st' /\
    categories st' = categories st /\
    map_Forall (Covers ownsNoTemplate (categories st'))
               (descendantCategoryIdsCache st') /\
    (selectedCategoryId st' = p \/ selectedCategoryId st' = ALL_CATEGORY_ID).
Proof.
  intros (rank & Hb & Hr) Hcov Hfuel. unfold onTreeItemClick.
  destruct (renderTemplateCategoryOptions_total (categories st) rank Hr
              (Covers ownsNoTemplate (categories st)) (Covers_node _ _) bound Hb fuel
              (selectTemplateCategory p st))
    as (st3 & -> & Hc3 & Hcov3 & Hsel3); [done..|].
  simpl. destruct (renderTemplateList_store st3) as (Hc4 & Hs4 & Hd4).
  eexists. split; [done|]. rewrite Hc4, Hd4, Hs4, Hc3, Hsel3.
  split_and!; [done..|].
  destruct (categories st); [by right|]. simpl. unfold Js.or.
  destruct (decide (p = "")); [by right|]. rewrite decide_False by done. by left.
Qed.

Lemma createCategories_invariant calls :
  forall fuel bound used st,
    Acyclic bound (categories st) ->
    map_Forall (Covers ownsNoTemplate (categories st))
               (descendantCategoryIdsCache st) ->
    "" ∈ used -> ALL_CATEGORY_ID ∈ used ->
    (forall x, x ∈ usedNames st -> x ∈ used) ->
    FreshFrom used calls ->
    (bound + length calls < fuel)%nat ->
    exists st',
      createCategories fuel calls st = Some st' /\
      Acyclic (bound + length calls) (categories st') /\
      map_Forall (Covers ownsNoTemplate (categories st'))
                 (descendantCategoryIdsCache st').
Proof.
  induction calls as [|c calls IH];
    intros fuel bound used st Hacyc Hcov Hempty Hall Hused Hfresh Hfuel.
  - exists st. simpl. rewrite Nat.add_0_r. by split_and!.
  - simpl in *. destruct Hfresh as [Hnew Hfresh].
    set (used' := match call_parent c with Some p => p :: used | None => used end)
      in *.
    assert (Hsub : forall x, x ∈ used -> x ∈ used').
    { intros x Hx. subst used'. destruct (call_parent c); [by right|done]. }
    assert (Hclick : exists st1,
               match call_parent c with
               | Some p => onTreeItemClick fuel p st
               | None => Some st
               end = Some st1 /\
               Acyclic bound (categories st1) /\
               map_Forall (Covers ownsNoTemplate (categories st1))
                          (descendantCategoryIdsCache st1) /\
               (forall x, x ∈ usedNames st1 -> x ∈ used')).
    { subst used'. destruct (call_parent c) as [p|]; [|by exists st].
      destruct (click_step fuel bound p st) as (st1 & Hrun & Hc1 & Hcov1 & Hsel);
        [done..|lia|].
      exists st1. rewrite Hc1 in Hcov1 |- *. split_and!; [done..|].
      intros x. rewrite !elem_of_usedNames, Hc1.
      intros [->|Hx].
      - destruct Hsel as [-> | ->]; [left|by right; apply Hall].
      - right. apply Hused, elem_of_usedNames. by right. }
    destruct Hclick as (st1 & Hrun1 & Hacyc1 & Hcov1 & Hused1).
    unfold createCategory. rewrite Hrun1. simpl.
    destruct (create_step fuel bound (call_name c) (call_confirm c)
                (call_newId c) st1) as (st2 & -> & Hacyc2 & Hcov2 & Hused2);
      [done..| | |lia|].
    { intros Heq. apply Hnew, Hsub. by rewrite Heq. }
    { intros Hin. by apply Hnew, Hused1. }
    simpl.
    destruct (IH fuel (S bound) (call_newId c :: used') st2)
      as (st' & -> & Hacyc' & Hcov'); [done..| | | |done|lia|].
    { right. by apply Hsub. }
    { right. by apply Hsub. }
    { intros x Hx. destruct (Hused2 x Hx) as [->|[->|Hold]];
        [left|right; by apply Hsub|right; by apply Hused1]. }
    exists st'. split_and!; [done| |done].
    by replace (bound + S (length calls))%nat with (S bound + length calls)%nat by lia.
Qed.

(** C3.  After any sequence of category creations, each under the parent
    chosen for it, started from a library whose parent references form a
    forest and whose cache is coherent, the count that
    [getCategoryTemplateCount] returns for any identifier is the sum of
    [templates.length] over exactly the categories of the subtree rooted at
    it.  (A creation beyond the depth limit is refused by the operation
    itself.) *)
Theorem template_count_is_subtree_sum fuel bound calls st :
  Acyclic bound (categories st) ->
  CacheCoherent st ->
  FreshIds calls st ->
  (bound + length calls < fuel)%nat ->
  exists st',
    createCategories fuel calls st = Some st' /\
    forall id, exists n st'',
      getCategoryTemplateCount fuel id st' = Some (n, st'') /\
      subtreeTemplateCount (categories st') id n.
Proof.
  intros Hacyc Hcoh Hfresh Hfuel.
  destruct (createCategories_invariant calls fuel bound
              ("" :: ALL_CATEGORY_ID :: usedNames st) st)
    as (st' & Hrun & (rank & Hb & Hr) & Hcov);
    [done| |by left|by right; left|by intros x Hx; right; right|done..|].
  { intros k l Hkl. specialize (Hcoh k l Hkl). split_and!.
    - apply Hcoh. constructor.
    - intros x. apply Hcoh.
    - intros cat _ Hsub Hnot. destruct Hnot. by apply Hcoh. }
  exists st'. split; [done|]. intros id.
  assert (Hid : (rank id < fuel)%nat) by (specialize (Hb id); lia).
  destruct (getCategoryTemplateCount_total (categories st') rank Hr
              (Covers ownsNoTemplate (categories st')) (Covers_node _ _)
              fuel id st' eq_refl Hid Hcov) as (l & cache' & Hcount & _ & Hl).
  destruct (getDescendantCategoryIds_total (categories st') rank Hr
              (Covers (fun _ => False) (categories st')) (Covers_node _ _)
              fuel id ∅ Hid (map_Forall_empty _))
    as (l0 & _ & _ & _ & Hl0).
  eexists _, _. split; [exact Hcount|].
  exists (list_to_set l0). split.
  - intros x. rewrite elem_of_list_to_set. by apply Covers_exact.
  - rewrite <- countIn_sum. apply countIn_covers with id; [done|].
    intros x. rewrite elem_of_list_to_set. by apply Covers_exact.
Qed.

Lemma sampleStore_acyclic : Acyclic 2 (categories sampleStore).
Proof.
  exists sampleRank. split.
  - intros x. unfold sampleRank. repeat destruct (decide _); lia.
  - intros cat Hin. simpl in Hin.
    apply elem_of_cons in Hin as [->|Hin]; [vm_compute; lia|].
    apply list_elem_of_singleton in Hin as ->. vm_compute; lia.
Qed.

Lemma sampleCalls_fresh : FreshIds sampleCalls sampleStore.
Proof.
  unfold FreshIds, sampleCalls. simpl.
  split_and!; [by apply (bool_decide_unpack _)..|done].
Qed.

Lemma template_count_is_subtree_sum_witness :
  exists st',
    createCategories 5 sampleCalls sampleStore = Some st' /\
    forall id, exists n st'',
      getCategoryTemplateCount 5 id st' = Some (n, st'') /\
      subtreeTemplateCount (categories st') id n.
Proof.
  apply (template_count_is_subtree_sum 5 2 sampleCalls sampleStore).
  - exact sampleStore_acyclic.
  - intros k l Hkl. simpl in Hkl. by rewrite lookup_empty in Hkl.
  - exact sampleCalls_fresh.
  - simpl. lia.
Defined.

(** C1.  The cache is not cleared by a creation: once "A" and then "B"
    under "A" are created in a freshly started editor, the list returned for
    "A" is the one cached before "B" existed, although "B" lies in the
    subtree of "A". *)
Theorem descendant_cache_stale_after_creation :
  exists st0 st,
    startup 5 = Some st0 /\
    applyMutations 5
      [CreateCategory (Some "A") false "a"; CreateCategory (Some "B") false "b"]
      st0 = Some st /\
    fst <$> getDescendantCategoryIds 5 (categories st) "a"
              (descendantCategoryIdsCache st) = Some ["a"] /\
    InSubtree (categories st) "a" "b".
Proof.
  eexists _, _. split; [vm_compute; reflexivity|].
  split; [vm_compute; reflexivity|]. split; [vm_compute; reflexivity|].
  apply (subtree_child _ _ (mkCategory "b" "B" [] (Some "a"))).
  - right. left.
  - constructor.
Qed.

(** C4.  The deletion trusts the same cache: in the library above, once
    "A" is selected and deleted, its child "B" is still in the list. *)
Theorem category_deletion_misses_descendant :
  exists st0 st1 st2 st3,
    startup 5 = Some st0 /\
    applyMutations 5
      [CreateCategory (Some "A") false "a"; CreateCategory (Some "B") false "b"]
      st0 = Some st1 /\
    onTreeItemClick 5 "a" st1 = Some st2 /\
    onDeleteCurrentCategory 5 true st2 = Some st3 /\
    InSubtree (categories st2) "a" "b" /\
    map cat_id (categories st2) = ["a"; "b"] /\
    map cat_id (categories st3) = ["b"] /\
    selectedCategoryId st3 = ALL_CATEGORY_ID.
Proof.
  eexists _, _, _, _. split; [vm_compute; reflexivity|].
  split; [vm_compute; reflexivity|]. split; [vm_compute; reflexivity|].
  split; [vm_compute; reflexivity|]. split; [|by vm_compute].
  apply (subtree_child _ _ (mkCategory "b" "B" [] (Some "a"))).
  - right. left.
  - constructor.
Qed.

End TreeFacts.

(** ** Saving a template under a name that is taken *)

Module SaveFacts.
Import TemplateStore TreeFacts.

Lemma elem_of_updateCategory id f cats cat :
  cat ∈ updateCategory id f cats ->
  cat ∈ cats \/ exists c, c ∈ cats /\ cat_id c = id /\ cat = f c.
Proof.
  induction cats as [|c cats IH]; simpl; [by left|].
  destruct (decide (cat_id c = id)) as [Heq|Hne].
  - intros [->|Hin]%elem_of_cons.
    + right. exists c. split_and!; [left|done..].
    + left. by right.
  - intros [->|Hin]%elem_of_cons; [left; left|].
    destruct (IH Hin) as [?|(c' & ? & ? & ?)]; [left; by right|].
    right. exists c'. split_and!; [by right|done..].
Qed.

Lemma findCategory_updateCategory cats id f c :
  findCategory cats id = Some c -> cat_id (f c) = id ->
  findCategory (updateCategory id f cats) id = Some (f c).
Proof.
  unfold findCategory. intros Hfind Hid.
  induction cats as [|c0 cats IH]; simpl in *; [done|].
  destruct (decide (cat_id c0 = id)) as [Heq|Hne].
  - rewrite bool_decide_eq_true_2 in Hfind by done. injection Hfind as ->.
    simpl. by rewrite bool_decide_eq_true_2.
  - rewrite bool_decide_eq_false_2 in Hfind by done.
    simpl. rewrite bool_decide_eq_false_2 by done. by apply IH.
Qed.

Lemma Acyclic_updateCategory bound id ts cats :
  Acyclic bound cats -> Acyclic bound (updateCategory id (setTemplates ts) cats).
Proof.
  intros (rank & Hb & Hr). exists rank. split; [done|].
  intros cat [Hin|(c & Hin & _ & ->)]%elem_of_updateCategory; [by apply Hr|].
  by apply (Hr c).
Qed.

(** Every render made after a mutation returns when the parent references
    form a forest, whatever the caches hold. *)
Lemma renders_total fuel bound st :
  Acyclic bound (categories st) -> (bound < fuel)%nat ->
  exists st',
    (st3 ← renderTemplateCategoryOptions fuel st; Some (renderTemplateList st3).2)
      = Some st' /\
    categories st' = categories st.
Proof.
  intros (rank & Hb & Hr) Hfuel.
  destruct (renderTemplateCategoryOptions_total (categories st) rank Hr
              (fun _ _ => True) (fun _ _ _ => I) bound Hb fuel st)
    as (st3 & -> & Hc3 & _); [done..| |].
  { by intros k l _. }
  simpl. eexists. split; [done|].
  destruct (renderTemplateList_store st3) as (-> & _). done.
Qed.

(** C5.  When the trimmed name is that of a template of the selected
    category: without confirmation the call changes nothing; with
    confirmation (and a formula to save) the first template with that name
    is replaced where it stands by the new content under the same
    identifier, the templates with another identifier stay, and the
    category has as many templates as before. *)
Theorem save_template_with_taken_name
    fuel bound nameInput latex noteInput newId st category existing :
  getSelectedTemplateCategory st = Some category ->
  List.find (fun tpl => bool_decide (tpl_name tpl = Js.trim nameInput))
            (templates category) = Some existing ->
  saveTemplateEntry fuel nameInput latex noteInput false newId st = Some st /\
  (Js.trim nameInput ≠ "" -> latex ≠ "" ->
   Acyclic bound (categories st) -> (bound < fuel)%nat ->
   exists st' category',
     saveTemplateEntry fuel nameInput latex noteInput true newId st = Some st' /\
     findCategory (categories st') (cat_id category) = Some category' /\
     length (templates category') = length (templates category) /\
     map tpl_id (templates category') = map tpl_id (templates category) /\
     (exists i,
        templates category !! i = Some existing /\
        templates category' !! i =
          Some (mkTemplate (tpl_id existing) (Js.trim nameInput) latex
                           (Some (Js.trim noteInput)))) /\
     (forall i t, templates category !! i = Some t ->
                  tpl_id t ≠ tpl_id existing ->
                  templates category' !! i = Some t)).
Proof.
  intros Hsel Hfind. split.
  - unfold saveTemplateEntry. rewrite Hsel.
    destruct (decide _); [done|]. destruct (decide _); [done|].
    by rewrite Hfind.
  - intros Hname Hlatex Hacyc Hfuel.
    unfold saveTemplateEntry. rewrite Hsel.
    rewrite decide_False by done. rewrite decide_False by done.
    rewrite Hfind. simpl.
    set (payload := mkTemplate (tpl_id existing) (Js.trim nameInput) latex
                               (Some (Js.trim noteInput))).
    set (replaced := map (fun tpl => if decide (tpl_id tpl = tpl_id existing)
                                     then payload else tpl) (templates category)).
    set (st1 := setCategories
                  (updateCategory (cat_id category) (setTemplates replaced)
                     (categories st)) st).
    destruct (renders_total fuel bound st1) as (st' & -> & Hcats);
      [by apply Acyclic_updateCategory|done|].
    exists st', (setTemplates replaced category). split; [done|].
    assert (Hfc : findCategory (categories st) (cat_id category) = Some category).
    { unfold getSelectedTemplateCategory in Hsel.
      destruct (decide _); [done|].
      by rewrite (proj2 (findCategory_Some _ _ _ Hsel)). }
    split_and!.
    + rewrite Hcats. by apply findCategory_updateCategory.
    + simpl. subst replaced. by rewrite length_map.
    + simpl. subst replaced. rewrite map_map. apply map_ext_in.
      intros t _. by destruct (decide _).
    + apply find_some in Hfind as [Hin _].
      apply list_elem_of_In, list_elem_of_lookup in Hin as [i Hi].
      exists i. split; [done|]. simpl. subst replaced.
      change (map ?f ?l) with (f <$> l). rewrite list_lookup_fmap, Hi. simpl.
      by rewrite decide_True.
    + intros i t Hi Hne. simpl. subst replaced.
      change (map ?f ?l) with (f <$> l). rewrite list_lookup_fmap, Hi. simpl.
      by rewrite decide_False.
Qed.

Lemma save_template_with_taken_name_witness :
  saveTemplateEntry 5 " Line " "y=2x" "" false "new" sampleStore = Some sampleStore /\
  exists st' category',
    saveTemplateEntry 5 " Line " "y=2x" "" true "new" sampleStore = Some st' /\
    findCategory (categories st') "lin" = Some category' /\
    length (templates category') = 1%nat.
Proof.
  destruct (save_template_with_taken_name 5 2 " Line " "y=2x" "" "new" sampleStore
              (mkCategory "lin" "Linear" [mkTemplate "t2" "Line" "y=kx" (Some "slope")]
                 (Some "alg"))
              (mkTemplate "t2" "Line" "y=kx" (Some "slope")) eq_refl eq_refl)
    as [Hnoop Hconfirm].
  split; [exact Hnoop|].
  destruct Hconfirm as (st' & category' & Hsave & Hfind & Hlen & _);
    [done|done|exact sampleStore_acyclic|lia|].
  exists st', category'. by split_and!.
Defined.

End SaveFacts.

(** ** What the removals do to the cache *)

Module RemovalFacts.
Import TemplateStore TreeFacts SaveFacts.

Lemma Acyclic_subset bound cats cats' :
  (forall cat, cat ∈ cats' -> cat ∈ cats) ->
  Acyclic bound cats -> Acyclic bound cats'.
Proof.
  intros Hsub (rank & Hb & Hr). exists rank. split; [done|].
  intros cat Hin. by apply Hr, Hsub.
Qed.

Lemma coherent_of_covers st :
  map_Forall (Covers (fun _ => False) (categories st))
             (descendantCategoryIdsCache st) ->
  CacheCoherent st.
Proof. intros Hc k l Hkl. by apply Covers_exact, (Hc k). Qed.

Lemma covers_of_coherent P st :
  CacheCoherent st ->
  map_Forall (Covers P (categories st)) (descendantCategoryIdsCache st).
Proof.
  intros Hcoh k l Hkl. specialize (Hcoh k l Hkl). split_and!.
  - apply Hcoh. constructor.
  - intros x. apply Hcoh.
  - intros cat _ Hsub Hnot. destruct Hnot. by apply Hcoh.
Qed.

(** The renders that follow a mutation fill an emptied cache with
    subtrees of the categories as they are then. *)
Lemma renders_from_empty_cache fuel bound st :
  Acyclic bound (categories st) -> (bound < fuel)%nat ->
  descendantCategoryIdsCache st = ∅ ->
  exists st',
    (st3 ← renderTemplateCategoryOptions fuel st; Some (renderTemplateList st3).2)
      = Some st' /\
    categories st' = categories st /\ CacheCoherent st'.
Proof.
  intros (rank & Hb & Hr) Hfuel Hempty.
  destruct (renderTemplateCategoryOptions_total (categories st) rank Hr
              (Covers (fun _ => False) (categories st)) (Covers_node _ _)
              bound Hb fuel st) as (st3 & -> & Hc3 & Hcov & _); [done..| |].
  { rewrite Hempty. apply map_Forall_empty. }
  simpl. destruct (renderTemplateList_store st3) as (Hc4 & _ & Hd4).
  eexists. split; [done|]. split; [by rewrite Hc4|].
  apply coherent_of_covers. by rewrite Hc4, Hd4, Hc3.
Qed.

(** [removeTemplateCategory] returns, and when it takes effect the cache it
    leaves is coherent with the remaining categories. *)
Lemma removeTemplateCategory_clears fuel bound id confirmed st :
  Acyclic bound (categories st) -> (bound < fuel)%nat ->
  exists st',
    removeTemplateCategory fuel id confirmed st = Some st' /\
    (st' = st \/ CacheCoherent st').
Proof.
  intros Hacyc Hfuel. unfold removeTemplateCategory.
  destruct (decide (id = ALL_CATEGORY_ID)); [by eexists; split; [|left]|].
  destruct (findCategory (categories st) id); [|by eexists; split; [|left]].
  destruct confirmed; simpl; [|by eexists; split; [|left]].
  destruct Hacyc as (rank & Hb & Hr).
  destruct (getDescendantCategoryIds_total (categories st) rank Hr
              (fun _ _ => True) (fun _ _ _ => I) fuel id
              (descendantCategoryIdsCache st)) as (ids & cache' & -> & _);
    [specialize (Hb id); lia|by intros ? ? ?|].
  simpl.
  match goal with
  | |- context [renderTemplateCategoryOptions fuel ?st0] =>
      destruct (renders_from_empty_cache fuel bound st0) as (st' & -> & _ & Hcoh)
  end; [|done|by destruct (decide _)|by eexists; split; [|right]].
  apply Acyclic_subset with (categories st); [|by exists rank].
  intros cat Hin.
  assert (Hin' : cat ∈ filter (fun c => cat_id c ∉ (list_to_set ids : gset string))
                          (categories st)) by (by destruct (decide _)).
  by apply list_elem_of_filter in Hin' as [_ ?].
Qed.

(** [removeTemplateEntry] likewise. *)
Lemma removeTemplateEntry_clears fuel bound categoryId templateId confirmed st :
  Acyclic bound (categories st) -> (bound < fuel)%nat ->
  exists st',
    removeTemplateEntry fuel categoryId templateId confirmed st = Some st' /\
    (st' = st \/ CacheCoherent st').
Proof.
  intros Hacyc Hfuel. unfold removeTemplateEntry.
  destruct (findCategory (categories st) categoryId) as [category|];
    [|by eexists; split; [|left]].
  destruct (List.find _ (templates category)); [|by eexists; split; [|left]].
  destruct confirmed; simpl; [|by eexists; split; [|left]].
  match goal with
  | |- context [renderTemplateCategoryOptions fuel ?st0] =>
      destruct (renders_from_empty_cache fuel bound st0) as (st' & -> & _ & Hcoh)
  end; [by apply Acyclic_updateCategory|done..|by eexists; split; [|right]].
Qed.

(** With a coherent cache a confirmed deletion of an existing category
    removes exactly the categories of its subtree. *)
Lemma removeTemplateCategory_exact fuel bound id c st :
  Acyclic bound (categories st) -> CacheCoherent st -> (bound < fuel)%nat ->
  id ≠ ALL_CATEGORY_ID -> findCategory (categories st) id = Some c ->
  exists st',
    removeTemplateCategory fuel id true st = Some st' /\
    forall cat,
      cat ∈ categories st' <->
      cat ∈ categories st /\ ~ InSubtree (categories st) id (cat_id cat).
Proof.
  intros Hacyc Hcoh Hfuel Hid Hfind. unfold removeTemplateCategory.
  rewrite decide_False by done. rewrite Hfind. simpl.
  pose proof Hacyc as (rank & Hb & Hr).
  destruct (getDescendantCategoryIds_total (categories st) rank Hr
              (Covers (fun _ => False) (categories st)) (Covers_node _ _) fuel id
              (descendantCategoryIdsCache st)) as (ids & cache' & -> & _ & Hids);
    [specialize (Hb id); lia|by apply covers_of_coherent|].
  simpl.
  set (st1 := setCategories
                (filter (fun cat => cat_id cat ∉ (list_to_set ids : gset string))
                        (categories st))
                (setDescendantCache cache' st)).
  set (st2 := if decide (selectedCategoryId st ∈ (list_to_set ids : gset string))
              then setSelected ALL_CATEGORY_ID st1 else st1).
  assert (Hc2 : categories st2 =
                filter (fun cat => cat_id cat ∉ (list_to_set ids : gset string))
                       (categories st))
    by (subst st2; by destruct (decide _)).
  clearbody st2.
  destruct (renders_total fuel bound (setDescendantCache ∅ st2))
    as (st' & -> & Hcats); [|done|].
  { apply Acyclic_subset with (categories st); [|done].
    intros cat Hin. simpl in Hin. rewrite Hc2 in Hin.
    by apply list_elem_of_filter in Hin as [_ ?]. }
  eexists. split; [done|]. intros cat. rewrite Hcats. simpl. rewrite Hc2.
  rewrite list_elem_of_filter, not_elem_of_list_to_set.
  rewrite (Covers_exact _ _ _ Hids). tauto.
Qed.

End RemovalFacts.

(** ** A failed autosave write *)

Module AutosaveFacts.
Import Autosave.

Lemma tryWrite_throws content io st st1 message :
  tryWrite content io st = inr (st1, message) ->
  st1 = st \/ st1 = recordWrite content st.
Proof.
  unfold tryWrite.
  repeat match goal with
         | |- context [if ?b then _ else _] => destruct b
         | |- context [match ?x with _ => _ end] => destruct x
         end; intros [= <- <-] || intros [=]; auto.
Qed.

(** Without a binding nothing is written, no timer is set and the binding
    stays absent, whatever happens. *)
Lemma unbound_step extractFileName st ev :
  hasBoundFile st = false ->
  autosaveIntervalId st = None -> autosaveDebounceId st = None ->
  let st' := step extractFileName st ev in
  hasBoundFile st' = false /\
  autosaveIntervalId st' = None /\ autosaveDebounceId st' = None /\
  writeAttempts st' = writeAttempts st /\
  activeTimers st' = activeTimers st.
Proof.
  intros Hb Hi Hd. destruct ev; simpl.
  - unfold saveToBoundFile. rewrite Hb. by simpl.
  - unfold saveToBoundFile. rewrite Hb. by simpl.
  - unfold scheduleAutosave. rewrite Hb. by simpl.
  - unfold startAutoSave.
    assert (Hs : stopAutoSave st =
                 mkAutosave (boundFileHandle st) (boundFileName st)
                   (boundFileHandleType st) (boundFilePath st) (lastAutosaveAt st)
                   None None (activeTimers st) (nextTimer st) (statusText st)
                   (statusVariant st) (writeAttempts st)).
    { unfold stopAutoSave. by rewrite Hi, Hd. }
    rewrite Hs.
    assert (Hb' : hasBoundFile
                    (mkAutosave (boundFileHandle st) (boundFileName st)
                       (boundFileHandleType st) (boundFilePath st) (lastAutosaveAt st)
                       None None (activeTimers st) (nextTimer st) (statusText st)
                       (statusVariant st) (writeAttempts st)) = false) by exact Hb.
    rewrite Hb'. simpl. by split_and!.
Qed.

Lemma unbound_run extractFileName events :
  forall st,
    hasBoundFile st = false ->
    autosaveIntervalId st = None -> autosaveDebounceId st = None ->
    let st' := foldl (step extractFileName) st events in
    hasBoundFile st' = false /\
    writeAttempts st' = writeAttempts st /\
    activeTimers st' = activeTimers st.
Proof.
  induction events as [|ev events IH]; intros st Hb Hi Hd; simpl; [done|].
  destruct (unbound_step extractFileName st ev Hb Hi Hd)
    as (Hb' & Hi' & Hd' & Hw & Ha).
  destruct (IH _ Hb' Hi' Hd') as (? & Hw' & Ha').
  split_and!; [done|by rewrite Hw'|by rewrite Ha'].
Qed.

(** C7.  When the write of a bound autosave throws, the binding is dropped
    (handle, path, name and kind are cleared), the status shows the error
    message with the error variant, both timer variables are reset and the
    timers they referred to are cleared; from then on no timer callback, no
    edit and no restart of the loop attempts a write or sets a timer. *)
Theorem failed_write_unbinds
    extractFileName content now timeText io st message :
  failure content io st = Some message ->
  let st' := saveToBoundFile extractFileName content now timeText io st in
  boundFileHandle st' = None /\ boundFilePath st' = "" /\
  boundFileName st' = "" /\ boundFileHandleType st' = none /\
  statusText st' = "自动保存失败：" +:+ message /\ statusVariant st' = "error" /\
  autosaveIntervalId st' = None /\ autosaveDebounceId st' = None /\
  activeTimers st' = activeTimers st ∖ referencedTimers st /\
  forall events,
    let st'' := foldl (step extractFileName) st' events in
    hasBoundFile st'' = false /\
    writeAttempts st'' = writeAttempts st' /\
    activeTimers st'' = activeTimers st'.
Proof.
  unfold failure, saveToBoundFile. intros Hfail.
  destruct (hasBoundFile st); [|done]. simpl.
  destruct (tryWrite content io st) as [|[st1 m]] eqn:Htry; [done|].
  injection Hfail as <-.
  assert (Hst1 : autosaveIntervalId st1 = autosaveIntervalId st /\
                 autosaveDebounceId st1 = autosaveDebounceId st /\
                 activeTimers st1 = activeTimers st).
  { by destruct (tryWrite_throws _ _ _ _ _ Htry) as [-> | ->]. }
  destruct Hst1 as (Hi & Hd & Ha).
  split_and!; try done.
  - unfold unbindAutosaveFile, stopAutoSave, referencedTimers. simpl.
    rewrite Hi, Hd, Ha.
    destruct (autosaveIntervalId st), (autosaveDebounceId st); set_solver.
  - intros events. by apply unbound_run.
Qed.

Lemma failed_write_unbinds_witness :
  failure "[]" sampleFailure sampleBinding = Some "disk full" /\
  let st' := saveToBoundFile id "[]" 0 "12:00:00" sampleFailure sampleBinding in
  hasBoundFile st' = false /\
  statusText st' = "自动保存失败：disk full" /\
  activeTimers st' = ∅ /\
  writeAttempts
    (foldl (step id) st'
       [IntervalFires "[]" 1 "12:01:00" sampleFailure; EditSchedules; LoopStarts]) =
  ["[]"].
Proof.
  split; [reflexivity|].
  destruct (failed_write_unbinds id "[]" 0 "12:00:00" sampleFailure sampleBinding
              "disk full" eq_refl)
    as (_ & _ & _ & _ & Htext & _ & _ & _ & Hactive & Hlater).
  destruct (Hlater [IntervalFires "[]" 1 "12:01:00" sampleFailure;
                    EditSchedules; LoopStarts]) as (_ & Hwrites & _).
  split_and!; [reflexivity|exact Htext| |by rewrite Hwrites].
  rewrite Hactive. apply set_eq. intros x. vm_compute referencedTimers.
  set_solver.
Defined.

End AutosaveFacts.

(** ** The window of the virtual list *)

Module VirtualListFacts.
Import VirtualList.

Section WithItems.
Context {T E : Type}.
Implicit Types vl : VirtualList T E.

Lemma dom_renderAt vl (m : gmap string (Element E)) i :
  dom (renderAt vl m i) =
  dom m ∪ list_to_set (option_list (item_id <$> at_ (items vl) i)).
Proof.
  unfold renderAt. destruct (at_ (items vl) i) as [item|]; simpl.
  - destruct (m !! item_id item); rewrite dom_insert_L; set_solver.
  - set_solver.
Qed.

Lemma dom_render_loop vl (indices : list Z) :
  forall m : gmap string (Element E),
    dom (foldl (renderAt vl) m indices) =
    dom m ∪ list_to_set (omap (fun i => item_id <$> at_ (items vl) i) indices).
Proof.
  induction indices as [|i indices IH]; intros m; simpl.
  - set_solver.
  - rewrite IH, dom_renderAt.
    destruct (at_ (items vl) i) as [item|]; simpl; set_solver.
Qed.

(** The indices that the loop visits read the items of the window. *)
Lemma loop_reads_window {A B} (f : A -> B) (l : list A) (n : nat) :
  forall s e : Z,
    Z.to_nat (e - s) = n -> (0 <= s)%Z -> (e <= Z.of_nat (length l))%Z ->
    omap (fun i => f <$> at_ l i) (seqZ s (e - s)) = map f (window s e l).
Proof.
  induction n as [|n IH]; intros s e Hn Hs He.
  - rewrite seqZ_nil by lia. unfold window. by rewrite Hn.
  - rewrite seqZ_cons by lia. simpl.
    assert (Hlook : is_Some (l !! Z.to_nat s)) by (apply lookup_lt_is_Some; lia).
    destruct Hlook as [x Hx].
    unfold at_ at 1. destruct (s <? 0)%Z eqn:Hneg; [lia|]. rewrite Hx. simpl.
    replace (Z.pred (e - s)) with (e - Z.succ s)%Z by lia.
    change (list_omap Z B ?g ?k) with (omap g k).
    rewrite (IH (Z.succ s) e) by lia.
    unfold window. rewrite Hn.
    rewrite (drop_S _ _ _ Hx). simpl.
    replace (Z.to_nat (e - Z.succ s)) with n by lia.
    by replace (Z.to_nat (Z.succ s)) with (S (Z.to_nat s)) by lia.
Qed.

Lemma slice_window {A} (l : list A) (s e : Z) :
  (0 <= s)%Z -> (0 <= e)%Z -> (e <= Z.of_nat (length l))%Z ->
  slice s e l = window s e l.
Proof.
  intros Hs He Hlen. unfold slice, window.
  destruct (s <? 0)%Z eqn:H1; [lia|]. destruct (e <? 0)%Z eqn:H2; [lia|].
  rewrite (Z.min_l e) by lia.
  destruct (decide (s <= Z.of_nat (length l))%Z).
  - by rewrite Z.min_l by lia.
  - rewrite Z.min_r by lia.
    replace (Z.to_nat (e - Z.of_nat (length l))) with 0%nat by lia.
    by replace (Z.to_nat (e - s)) with 0%nat by lia.
Qed.

Lemma length_window_le {A} (l : list A) (s e : Z) :
  (length (window s e l) <= Z.to_nat (e - s))%nat.
Proof. unfold window. rewrite length_take. lia. Qed.

Lemma size_list_to_set_le (l : list string) :
  (size (list_to_set l : gset string) <= length l)%nat.
Proof.
  induction l as [|x l IH]; simpl; [done|].
  destruct (decide (x ∈ (list_to_set l : gset string))).
  - replace ({[x]} ∪ list_to_set l) with (list_to_set l : gset string)
      by set_solver. lia.
  - rewrite size_union by set_solver. rewrite size_singleton. lia.
Qed.

Lemma Qfloor_nonneg (a b : Q) : 0 <= a -> 0 < b -> (0 <= Qfloor (a / b))%Z.
Proof.
  intros Ha Hb. change 0%Z with (Qfloor (inject_Z 0)). apply Qfloor_resp_le.
  apply Qle_shift_div_l; [done|]. by rewrite Qmult_0_l.
Qed.

Lemma Qceiling_nonneg (a b : Q) : 0 <= a -> 0 < b -> (0 <= Qceiling (a / b))%Z.
Proof.
  intros Ha Hb. change 0%Z with (Qceiling (inject_Z 0)). apply Qceiling_resp_le.
  apply Qle_shift_div_l; [done|]. by rewrite Qmult_0_l.
Qed.

(** A render pass leaves exactly the elements of the window, whatever was
    rendered before. *)
Lemma render_dom vl :
  (0 <= visibleStart vl)%Z ->
  (0 <= visibleEnd vl <= Z.of_nat (length (items vl)))%Z ->
  dom (renderedElements (render vl)) =
  list_to_set (map item_id (window (visibleStart vl) (visibleEnd vl) (items vl))).
Proof.
  intros Hs He. unfold render. simpl.
  rewrite dom_render_loop.
  rewrite (loop_reads_window item_id (items vl)
             (Z.to_nat (visibleEnd vl - visibleStart vl))) by (done || lia).
  rewrite slice_window by lia.
  apply set_eq. intros x. rewrite elem_of_union. split; [|by right].
  intros [Hx|Hx]; [|done].
  apply elem_of_dom in Hx as [el Hx].
  by apply map_lookup_filter_Some in Hx as [_ Hx].
Qed.


End WithItems.


End VirtualListFacts.

(** ** Normalisation of an imported template library *)

Module ImportFacts.
Import TemplateStore TemplateImport.

Lemma normalizeTemplate_spec ids idx tpl n :
  match (normalizeTemplate ids idx tpl n).1 with
  | Some t => validLatex tpl = Some (tpl_latex t) /\
              tpl_latex t ≠ "" /\ tpl_name t ≠ ""
  | None => validLatex tpl = None
  end.
Proof.
  unfold normalizeTemplate, validLatex.
  destruct (Js.asString (Js.field "latex" tpl)) as [s|]; simpl; [|done].
  destruct (decide (Js.trim s = "")) as [He|Hne]; simpl; [done|].
  destruct (match Js.asString (Js.field "id" tpl) with
            | Some s0 => if decide (s0 = "") then (ids n, S n) else (s0, n)
            | None => (ids n, S n)
            end) as [id n1]. simpl.
  split_and!; [done..|].
  destruct (Js.asString (Js.field "name" tpl)) as [nm|]; [|done].
  by destruct (decide (Js.trim nm = "")).
Qed.

Lemma normalizeTemplates_spec ids tpls :
  forall idx n,
    Forall (fun t => tpl_latex t ≠ "" /\ tpl_name t ≠ "")
           (normalizeTemplates ids idx tpls n).1 /\
    map tpl_latex (normalizeTemplates ids idx tpls n).1 = omap validLatex tpls.
Proof.
  induction tpls as [|tpl tpls IH]; intros idx n; simpl; [by split|].
  pose proof (normalizeTemplate_spec ids idx tpl n) as Hone.
  destruct (normalizeTemplate ids idx tpl n) as [item n1]. simpl in Hone.
  specialize (IH (S idx) n1).
  destruct (normalizeTemplates ids (S idx) tpls n1) as [items n2].
  simpl in *. destruct IH as [IHF IHm].
  destruct item as [t|].
  - destruct Hone as (-> & ? & ?). simpl. split; [by constructor|by f_equal].
  - rewrite Hone. by split.
Qed.

Lemma normalizeCategory_spec ids idx source parent n :
  NormalOf ids idx source parent (normalizeCategory ids idx source parent n).1.
Proof.
  unfold normalizeCategory, NormalOf.
  pose proof (fun l => normalizeTemplates_spec ids l 0 n) as Ht.
  destruct (Js.asArray (Js.field "templates" source)) as [l|]; simpl.
  - specialize (Ht l).
    destruct (normalizeTemplates ids 0 l n) as [tpls n1]. simpl in Ht.
    destruct (Js.asString (Js.field "id" source)) as [s|];
      [destruct (decide (s = ""))|]; simpl; split_and!; eauto; apply Ht.
  - destruct (Js.asString (Js.field "id" source)) as [s|];
      [destruct (decide (s = ""))|]; simpl; split_and!; eauto.
Qed.

Section Each.
Context (ids : IdSource) (depth : nat) (parent : option string).
Context (descend : list Js.json -> option string ->
                   list TemplateCategory * nat -> list TemplateCategory * nat).
Hypothesis depth_le : (depth <= 6)%nat.
Hypothesis descend_spec :
  forall children p acc,
    exists out n',
      descend children p acc = (acc.1 ++ out, n') /\
      Flattens ids (S depth) p 0 children out.

Lemma eachCategory_spec items :
  forall idx acc,
    exists out n',
      eachCategory descend ids parent idx items acc = (acc.1 ++ out, n') /\
      Flattens ids depth parent idx items out.
Proof.
  induction items as [|source rest IH]; intros idx [acc n]; simpl.
  - exists [], n. rewrite app_nil_r. split; [done|apply flat_nil].
  - pose proof (normalizeCategory_spec ids idx source parent n) as Hc.
    destruct (normalizeCategory ids idx source parent n) as [c n1].
    simpl in Hc.
    destruct (childCategories source) as [children|] eqn:Hch.
    + destruct (descend_spec children (Some (cat_id c)) (acc ++ [c], n1))
        as (below & n2 & -> & Hbelow).
      destruct (IH (S idx) ((acc ++ [c], n1).1 ++ below, n2))
        as (after & n3 & -> & Hafter).
      exists (c :: below ++ after), n3. simpl. split.
      * by rewrite <- !app_assoc.
      * apply flat_node; [done..| |done]. by rewrite Hch.
    + destruct (IH (S idx) (acc ++ [c], n1)) as (after & n3 & -> & Hafter).
      exists (c :: [] ++ after), n3. simpl. split.
      * by rewrite <- !app_assoc.
      * apply (flat_node ids depth parent idx source rest c [] after);
          [done..| |done]. rewrite Hch. apply flat_nil.
Qed.

End Each.

Lemma normalizeFrom_spec ids levels :
  forall depth items parent acc,
    (8 <= levels + depth)%nat ->
    exists out n',
      normalizeFrom levels ids (Some items) parent depth acc = (acc.1 ++ out, n') /\
      Flattens ids depth parent 0 items out.
Proof.
  induction levels as [|levels IH]; intros depth items parent [acc n] Hl; simpl.
  - exists [], n. rewrite app_nil_r. split; [done|]. apply flat_deep. lia.
  - destruct (6 <? depth)%nat eqn:Hd.
    + exists [], n. rewrite app_nil_r. split; [done|].
      apply flat_deep. by apply Nat.ltb_lt.
    + apply Nat.ltb_ge in Hd. apply eachCategory_spec; [done|].
      intros children p acc'. apply IH. lia.
Qed.

Lemma Flattens_length ids depth parent idx items out :
  Flattens ids depth parent idx items out ->
  length out = nodesUpToLevel (7 - depth) items.
Proof.
  induction 1 as [depth parent idx items Hd|depth parent idx
                 |depth parent idx source rest c below after Hd Hc _ IHb _ IHa].
  - by replace (7 - depth)%nat with 0%nat by lia.
  - by destruct (7 - depth)%nat.
  - replace (7 - depth)%nat with (S (7 - S depth)) in * by lia.
    simpl in *. rewrite length_app, IHb, IHa. lia.
Qed.


(** A library nested seven levels deep loses its innermost level. *)
Example normalize_seven_levels :
  map (fun c => (cat_name c, parentId c))
      (normalizeTemplateCategories sampleIds (Some (Js.JArr (chain 7)))) =
  [("L7", None); ("L6", Some "id7"); ("L5", Some "id6"); ("L4", Some "id5");
   ("L3", Some "id4"); ("L2", Some "id3")].
Proof. vm_compute. reflexivity. Qed.

End ImportFacts.

(** ** Export and import of the formula collection *)

Module FormulaFacts.
Import TemplateStore TemplateImport Formulas.

Lemma sanitizeEntry_export ids idx f n :
  Sanitized f -> sanitizeEntry ids idx (formulaToJson f) n = (Some f, n).
Proof.
  destruct f as [id index latex note].
  intros (Htrim & Hne & note' & Hnote & Hnt). simpl in *. subst note.
  unfold sanitizeEntry, formulaToJson. simpl.
  rewrite Htrim. rewrite decide_False by done. simpl. by rewrite Hnt.
Qed.

Lemma sanitizeEntries_export ids fs :
  forall idx n,
    Forall Sanitized fs ->
    sanitizeEntries ids idx (map formulaToJson fs) n = fs.
Proof.
  induction fs as [|f fs IH]; intros idx n Hall; [done|].
  apply Forall_cons in Hall as [Hf Hfs]. simpl.
  rewrite sanitizeEntry_export by done. by rewrite IH.
Qed.

Lemma exportJson_Some st value :
  exportJson st = Some value ->
  value = Js.JArr (map formulaToJson (formulas st)) /\ formulas st ≠ [].
Proof.
  unfold exportJson. destruct (formulas st); [done|]. by intros [= <-].
Qed.



(** What the import stores is sanitized, so a collection that was
    imported is one that the round trip gives back. *)
Lemma sanitizeEntries_Sanitized ids items :
  forall idx n, Forall Sanitized (sanitizeEntries ids idx items n).
Proof.
  induction items as [|item items IH]; intros idx n; simpl; [constructor|].
  unfold sanitizeEntry.
  destruct (Js.asString (Js.field "latex" item)) as [raw|]; [|apply IH].
  destruct (decide (Js.trim raw = "")) as [|Hne]; [apply IH|].
  destruct (Js.asString (Js.field "id" item)); simpl;
    (constructor; [|apply IH]);
    (split_and!; simpl; [apply JsFacts.trim_idem|done|]);
    (eexists; split; [done|]);
    destruct (Js.asString (Js.field "note" item));
    (apply JsFacts.trim_idem || done).
Qed.

Lemma reimport_of_imported ids ids' items silent st0 st1 value :
  importJsonText Browser ids (Parsed (Js.JArr items)) silent st0 = (Imported false, st1) ->
  exportJson st1 = Some value ->
  formulas (importJsonText Browser ids' (Parsed value) silent st1).2 = formulas st1.
Proof.
  intros Himp Hexp.
  assert (Hall : Forall Sanitized (formulas st1)).
  { unfold importJsonText, applyImportedFormulas in Himp.
    injection Himp as _ <-. apply sanitizeEntries_Sanitized. }
  destruct (exportJson_Some _ _ Hexp) as [-> _].
  unfold importJsonText. by rewrite sanitizeEntries_export.
Qed.

Lemma sanitizeEntries_latex ids items :
  forall idx n,
    map f_latex (sanitizeEntries ids idx items n) = omap validLatex items.
Proof.
  induction items as [|item items IH]; intros idx n; [done|]. simpl.
  unfold sanitizeEntry, validLatex at 1.
  destruct (Js.asString (Js.field "latex" item)) as [raw|]; [|apply IH].
  destruct (decide (Js.trim raw = "")); [apply IH|].
  destruct (Js.asString (Js.field "id" item)); simpl; by rewrite IH.
Qed.

Lemma normalize_non_array ids value :
  Js.asArray (Some value) = None ->
  Js.asArray (Js.field "categories" value) = None ->
  normalizeTemplateCategories ids
    (match Js.asArray (Js.field "categories" value) with
     | Some l => Some (Js.JArr l)
     | None => Some value
     end) = [].
Proof.
  intros Hv Hc. rewrite Hc. unfold normalizeTemplateCategories. by rewrite Hv.
Qed.




End FormulaFacts.

(** ** The search of the template list *)

Module SearchFacts.
Import TemplateStore.

(** The list that the filter of [renderTemplateList] runs over. *)
Lemma renderTemplateList_shown st :
  categories st ≠ [] ->
  shownItems (renderTemplateList st).1 =
  List.filter
    (fun '(template, category) =>
       if decide (Js.toLowerCase (Js.trim (templateSearchTerm st)) = "") then true
       else Js.includes (haystack template category)
                        (Js.toLowerCase (Js.trim (templateSearchTerm st))))
    (if decide (Js.or (selectedCategoryId st) ALL_CATEGORY_ID = ALL_CATEGORY_ID)
     then (getAllTemplates st).1
     else match getSelectedTemplateCategory st with
          | Some selected => map (fun t => (t, selected)) (templates selected)
          | None => []
          end).
Proof.
  intros Hne. unfold renderTemplateList.
  destruct (categories st) as [|c0 cs]; [done|].
  destruct (decide (Js.or _ _ = _)).
  - destruct (getAllTemplates st) as [shown st1]. simpl.
    destruct shown as [|x shown]; [by destruct (decide _)|].
    by destruct (List.filter _ (x :: shown)) eqn:Hf.
  - destruct (getSelectedTemplateCategory st) as [selected|];
      [|by destruct (decide _)].
    destruct (map _ (templates selected)) as [|x shown];
      [by destruct (decide _)|].
    by destruct (List.filter _ (x :: shown)) eqn:Hf.
Qed.

Lemma matches_filter term t c :
  (if decide (Js.toLowerCase (Js.trim term) = "") then true
   else Js.includes (haystack t c) (Js.toLowerCase (Js.trim term))) = true <->
  matchesQuery term t c.
Proof.
  unfold matchesQuery. destruct (decide _) as [He|Hne]; [by intuition|].
  split; [by right|]. by intros [?|?].
Qed.




End SearchFacts.

(** ** File names *)

Module PathFacts.
Import Paths.

Lemma split_spec path :
  exists first others,
    split path = first :: others /\
    separatorFree first /\
    match others with
    | [] => path = first
    | _ :: _ =>
        exists dir tail,
          last others = Some tail /\ path = dir +:+ tail /\
          separatorFree tail /\ endsWithSeparator dir
    end.
Proof.
  induction path as [|c rest IH].
  - exists "", []. by simpl.
  - destruct IH as (first & others & Hsplit & Hfree & Hrest).
    simpl. rewrite Hsplit.
    destruct (isSeparator c) eqn:Hc.
    + exists "", (first :: others). split_and!; [done|done|].
      destruct others as [|o others'].
      * exists (String c ""), first. subst rest. split_and!; [done|done|done|].
        by exists "", c.
      * destruct Hrest as (dir & tail & Hlast & -> & Htail & d & c' & -> & Hc').
        exists (String c (d +:+ String c' "")), tail.
        split_and!; [done|done|done|]. by exists (String c d), c'.
    + exists (String c first), others. split_and!; [done|by simpl|].
      destruct others as [|o others'].
      * by subst rest.
      * destruct Hrest as (dir & tail & Hlast & -> & Htail & d & c' & -> & Hc').
        exists (String c (d +:+ String c' "")), tail.
        split_and!; [done|done|done|]. by exists (String c d), c'.
Qed.

Lemma append_empty_r s : s +:+ "" = s.
Proof.
  induction s as [|c s IH]; [done|].
  change (String c (s +:+ "") = String c s). by f_equal.
Qed.

Lemma extractFileName_empty path : extractFileName path = "" <-> path = "".
Proof.
  unfold extractFileName, Js.or. split.
  - destruct (decide (path = "")) as [|Hne]; [done|].
    by destruct (decide (default "" (last (split path)) = "")).
  - intros ->. by rewrite decide_True.
Qed.

(** X1: the name taken from a path is what follows its last separator; it
    is the whole path when nothing follows it, so that only the empty path
    gives the empty name. *)
Theorem extractFileName_after_last_separator path :
  (extractFileName path = "" <-> path = "") /\
  exists dir,
    path = dir +:+ extractFileName path /\
    ((separatorFree (extractFileName path) /\
      (dir = "" \/ endsWithSeparator dir)) \/
     (extractFileName path = path /\ endsWithSeparator path)).
Proof.
  split; [apply extractFileName_empty|].
  unfold extractFileName, Js.or.
  destruct (decide (path = "")) as [->|Hne].
  { exists "". split; [done|]. left. by split; [|left]. }
  destruct (split_spec path) as (first & others & Hsplit & Hfree & Hrest).
  rewrite Hsplit. destruct others as [|o others'].
  - subst first. simpl. rewrite decide_False by done.
    exists "". split; [done|]. left. by split; [|left].
  - destruct Hrest as (dir & tail & Hlast & Hpath & Htail & Hdir).
    change (last (first :: o :: others')) with (last (o :: others')).
    rewrite Hlast. simpl.
    destruct (decide (tail = "")) as [->|Htne].
    + exists "". split; [done|]. right. split; [done|].
      rewrite append_empty_r in Hpath. by subst dir.
    + exists dir. split; [done|]. left. split; [done|by right].
Qed.

(** X2: the label of the bound file is never empty: it is the recorded
    name, the name taken from the recorded path, or [formulas.json]. *)
Theorem bound_file_label_not_empty st :
  Autosave.getBoundFileLabel extractFileName st <> "".
Proof.
  unfold Autosave.getBoundFileLabel.
  destruct (decide (Autosave.boundFileName st ≠ "")) as [|_]; [done|].
  destruct (Autosave.boundFileHandleType st); try done;
    (destruct (decide (Autosave.boundFilePath st ≠ "")) as [Hp|_]; [|done];
     by rewrite extractFileName_empty).
Qed.

End PathFacts.

(** ** Caches and pools of the memory module *)

Module MemoryFacts.
Import MemoryOptimizer.

Lemma mapGet_Some k m v : mapGet k m = Some v -> (k, v) ∈ m.
Proof.
  unfold mapGet. destruct (List.find _ m) as [[k' v']|] eqn:Hfind; [|done].
  intros [= <-]. apply find_some in Hfind as [Hin Hk].
  apply bool_decide_eq_true in Hk. simpl in Hk. subst k'.
  by apply list_elem_of_In.
Qed.

Lemma mapGet_snoc k m : mapGet k (m ++ [(k, k)]) = Some k \/
                        exists v, mapGet k m = Some v.
Proof.
  unfold mapGet. induction m as [|[k' v'] m IH]; simpl.
  - left. by rewrite bool_decide_eq_true_2.
  - destruct (bool_decide (k' = k)); [right; by eexists|done].
Qed.

Lemma mapGet_filter_None k (P : string * string -> Prop)
    `{forall e, Decision (P e)} m :
  mapGet k m = None -> mapGet k (filter P m) = None.
Proof.
  unfold mapGet. induction m as [|e m IH]; simpl; [done|].
  destruct (bool_decide (e.1 = k)) eqn:He; [done|]. intros Hm.
  rewrite filter_cons. destruct (decide (P e)); [|by apply IH].
  simpl. rewrite He. by apply IH.
Qed.

Lemma length_deleteFirstKey m :
  m <> [] -> (S (length (deleteFirstKey m)) <= length m)%nat.
Proof.
  destruct m as [|[k v] m]; [done|]. intros _. simpl.
  rewrite filter_cons_False by (simpl; by intros ?).
  pose proof (length_filter (fun e : string * string => e.1 ≠ k) m). simpl. lia.
Qed.

Lemma intern_ok str c :
  (1 <= sc_maxSize c)%Z -> CacheOk c ->
  CacheOk (intern str c).2 /\ sc_maxSize (intern str c).2 = sc_maxSize c /\
  (intern str c).1 = str /\ mapGet str (sc_cache (intern str c).2) = Some str.
Proof.
  intros Hmax [Hid Hlen]. unfold intern.
  destruct (mapGet str (sc_cache c)) as [cached|] eqn:Hget; simpl.
  - pose proof (mapGet_Some _ _ _ Hget) as Hin.
    pose proof (proj1 (Forall_forall _ _) Hid _ Hin) as Heq. simpl in Heq.
    subst cached. by split_and!.
  - split_and!; [split; simpl|done|done|].
    + apply Forall_app. split; [|by constructor].
      destruct (_ <=? _)%Z; [|done].
      unfold deleteFirstKey. destruct (sc_cache c) as [|[k v] m]; [done|].
      apply Forall_forall. intros e [_ He]%list_elem_of_filter.
      by apply (proj1 (Forall_forall _ _) Hid).
    + rewrite length_app. simpl.
      destruct (Z.leb_spec (sc_maxSize c) (Z.of_nat (length (sc_cache c)))); [|lia].
      assert (sc_cache c <> []) as Hne.
      { intros Hnil. rewrite Hnil in *. simpl in *. lia. }
      pose proof (length_deleteFirstKey _ Hne). lia.
    + match goal with |- mapGet str (?kept ++ _) = _ =>
        destruct (mapGet_snoc str kept) as [|[v Hv]]; [done|exfalso] end.
      destruct (_ <=? _)%Z; [|congruence].
      unfold deleteFirstKey in Hv. destruct (sc_cache c) as [|[k v'] m]; [done|].
      by rewrite mapGet_filter_None in Hv.
Qed.

Lemma cacheCall_ok c call :
  (1 <= sc_maxSize c)%Z -> CacheOk c ->
  CacheOk (cacheCall c call) /\ sc_maxSize (cacheCall c call) = sc_maxSize c.
Proof.
  intros Hmax Hok. destruct call as [str|]; simpl.
  - by destruct (intern_ok str c Hmax Hok) as (? & ? & _).
  - split; [|done]. split; [by constructor|simpl; lia].
Qed.

Lemma cacheCalls_ok calls :
  forall c,
    (1 <= sc_maxSize c)%Z -> CacheOk c ->
    CacheOk (foldl cacheCall c calls) /\
    sc_maxSize (foldl cacheCall c calls) = sc_maxSize c.
Proof.
  induction calls as [|call calls IH]; intros c Hmax Hok; simpl; [done|].
  destruct (cacheCall_ok c call Hmax Hok) as [Hok' Hmax'].
  destruct (IH (cacheCall c call)) as [? ?]; [lia|done|].
  split; [done|congruence].
Qed.

(** X3: whatever is interned or cleared, a string cache created for at
    least one entry never holds more than [maxSize] entries, and [intern]
    answers the very string it was given, which is cached from then on. *)
Theorem string_cache_bounded_and_transparent maxSize calls str :
  (1 <= maxSize)%Z ->
  let c := foldl cacheCall (newStringCache (Some maxSize)) calls in
  (Z.of_nat (stringCacheSize c) <= maxSize)%Z /\
  (intern str c).1 = str /\
  mapGet str (sc_cache (intern str c).2) = Some str /\
  (Z.of_nat (stringCacheSize (intern str c).2) <= maxSize)%Z.
Proof.
  intros Hmax c.
  destruct (cacheCalls_ok calls (newStringCache (Some maxSize))) as [Hok Hm];
    [done|by split; [constructor|simpl; lia]|].
  fold c in Hok, Hm. simpl in Hm.
  destruct (intern_ok str c) as ([_ Hlen] & Hm' & Hret & Hget); [lia|done|].
  destruct Hok as [_ Hlen0]. unfold stringCacheSize.
  split_and!; [lia|done|done|lia].
Qed.

Lemma string_cache_bounded_and_transparent_witness :
  let c := foldl cacheCall (newStringCache (Some 2%Z))
             [Intern "a"; Intern "b"; Intern "c"] in
  (Z.of_nat (stringCacheSize c) <= 2)%Z /\
  (intern "a" c).1 = "a" /\
  mapGet "a" (sc_cache (intern "a" c).2) = Some "a" /\
  (Z.of_nat (stringCacheSize (intern "a" c).2) <= 2)%Z.
Proof.
  apply (string_cache_bounded_and_transparent 2
           [Intern "a"; Intern "b"; Intern "c"] "a"). lia.
Defined.

Section PoolFacts.
Context {E : Type} (blank : E) (clean : E -> E).

Lemma poolCall_bound (p : DOMElementPool E) call :
  (Z.of_nat (length (pool p)) <= pool_maxSize p)%Z ->
  (Z.of_nat (length (pool (poolCall blank clean p call))) <=
     pool_maxSize (poolCall blank clean p call))%Z /\
  pool_maxSize (poolCall blank clean p call) = pool_maxSize p.
Proof.
  intros Hle. destruct call as [|element]; simpl.
  - unfold acquire. destruct (last (pool p)) eqn:Hlast; simpl; [|done].
    split; [|done]. rewrite removelast_firstn_len, length_take. lia.
  - unfold release.
    destruct (Z.ltb_spec (Z.of_nat (length (pool p))) (pool_maxSize p));
      simpl; [|done].
    split; [|done]. rewrite length_app. simpl. lia.
Qed.

Lemma poolCalls_bound calls :
  forall p : DOMElementPool E,
    (Z.of_nat (length (pool p)) <= pool_maxSize p)%Z ->
    (Z.of_nat (length (pool (foldl (poolCall blank clean) p calls))) <=
       pool_maxSize p)%Z /\
    pool_maxSize (foldl (poolCall blank clean) p calls) = pool_maxSize p.
Proof.
  induction calls as [|call calls IH]; intros p Hle; simpl; [done|].
  destruct (poolCall_bound p call Hle) as [Hle' Hmax].
  destruct (IH _ Hle') as [? ?]. split; [lia|congruence].
Qed.

(** X4: a pool created with no more elements than its bound never exceeds
    the bound; an element released into a pool that has room is the next
    one acquired, cleaned, and a full pool drops what is released. *)
Theorem element_pool_bounded_and_lifo initialSize maxSize calls element :
  (Z.of_nat initialSize <= maxSize)%Z ->
  let p := foldl (poolCall blank clean) (newPool blank initialSize maxSize) calls in
  (Z.of_nat (length (pool p)) <= maxSize)%Z /\
  ((Z.of_nat (length (pool p)) < maxSize)%Z ->
   acquire blank (release clean element p) = (clean element, p)) /\
  (Z.of_nat (length (pool p)) = maxSize -> release clean element p = p).
Proof.
  intros Hinit p.
  destruct (poolCalls_bound calls (newPool blank initialSize maxSize)) as [Hle Hmax].
  { simpl. by rewrite length_replicate. }
  fold p in Hle, Hmax. simpl in Hle, Hmax.
  split_and!; [done| |].
  - intros Hlt. unfold release. rewrite Hmax.
    destruct (Z.ltb_spec (Z.of_nat (length (pool p))) maxSize); [|lia].
    unfold acquire. simpl. rewrite last_snoc, removelast_last.
    destruct p as [l m]. simpl in *. by subst m.
  - intros Heq. unfold release. rewrite Hmax.
    by destruct (Z.ltb_spec (Z.of_nat (length (pool p))) maxSize); [lia|].
Qed.

End PoolFacts.

Lemma element_pool_bounded_and_lifo_witness :
  let p := foldl (poolCall "" (fun _ => ""))
             (newPool "" 1 2) [Acquire; Release "card"] in
  (Z.of_nat (length (pool p)) <= 2)%Z /\
  ((Z.of_nat (length (pool p)) < 2)%Z ->
   acquire "" (release (fun _ => "") "x" p) = ("", p)) /\
  (Z.of_nat (length (pool p)) = 2%Z -> release (fun _ => "") "x" p = p).
Proof.
  apply (element_pool_bounded_and_lifo "" (fun _ => "") 1 2
           [Acquire; Release "card"] "x"). simpl. lia.
Defined.

Lemma filterLoop_spec {A} (predicate : A -> nat -> bool) rounds :
  forall r w (array : list A),
    (w <= r)%nat -> (r + rounds = length array)%nat ->
    take (filterLoop predicate rounds r w array).1
         (filterLoop predicate rounds r w array).2 =
    take w array ++ filterFrom predicate r (drop r array).
Proof.
  induction rounds as [|rounds IH]; intros r w array Hwr Hlen; simpl.
  - rewrite drop_ge by lia. simpl. by rewrite app_nil_r.
  - destruct (array !! r) as [x|] eqn:Hx.
    2:{ apply lookup_ge_None in Hx. lia. }
    rewrite (drop_S _ _ _ Hx). simpl.
    destruct (predicate x r).
    + assert ((if decide (w ≠ r) then <[w:=x]> array else array) = <[w:=x]> array)
        as ->.
      { destruct (decide (w ≠ r)) as [|Heq]; [done|].
        apply dec_stable in Heq. subst w. by rewrite list_insert_id. }
      rewrite IH by (rewrite ?length_insert; lia).
      rewrite drop_insert_lt by lia.
      assert (w < length array)%nat as Hw by lia.
      rewrite (take_S_r (<[w:=x]> array) w x)
        by (by rewrite list_lookup_insert_eq by done).
      rewrite take_insert_ge by lia. by rewrite <- app_assoc.
    + by rewrite IH by lia.
Qed.

(** X5: [filterInPlace] leaves in the array what [filter] would have
    answered: the elements that satisfy the predicate, in their order. *)
Theorem filterInPlace_is_filter {A} (predicate : A -> nat -> bool) (array : list A) :
  filterInPlace predicate array = filterFrom predicate 0 array.
Proof.
  unfold filterInPlace.
  pose proof (filterLoop_spec predicate (length array) 0 0 array) as H.
  destruct (filterLoop predicate (length array) 0 0 array) as [w array'].
  simpl in H. rewrite H by lia. by rewrite drop_0.
Qed.

End MemoryFacts.

(** ** Render timings *)

Module PerformanceFacts.
Import Performance.

(** X6: after any run of measurements the buffer of render times holds
    the latest sixty durations, oldest first. *)
Theorem render_times_keep_latest_sixty (durations : list Q) :
  foldl (fun times d => recordSample d times) [] durations =
  drop (length durations - maxSamples) durations.
Proof.
  induction durations as [|d durations IH] using rev_ind; [done|].
  rewrite foldl_app. simpl. rewrite IH. unfold recordSample.
  rewrite !length_app, length_drop. simpl. unfold maxSamples.
  destruct (Nat.ltb_spec 60 (length durations - (length durations - 60) + 1)).
  - assert (60 <= length durations)%nat by lia.
    rewrite <- (drop_app_le _ _ (length durations - 60)) by lia.
    replace (length durations + 1 - 60)%nat
      with (S (length durations - 60)) by lia.
    generalize (durations ++ [d]) (length durations - 60)%nat.
    intros l n. replace (S n) with (n + 1)%nat by lia.
    rewrite <- drop_drop. by destruct (drop n l).
  - assert (length durations < 60)%nat by lia.
    replace (length durations - 60)%nat with 0%nat by lia.
    replace (length durations + 1 - 60)%nat with 0%nat by lia. done.
Qed.

End PerformanceFacts.

(** ** The windowed list: placement, reuse and scrolling *)

Module WindowFacts.
Import VirtualList VirtualListFacts.

Section WithItems.
Context {T E : Type}.
Implicit Types vl : VirtualList T E.

(** With a sound geometry the recomputed range lies within the items. *)
Lemma updateVisibleRange_bounds vl :
  0 < itemHeight vl -> 0 <= scrollTop vl -> 0 <= clientHeight vl ->
  (0 <= bufferSize vl)%Z ->
  (0 <= visibleStart (updateVisibleRange vl))%Z /\
  (0 <= visibleEnd (updateVisibleRange vl) <= Z.of_nat (length (items vl)))%Z /\
  (visibleEnd (updateVisibleRange vl) - visibleStart (updateVisibleRange vl) <=
     Qceiling (clientHeight vl / itemHeight vl) + 2 * bufferSize vl)%Z.
Proof.
  intros Hh Hs Hv Hb.
  pose proof (Qfloor_nonneg _ _ Hs Hh). pose proof (Qceiling_nonneg _ _ Hv Hh).
  assert (visibleStart (updateVisibleRange vl) =
          Z.max 0 (Qfloor (scrollTop vl / itemHeight vl) - bufferSize vl))
    as -> by done.
  assert (visibleEnd (updateVisibleRange vl) =
          Z.min (Z.of_nat (length (items vl)))
            (Qfloor (scrollTop vl / itemHeight vl) +
             Qceiling (clientHeight vl / itemHeight vl) + bufferSize vl))
    as -> by done.
  lia.
Qed.

Lemma elem_of_window {A} (l : list A) (s e i : Z) x :
  at_ l i = Some x -> (0 <= s)%Z -> (s <= i < e)%Z -> x ∈ window s e l.
Proof.
  unfold at_, window. destruct (i <? 0)%Z eqn:Hi; [done|]. intros Hx Hs Hie.
  apply list_elem_of_lookup. exists (Z.to_nat (i - s)).
  rewrite lookup_take, lookup_drop.
  destruct (decide (Z.to_nat (i - s) < Z.to_nat (e - s))%nat); [|lia].
  by replace (Z.to_nat s + Z.to_nat (i - s))%nat with (Z.to_nat i) by lia.
Qed.

Lemma window_within {A} (l : list A) (s e : Z) x : x ∈ window s e l -> x ∈ l.
Proof.
  unfold window. intros [i Hi]%list_elem_of_lookup.
  rewrite lookup_take in Hi. destruct (decide _); [|done].
  rewrite lookup_drop in Hi. apply list_elem_of_lookup. eauto.
Qed.

Lemma at_unique vl i j item item' :
  NoDup (map item_id (items vl)) ->
  at_ (items vl) i = Some item -> at_ (items vl) j = Some item' ->
  item_id item = item_id item' -> i = j.
Proof.
  unfold at_. intros Hnd Hi Hj Hid.
  destruct (i <? 0)%Z eqn:Hi0; [done|]. destruct (j <? 0)%Z eqn:Hj0; [done|].
  assert (Z.to_nat i = Z.to_nat j); [|lia].
  apply (NoDup_lookup _ _ _ (item_id item) Hnd).
  - change (map item_id (items vl)) with (item_id <$> items vl).
    by rewrite list_lookup_fmap, Hi.
  - change (map item_id (items vl)) with (item_id <$> items vl).
    by rewrite list_lookup_fmap, Hj, Hid.
Qed.

Lemma renderAt_same vl (m : gmap string (Element E)) i item :
  at_ (items vl) i = Some item ->
  renderAt vl m i =
    <[item_id item :=
        place i (itemHeight vl) (renderItem vl item (m !! item_id item))]> m.
Proof.
  intros Hi. unfold renderAt. rewrite Hi.
  by destruct (m !! item_id item).
Qed.

Lemma renderAt_other vl (m : gmap string (Element E)) i j item :
  NoDup (map item_id (items vl)) ->
  at_ (items vl) i = Some item -> j <> i ->
  renderAt vl m j !! item_id item = m !! item_id item.
Proof.
  intros Hnd Hi Hji. unfold renderAt.
  destruct (at_ (items vl) j) as [item'|] eqn:Hj; [|done].
  assert (item_id item' <> item_id item) as Hne.
  { intros Heq. apply Hji. by eapply at_unique. }
  by destruct (m !! item_id item'); rewrite lookup_insert_ne.
Qed.

(** The loop of [render] over distinct indices: the key of an item is
    written at its own index and nowhere else. *)
Lemma render_loop_lookup vl indices :
  NoDup (map item_id (items vl)) -> NoDup indices ->
  forall (m : gmap string (Element E)) i item,
    at_ (items vl) i = Some item ->
    foldl (renderAt vl) m indices !! item_id item =
      if decide (i ∈ indices)
      then Some (place i (itemHeight vl) (renderItem vl item (m !! item_id item)))
      else m !! item_id item.
Proof.
  intros Hnd. induction indices as [|j indices IH]; intros Hidx m i item Hi; simpl.
  { destruct (decide (i ∈ [])) as [Hin|_]; [|done]. by apply elem_of_nil in Hin. }
  apply NoDup_cons in Hidx as [Hj Hidx].
  rewrite (IH Hidx _ i item Hi).
  destruct (decide (j = i)) as [->|Hji].
  - destruct (decide (i ∈ indices)) as [Hin|_]; [done|].
    destruct (decide (i ∈ i :: indices)) as [_|Hout].
    + by rewrite (renderAt_same _ _ _ _ Hi), lookup_insert_eq.
    + exfalso. apply Hout, list_elem_of_here.
  - rewrite (renderAt_other _ _ _ _ _ Hnd Hi Hji).
    destruct (decide (i ∈ indices)) as [Hin|Hin];
      destruct (decide (i ∈ j :: indices)) as [Hin'|Hin']; try done.
    + exfalso. by apply Hin', list_elem_of_further.
    + exfalso. apply elem_of_cons in Hin' as [?|?]; [by subst|done].
Qed.

(** X7: when the identifiers of the items are distinct, a recomputation of
    the range followed by a render pass gives every item of the window one
    element: the one that [renderItem] answers when handed the element
    rendered for that identifier before, if there was one, placed at its
    index times the item height. *)
Theorem refresh_places_each_item vl i item :
  0 < itemHeight vl -> 0 <= scrollTop vl -> 0 <= clientHeight vl ->
  (0 <= bufferSize vl)%Z ->
  NoDup (map item_id (items vl)) ->
  let vl' := render (updateVisibleRange vl) in
  at_ (items vl) i = Some item ->
  (visibleStart vl' <= i < visibleEnd vl')%Z ->
  renderedElements vl' !! item_id item =
    Some (place i (itemHeight vl)
            (renderItem vl item (renderedElements vl !! item_id item))).
Proof.
  intros Hh Hs Hv Hb Hnd vl' Hi Hrange.
  destruct (updateVisibleRange_bounds vl Hh Hs Hv Hb) as (Hs0 & He0 & _).
  assert (visibleStart vl' = visibleStart (updateVisibleRange vl) /\
          visibleEnd vl' = visibleEnd (updateVisibleRange vl))
    as [Hvs Hve] by done.
  rewrite Hvs, Hve in Hrange. subst vl'.
  set (vl0 := updateVisibleRange vl) in *.
  assert (items vl0 = items vl) as Hitems by done.
  assert (renderedElements vl0 = renderedElements vl) as Hold by done.
  assert (itemHeight vl0 = itemHeight vl) as Hheight by done.
  assert (renderItem vl0 = renderItem vl) as Hrender by done.
  clearbody vl0. rewrite <- Hitems in Hnd, Hi, He0.
  rewrite <- Hold, <- Hheight, <- Hrender.
  unfold render. simpl.
  rewrite (render_loop_lookup vl0 _ Hnd (NoDup_seqZ _ _) _ i item Hi).
  destruct (decide (i ∈ seqZ _ _)) as [_|Hout].
  2:{ exfalso. apply Hout, elem_of_seqZ. lia. }
  do 3 f_equal. rewrite map_lookup_filter.
  destruct (renderedElements vl0 !! item_id item) as [element|]; [|done].
  simpl. rewrite option_guard_True; [done|].
  simpl. apply elem_of_list_to_set. rewrite slice_window by lia.
  change (map item_id ?l) with (item_id <$> l).
  apply list_elem_of_fmap. exists item. split; [done|].
  by apply (elem_of_window _ _ _ i).
Qed.


(** After a recomputation of the range and a render pass every element
    belongs to an item of the list, and their number is bounded by the
    window. *)
Lemma refresh_dom_within vl :
  0 < itemHeight vl -> 0 <= scrollTop vl -> 0 <= clientHeight vl ->
  (0 <= bufferSize vl)%Z ->
  let vl' := render (updateVisibleRange vl) in
  (forall id, id ∈ dom (renderedElements vl') -> id ∈ map item_id (items vl)) /\
  (Z.of_nat (size (dom (renderedElements vl'))) <=
     Qceiling (clientHeight vl / itemHeight vl) + 2 * bufferSize vl)%Z.
Proof.
  intros Hh Hs Hv Hb vl'.
  destruct (updateVisibleRange_bounds vl Hh Hs Hv Hb) as (Hs0 & He0 & Hlen).
  subst vl'. rewrite render_dom by done.
  change (items (updateVisibleRange vl)) with (items vl) in *.
  split.
  - intros id. rewrite elem_of_list_to_set. change (map item_id ?k) with (item_id <$> k).
    rewrite !list_elem_of_fmap. intros (x & -> & Hx). exists x. split; [done|].
    by apply window_within in Hx.
  - pose proof (size_list_to_set_le
                  (map item_id
                     (window (visibleStart (updateVisibleRange vl))
                        (visibleEnd (updateVisibleRange vl)) (items vl)))) as Hsz.
    rewrite length_map in Hsz.
    pose proof (length_window_le (items vl) (visibleStart (updateVisibleRange vl))
                  (visibleEnd (updateVisibleRange vl))) as Hw.
    pose proof (Qceiling_nonneg _ _ Hv Hh). lia.
Qed.

(** X9: after [updateItems] every element belongs to an item of the new
    list, so nothing survives of items that left it, and nothing at all when
    the new list is empty. *)
Theorem updateItems_drops_stale_elements (l : list (VirtualListItem T)) vl :
  0 < itemHeight vl -> 0 <= scrollTop vl -> 0 <= clientHeight vl ->
  (0 <= bufferSize vl)%Z ->
  let vl' := updateItems l vl in
  items vl' = l /\
  (forall id, id ∈ dom (renderedElements vl') -> id ∈ map item_id l) /\
  (l = [] -> renderedElements vl' = ∅).
Proof.
  intros Hh Hs Hv Hb vl'.
  destruct (refresh_dom_within (setItems l vl) Hh Hs Hv Hb) as [Hsub _].
  split_and!; [done|done|].
  intros ->. apply dom_empty_iff_L. apply set_eq. intros id. split; [|set_solver].
  intros Hid%Hsub. simpl in Hid. by apply elem_of_nil in Hid.
Qed.

End WithItems.

Lemma sampleList_distinct : NoDup (map item_id (items sampleList)).
Proof. apply (bool_decide_unpack _). by vm_compute. Qed.

Lemma refresh_places_each_item_witness :
  renderedElements (render (updateVisibleRange sampleList)) !! "f3" =
    Some (mkElement "f3" (3 * 180) 3).
Proof.
  apply (refresh_places_each_item sampleList 3 (mkItem "f3" tt));
    [reflexivity|discriminate|discriminate|discriminate|
     apply sampleList_distinct|reflexivity|by vm_compute].
Defined.


Lemma updateItems_drops_stale_elements_witness :
  let none : list (VirtualListItem unit) := [] in
  let vl' := updateItems none (render (updateVisibleRange sampleList)) in
  items vl' = none /\
  (forall id, id ∈ dom (renderedElements vl') -> id ∈ map item_id none) /\
  (none = [] -> renderedElements vl' = ∅).
Proof.
  apply (updateItems_drops_stale_elements []
           (render (updateVisibleRange sampleList)));
    [reflexivity|discriminate..].
Defined.

End WindowFacts.

(** ** The template tree: storage, depth, toggles and the bound file *)

Module TemplateTreeFacts.
Import TemplateStore TemplateImport TemplateTree TreeFacts SaveFacts RemovalFacts.

Lemma normalizeTemplate_stored ids idx t n :
  StoredTemplate t -> normalizeTemplate ids idx (templateToJson t) n = (Some t, n).
Proof.
  destruct t as [id name latex note].
  intros (Hid & Hname & Hnamene & Hlatex & Hlatexne & note' & Hnote & Hnt).
  simpl in *. subst note. unfold normalizeTemplate, templateToJson. simpl.
  rewrite Hlatex, Hname, Hnt. by rewrite !decide_False by done.
Qed.

Lemma normalizeTemplates_stored ids ts :
  forall idx n,
    Forall StoredTemplate ts ->
    normalizeTemplates ids idx (map templateToJson ts) n = (ts, n).
Proof.
  induction ts as [|t ts IH]; intros idx n Hall; [done|].
  apply Forall_cons in Hall as [Ht Hts]. simpl.
  rewrite normalizeTemplate_stored by done. by rewrite IH.
Qed.

Lemma normalizeCategory_stored ids idx c n :
  StoredCategory c ->
  normalizeCategory ids idx (categoryToJson c) None n = (c, n) /\
  childCategories (categoryToJson c) = None.
Proof.
  destruct c as [id name ts parent].
  intros (Hid & Hname & Hnamene & Hparent & Hts). simpl in *.
  unfold normalizeCategory, childCategories, categoryToJson. simpl.
  rewrite normalizeTemplates_stored by done. rewrite Hname.
  rewrite decide_False by done. unfold Js.or. rewrite decide_False by done.
  destruct parent as [p|]; simpl; [|done].
  destruct (decide (p = "")) as [->|Hp]; [done|].
  by rewrite bool_decide_eq_true_2.
Qed.

Lemma eachCategory_stored descend ids cats :
  forall idx acc,
    Forall StoredCategory cats ->
    eachCategory descend ids None idx (map categoryToJson cats) acc =
      (acc.1 ++ cats, acc.2).
Proof.
  induction cats as [|c cats IH]; intros idx [out n] Hall; simpl.
  { by rewrite app_nil_r. }
  apply Forall_cons in Hall as [Hc Hcats].
  destruct (normalizeCategory_stored ids idx c n Hc) as [-> ->].
  rewrite IH by done. simpl. by rewrite <- app_assoc.
Qed.

Lemma normalize_stored ids cats :
  Forall StoredCategory cats ->
  normalizeTemplateCategories ids (Some (Js.JArr (map categoryToJson cats))) = cats.
Proof.
  intros Hall. unfold normalizeTemplateCategories. simpl.
  by rewrite eachCategory_stored.
Qed.

Lemma find_by_id cats id :
  match List.find (fun cat => bool_decide (cat_id cat = id)) cats with
  | Some cat => cat ∈ cats /\ cat_id cat = id
  | None => id ∉ map cat_id cats
  end.
Proof.
  induction cats as [|c cats IH]; simpl; [apply not_elem_of_nil|].
  destruct (bool_decide (cat_id c = id)) eqn:Hc.
  - apply bool_decide_eq_true in Hc. split; [apply list_elem_of_here|done].
  - apply bool_decide_eq_false in Hc.
    destruct (List.find _ cats).
    + destruct IH. split; [by apply list_elem_of_further|done].
    + by apply not_elem_of_cons.
Qed.

(** X10: a library whose categories and templates are as the program
    stores them comes back from local storage as it was saved: the same
    categories in the same order, and the same selection when it names one
    of them, else "All"; the search term is reset. *)
Theorem local_storage_round_trip ids st st0 :
  Forall StoredCategory (categories st) ->
  let st' :=
    loadTemplateLibraryFromLocalStorage ids (Some (Parsed (libraryToJson st))) st0 in
  categories st' = categories st /\
  selectedCategoryId st' =
    (if decide (selectedCategoryId st ∈ map cat_id (categories st))
     then selectedCategoryId st else ALL_CATEGORY_ID) /\
  templateSearchTerm st' = "".
Proof.
  intros Hall st'. subst st'. unfold loadTemplateLibraryFromLocalStorage.
  simpl. rewrite (normalize_stored ids _ Hall).
  split_and!; [done| |done]. simpl.
  pose proof (find_by_id (categories st) (selectedCategoryId st)) as Hfind.
  destruct (List.find _ (categories st)) as [cat|]; simpl.
  - destruct Hfind as [Hin Hid]. rewrite decide_True.
    2:{ rewrite <- Hid. change (map cat_id ?l) with (cat_id <$> l).
        apply list_elem_of_fmap. by exists cat. }
    unfold Js.or. rewrite Hid. rewrite decide_False; [done|].
    rewrite <- Hid.
    by destruct (proj1 (Forall_forall _ _) Hall cat Hin) as (? & _).
  - by rewrite decide_False.
Qed.

Lemma local_storage_round_trip_witness :
  let st' :=
    loadTemplateLibraryFromLocalStorage sampleIds
      (Some (Parsed (libraryToJson sampleStore))) initialStore in
  categories st' = categories sampleStore /\
  selectedCategoryId st' =
    (if decide (selectedCategoryId sampleStore ∈ map cat_id (categories sampleStore))
     then selectedCategoryId sampleStore else ALL_CATEGORY_ID) /\
  templateSearchTerm st' = "".
Proof.
  apply (local_storage_round_trip sampleIds sampleStore initialStore).
  repeat constructor; (done || by eexists).
Defined.

(** X11: a library as the program stores it, whose parent references form
    a forest, written by the export or by the save to the bound file and
    imported again, gives the same categories in the same order, under
    "All", with the status of a loaded library. *)
Theorem exported_library_imports_unchanged fuel bound ids st st0 :
  Forall StoredCategory (categories st) ->
  Acyclic bound (categories st) -> (bound < fuel)%nat ->
  exists st',
    importTemplateText fuel ids (Parsed (exportedLibrary st)) st0 =
      Some (TemplateImported
              (match categories st with
               | [] => StatusEmptyFile
               | _ :: _ => StatusLoaded (length (categories st))
               end), st') /\
    categories st' = categories st /\
    selectedCategoryId st' = ALL_CATEGORY_ID.
Proof.
  intros Hall (rank & Hb & Hr) Hfuel. unfold importTemplateText, exportedLibrary.
  simpl. rewrite (normalize_stored ids _ Hall).
  match goal with
  | |- context [renderTemplateCategoryOptions fuel ?st2] =>
      destruct (renderTemplateCategoryOptions_total (categories st) rank Hr
                  (fun _ _ => True) (fun _ _ _ => I) bound Hb fuel st2)
        as (st3 & -> & Hc3 & _ & Hs3); [done|done|by intros k l _|]
  end.
  simpl in Hs3. simpl.
  destruct (renderTemplateList_store st3) as (Hc4 & Hs4 & _).
  rewrite Hc4, Hc3.
  assert (selectedCategoryId (renderTemplateList st3).2 = ALL_CATEGORY_ID) as Hsel.
  { rewrite Hs4, Hs3. by destruct (categories st). }
  destruct (categories st) eqn:Hcats; eexists; (split; [reflexivity|]);
    rewrite ?Hc4, ?Hc3; split_and!; try done.
Qed.

Lemma exported_library_imports_unchanged_witness :
  exists st',
    importTemplateText 5 sampleIds (Parsed (exportedLibrary sampleStore))
      initialStore = Some (TemplateImported (StatusLoaded 2), st') /\
    categories st' = categories sampleStore /\
    selectedCategoryId st' = ALL_CATEGORY_ID.
Proof.
  apply (exported_library_imports_unchanged 5 2 sampleIds sampleStore initialStore).
  - repeat constructor; (done || by eexists).
  - exact sampleStore_acyclic.
  - lia.
Defined.

End TemplateTreeFacts.

(** ** The template tree: what a render keeps, depth, toggles, deletions *)

Module TemplateEditFacts.
Import TemplateStore TemplateImport TemplateTree TreeFacts SaveFacts RemovalFacts.

(** What [getAllTemplates] answers and remembers depends on the
    categories and on its own two variables only. *)
Lemma getAllTemplates_same st st' :
  categories st' = categories st ->
  allTemplatesCache st' = allTemplatesCache st ->
  lastCategoriesLength st' = lastCategoriesLength st ->
  (getAllTemplates st').1 = (getAllTemplates st).1 /\
  allTemplatesCache (getAllTemplates st').2 = allTemplatesCache (getAllTemplates st).2 /\
  lastCategoriesLength (getAllTemplates st').2 =
    lastCategoriesLength (getAllTemplates st).2.
Proof.
  intros Hc Ha Hl. unfold getAllTemplates. rewrite Ha, Hl, Hc.
  destruct (allTemplatesCache st) eqn:E; [destruct (decide _)|]; simpl; split_and!; try done. all: try congruence.
Qed.

Lemma getAllTemplates_fields st :
  categories (getAllTemplates st).2 = categories st /\
  selectedCategoryId (getAllTemplates st).2 = selectedCategoryId st /\
  templateSearchTerm (getAllTemplates st).2 = templateSearchTerm st /\
  descendantCategoryIdsCache (getAllTemplates st).2 = descendantCategoryIdsCache st /\
  templateTreeExpandedIds (getAllTemplates st).2 = templateTreeExpandedIds st /\
  hasInitializedTemplateTree (getAllTemplates st).2 = hasInitializedTemplateTree st /\
  suppressTemplateAutoExpandOnce (getAllTemplates st).2 =
    suppressTemplateAutoExpandOnce st.
Proof.
  unfold getAllTemplates.
  destruct (allTemplatesCache st); [destruct (decide _)|]; by simpl.
Qed.

(** What a render of the tree leaves alone: the search term, and the
    expanded rows when the tree has been initialised and the automatic
    expansion is suppressed; the list of all templates is refreshed as
    [getAllTemplates] refreshes it. *)
Lemma renderTemplateCategoryOptions_frame fuel bound st :
  Acyclic bound (categories st) -> (bound < fuel)%nat ->
  exists st',
    renderTemplateCategoryOptions fuel st = Some st' /\
    templateSearchTerm st' = templateSearchTerm st /\
    allTemplatesCache st' = allTemplatesCache (getAllTemplates st).2 /\
    lastCategoriesLength st' = lastCategoriesLength (getAllTemplates st).2 /\
    suppressTemplateAutoExpandOnce st' = false /\
    (hasInitializedTemplateTree st = true ->
     suppressTemplateAutoExpandOnce st = true ->
     templateTreeExpandedIds st' = templateTreeExpandedIds st) /\
    (suppressTemplateAutoExpandOnce st = false ->
     categories st <> [] -> selectedCategoryId st <> "" ->
     selectedCategoryId st <> ALL_CATEGORY_ID ->
     expandLoop fuel (categories st)
       (findCategory (categories st) (selectedCategoryId st))
       (templateTreeExpandedIds (initializeTemplateTreeExpandedState st) ∪
        {[ ALL_CATEGORY_ID ]}) = Some (templateTreeExpandedIds st')).
Proof.
  intros (rank & Hb & Hr) Hfuel. unfold renderTemplateCategoryOptions.
  set (Same := fun s : Store =>
         categories s = categories st /\
         templateSearchTerm s = templateSearchTerm st /\
         allTemplatesCache s = allTemplatesCache st /\
         lastCategoriesLength s = lastCategoriesLength st /\
         suppressTemplateAutoExpandOnce s = suppressTemplateAutoExpandOnce st /\
         (hasInitializedTemplateTree st = true ->
          templateTreeExpandedIds s = templateTreeExpandedIds st)).
  set (Plain := categories st <> [] /\ selectedCategoryId st <> "").
  set (st1 := match categories st with [] => setSelected "" st | _ :: _ => st end).
  assert (H1 : Same st1 /\
               hasInitializedTemplateTree st1 = hasInitializedTemplateTree st /\
               (Plain -> st1 = st)).
  { subst st1 Same Plain. destruct (categories st) eqn:Hcats; [|done].
    split_and!; try done. by intros [? _]. }
  clearbody st1.
  set (st2 := initializeTemplateTreeExpandedState st1).
  assert (H2 : Same st2 /\
               (Plain -> st2 = initializeTemplateTreeExpandedState st)).
  { subst st2 Same. simpl in *.
    destruct H1 as ((? & ? & ? & ? & ? & Hexp) & Hi1 & Hp1).
    split; [|by intros ->%Hp1].
    unfold initializeTemplateTreeExpandedState.
    destruct (hasInitializedTemplateTree st1) eqn:Hinit; [done|].
    destruct (decide _); simpl; split_and!; try done.
    all: intros Hi; congruence. }
  clear H1. clearbody st2.
  assert (Hsel2 : Plain -> selectedCategoryId st2 = selectedCategoryId st).
  { intros Hp. destruct H2 as [_ H2]. rewrite (H2 Hp).
    unfold initializeTemplateTreeExpandedState.
    destruct (hasInitializedTemplateTree st); [done|].
    by destruct (decide _). }
  set (selectedId := Js.or (selectedCategoryId st2) ALL_CATEGORY_ID).
  assert (HselId : Plain -> selectedId = selectedCategoryId st).
  { intros Hp. subst selectedId. rewrite (Hsel2 Hp). unfold Js.or.
    destruct Hp as [_ Hp]. by rewrite decide_False. }
  clearbody selectedId.
  set (st3 := if decide (selectedCategoryId st2 = "")
              then setSelected ALL_CATEGORY_ID st2 else st2).
  assert (H3 : Same st3 /\
               (Plain -> st3 = initializeTemplateTreeExpandedState st)).
  { subst st3 Same. simpl in *. destruct H2 as [H2 Hp2].
    split; [by destruct (decide _)|].
    intros Hp. rewrite decide_False; [by apply Hp2|].
    rewrite (Hsel2 Hp). by destruct Hp. }
  clear H2 Hsel2. clearbody st3.
  assert (H4 : exists st4,
             (if suppressTemplateAutoExpandOnce st3 then Some st3
              else ensureTemplateTreeExpandedForSelection fuel selectedId st3)
               = Some st4 /\
             categories st4 = categories st /\
             templateSearchTerm st4 = templateSearchTerm st /\
             allTemplatesCache st4 = allTemplatesCache st /\
             lastCategoriesLength st4 = lastCategoriesLength st /\
             (hasInitializedTemplateTree st = true ->
              suppressTemplateAutoExpandOnce st = true ->
              templateTreeExpandedIds st4 = templateTreeExpandedIds st) /\
             (suppressTemplateAutoExpandOnce st = false -> Plain ->
              selectedCategoryId st <> ALL_CATEGORY_ID ->
              expandLoop fuel (categories st)
                (findCategory (categories st) (selectedCategoryId st))
                (templateTreeExpandedIds (initializeTemplateTreeExpandedState st) ∪
                 {[ ALL_CATEGORY_ID ]}) = Some (templateTreeExpandedIds st4))).
  { destruct H3 as ((Hc3 & Ht3 & Ha3 & Hl3 & Hs3 & He3) & Hp3). rewrite Hs3.
    destruct (suppressTemplateAutoExpandOnce st) eqn:Hsup.
    { exists st3. split_and!; auto; done. }
    unfold ensureTemplateTreeExpandedForSelection.
    destruct (decide _) as [Hor|Hor].
    { exists st3. split_and!; auto; try done.
      intros _ Hp Hall. rewrite (HselId Hp) in Hor. destruct Hp as [_ Hp].
      by destruct Hor. }
    rewrite Hc3.
    destruct (expandLoop_total (categories st) rank Hr bound Hb fuel
                (findCategory (categories st) selectedId)
                (templateTreeExpandedIds st3 ∪ {[ALL_CATEGORY_ID]}))
      as [e He].
    { intros cur Hcur.
      apply findCategory_Some in Hcur as [? ?]. split; [done|lia]. }
    rewrite He. simpl. eexists. split; [done|]. simpl.
    split_and!; auto; try done.
    intros _ Hp Hall. rewrite <- He. by rewrite (HselId Hp), (Hp3 Hp). }
  destruct H4 as (st4 & -> & Hc4 & Ht4 & Ha4 & Hl4 & He4 & Hx4). simpl.
  destruct (getAllTemplates_same st st4 Hc4 Ha4 Hl4) as (_ & Ha5 & Hl5).
  destruct (getAllTemplates_fields st4) as (Hc5 & _ & Ht5 & _ & He5 & _ & _).
  set (st5 := (getAllTemplates st4).2) in *. clearbody st5.
  assert (Hlast : suppressTemplateAutoExpandOnce st = false ->
                  categories st <> [] -> selectedCategoryId st <> "" ->
                  selectedCategoryId st <> ALL_CATEGORY_ID ->
                  expandLoop fuel (categories st)
                    (findCategory (categories st) (selectedCategoryId st))
                    (templateTreeExpandedIds (initializeTemplateTreeExpandedState st) ∪
                     {[ ALL_CATEGORY_ID ]}) = Some (templateTreeExpandedIds st5)).
  { intros Hs Hn He Hall. rewrite He5. by apply Hx4. }
  destruct (decide (ALL_CATEGORY_ID ∈ templateTreeExpandedIds st5)).
  - destruct (renderTreeLevel_total (categories st) rank Hr (fun _ _ => True)
                (fun _ _ _ => I) fuel None st5) as (cache' & -> & _);
      [congruence| |by intros k l _|].
    { specialize (Hb (Js.orEmpty None)). lia. }
    simpl. eexists. split; [done|]. simpl.
    split_and!; try congruence; try done. intros Hi Hs. rewrite He5. auto.
  - simpl. eexists. split; [done|]. simpl.
    split_and!; try congruence; try done. intros Hi Hs. rewrite He5. auto.
Qed.

(** *** The depth of the tree *)

Lemma findCategory_app_old cats new id :
  id <> cat_id new -> findCategory (cats ++ [new]) id = findCategory cats id.
Proof.
  intros Hid. unfold findCategory. induction cats as [|c cats IH]; simpl.
  - by rewrite bool_decide_eq_false_2.
  - by destruct (bool_decide (cat_id c = id)).
Qed.

Lemma findCategory_app_new cats new :
  (forall cat, cat ∈ cats -> cat_id cat <> cat_id new) ->
  findCategory (cats ++ [new]) (cat_id new) = Some new.
Proof.
  intros Hnew. unfold findCategory. induction cats as [|c cats IH]; simpl.
  - by rewrite bool_decide_eq_true_2.
  - rewrite bool_decide_eq_false_2 by (apply Hnew; left).
    apply IH. intros cat Hin. apply Hnew. by right.
Qed.

Lemma depthLoop_unfold rounds cats current depth :
  depthLoop (S rounds) cats current depth =
    match current with
    | Some cur =>
        if Js.truthy (parentId cur) then
          if (6 <? S depth)%nat then S depth
          else depthLoop rounds cats
                 (findCategory cats (Js.orEmpty (parentId cur))) (S depth)
        else depth
    | None => depth
    end.
Proof. done. Qed.

(** The depth only grows along the loop. *)
Lemma depthLoop_ge rounds cats :
  forall current depth, (depth <= depthLoop rounds cats current depth)%nat.
Proof.
  induction rounds as [|rounds IH]; intros current depth; [done|].
  rewrite depthLoop_unfold. destruct current as [cur|]; [|done].
  destruct (Js.truthy _); [|done]. destruct (6 <? S depth)%nat; [lia|].
  specialize (IH (findCategory cats (Js.orEmpty (parentId cur))) (S depth)). lia.
Qed.

Lemma depthLoop_more_rounds rounds cats :
  forall current depth,
    (depthLoop rounds cats current depth <= depthLoop (S rounds) cats current depth)%nat.
Proof.
  induction rounds as [|rounds IH]; intros current depth.
  { apply depthLoop_ge. }
  rewrite (depthLoop_unfold (S rounds)), (depthLoop_unfold rounds).
  destruct current as [cur|]; [|done].
  destruct (Js.truthy _); [|done]. destruct (6 <? S depth)%nat; [done|]. apply IH.
Qed.

Lemma depthLoop_from_next rounds cats :
  forall current depth,
    (depthLoop rounds cats current (S depth) <=
       S (depthLoop rounds cats current depth))%nat.
Proof.
  induction rounds as [|rounds IH]; intros current depth; [done|].
  rewrite !depthLoop_unfold. destruct current as [cur|]; [|done].
  destruct (Js.truthy _); [|done].
  destruct (6 <? S depth)%nat eqn:H1, (6 <? S (S depth))%nat eqn:H2; try done.
  - apply Nat.ltb_lt in H1. apply Nat.ltb_ge in H2. lia.
  - pose proof (depthLoop_ge rounds cats
                  (findCategory cats (Js.orEmpty (parentId cur))) (S depth)).
    apply Nat.ltb_lt in H2. apply Nat.ltb_ge in H1. lia.
Qed.

(** A new category that nothing refers to leaves the chains of the others
    as they were. *)
Lemma depthLoop_app cats new rounds :
  (forall cat, cat ∈ cats -> parentKey cat <> cat_id new) ->
  forall current depth,
    (forall c, current = Some c -> c ∈ cats) ->
    depthLoop rounds (cats ++ [new]) current depth =
      depthLoop rounds cats current depth.
Proof.
  intros Hnew. induction rounds as [|rounds IH]; intros current depth Hcur; [done|].
  rewrite !depthLoop_unfold. destruct current as [cur|]; [|done].
  destruct (Js.truthy _); [|done]. destruct (6 <? S depth)%nat; [done|].
  rewrite findCategory_app_old by (apply Hnew, Hcur; done).
  apply IH. intros c Hc. by apply findCategory_Some in Hc as [? _].
Qed.

Lemma DepthBounded_new_leaf cats new :
  (forall cat, cat ∈ cats -> parentKey cat <> cat_id new /\ cat_id cat <> cat_id new) ->
  parentKey new <> cat_id new -> cat_id new <> "" ->
  (getTemplateCategoryDepth cats (parentId new) < 6)%nat ->
  DepthBounded cats -> DepthBounded (cats ++ [new]).
Proof.
  intros Hnew Hself Hid Hparent Hold cat Hin.
  assert (Hp : forall c, c ∈ cats -> parentKey c <> cat_id new)
    by (intros c Hc; by apply Hnew).
  unfold getTemplateCategoryDepth in *.
  apply elem_of_app in Hin as [Hin|Hin%list_elem_of_singleton].
  - specialize (Hold cat Hin). unfold getTemplateCategoryDepth in Hold.
    change (Js.orEmpty (Some (cat_id cat))) with (cat_id cat) in *.
    destruct (Js.truthy (Some (cat_id cat))); [|lia].
    rewrite findCategory_app_old by (by apply Hnew).
    rewrite depthLoop_app; [exact Hold|done|].
    intros c Hc. by apply findCategory_Some in Hc as [? _].
  - subst cat.
    change (Js.orEmpty (Some (cat_id new))) with (cat_id new).
    replace (Js.truthy (Some (cat_id new))) with true
      by (unfold Js.truthy; by rewrite bool_decide_eq_true_2).
    rewrite findCategory_app_new by (intros c Hc; by apply Hnew).
    rewrite depthLoop_unfold.
    destruct (Js.truthy (parentId new)) eqn:Ht; [|lia].
    change (6 <? 2)%nat with false. cbv iota.
    rewrite findCategory_app_old by done.
    rewrite depthLoop_app; [|done|].
    2:{ intros c Hc. by apply findCategory_Some in Hc as [? _]. }
    pose proof (depthLoop_from_next 5 cats
                  (findCategory cats (Js.orEmpty (parentId new))) 1).
    pose proof (depthLoop_more_rounds 5 cats
                  (findCategory cats (Js.orEmpty (parentId new))) 1).
    lia.
Qed.

(** One creation keeps the depth within six levels, the parent references
    a forest and the strings in use known. *)
Lemma create_depth_step fuel bound name confirm n st :
  Acyclic bound (categories st) -> DepthBounded (categories st) ->
  n ≠ "" -> n ∉ usedNames st -> (S bound < fuel)%nat ->
  exists st',
    handleCreateTemplateCategory fuel name confirm n st = Some st' /\
    Acyclic (S bound) (categories st') /\
    DepthBounded (categories st') /\
    (forall x, x ∈ usedNames st' -> x = n \/ x = "" \/ x ∈ usedNames st).
Proof.
  intros Hacyc Hdepth Hn Hfresh Hfuel.
  assert (Hsame : Acyclic (S bound) (categories st) /\
                  DepthBounded (categories st) /\
                  (forall x, x ∈ usedNames st -> x = n \/ x = "" \/ x ∈ usedNames st)).
  { split_and!; [eapply Acyclic_weaken; [done|lia]|done|auto]. }
  unfold handleCreateTemplateCategory.
  destruct (negb (Js.truthy name)); [by exists st|].
  destruct (decide (Js.trim (Js.orEmpty name) = "")); [by exists st|].
  destruct (existsb _ _ && negb confirm); [by exists st|].
  set (parent := if bool_decide (selectedCategoryId st ≠ "") &&
                    bool_decide (selectedCategoryId st ≠ ALL_CATEGORY_ID)
                 then Some (selectedCategoryId st) else None).
  destruct (6 <=? getTemplateCategoryDepth (categories st) parent)%nat eqn:Hcap;
    [by exists st|].
  apply Nat.leb_gt in Hcap. clear Hsame.
  set (new := mkCategory n (Js.trim (Js.orEmpty name)) [] parent).
  set (cats' := categories st ++ [new]).
  assert (Hparent : parentKey new = selectedCategoryId st \/ parentKey new = "").
  { subst new parent. unfold parentKey. simpl.
    destruct (_ && _); simpl; auto. }
  assert (Hnew : forall cat, cat ∈ categories st ->
                   parentKey cat ≠ cat_id new /\ cat_id cat ≠ cat_id new).
  { intros cat Hin. simpl. split; intros Heq; apply Hfresh, elem_of_usedNames;
      right; exists cat; split; auto. }
  assert (Hself : parentKey new ≠ cat_id new).
  { simpl. destruct Hparent as [-> | ->]; [|done].
    intros Heq. apply Hfresh, elem_of_usedNames. by left. }
  assert (Hdepth' : DepthBounded cats') by (by apply DepthBounded_new_leaf).
  destruct (Acyclic_new_leaf _ _ new Hacyc Hnew Hself) as (rank & Hb & Hr).
  simpl.
  destruct (renderTemplateCategoryOptions_total cats' rank Hr
              (fun _ _ => True) (fun _ _ _ => I) (S bound) Hb fuel
              (selectTemplateCategory n (setCategories cats' st)))
    as (st3 & -> & Hc3 & _ & Hsel3); [done|done|by intros k l _|].
  simpl. destruct (renderTemplateList_store st3) as (Hc4 & Hs4 & Hd4).
  eexists. split; [done|]. rewrite Hc4, Hc3. split_and!; [by exists rank|done|].
  intros x. rewrite !elem_of_usedNames, Hs4, Hc4, Hc3, Hsel3.
  assert (Hsel : match cats' with
                 | [] => ALL_CATEGORY_ID
                 | _ :: _ =>
                     Js.or (selectedCategoryId
                              (selectTemplateCategory n (setCategories cats' st)))
                           ALL_CATEGORY_ID
                 end = n).
  { subst cats'. destruct (categories st); simpl; unfold Js.or;
      rewrite (decide_False (P := n = "")) by done; by rewrite decide_False. }
  rewrite Hsel. intros [->|(cat & Hin & Hx)]; [by left|].
  apply elem_of_app in Hin as [Hin|Hin%list_elem_of_singleton].
  - right; right; right. by exists cat.
  - subst cat. destruct Hx as [->| ->]; [by left|].
    destruct Hparent as [-> | ->]; auto.
Qed.

Lemma click_selects fuel bound p st :
  Acyclic bound (categories st) -> (bound < fuel)%nat ->
  exists st',
    onTreeItemClick fuel p st = Some st' /\
    categories st' = categories st /\
    (selectedCategoryId st' = p \/ selectedCategoryId st' = ALL_CATEGORY_ID).
Proof.
  intros (rank & Hb & Hr) Hfuel. unfold onTreeItemClick.
  destruct (renderTemplateCategoryOptions_total (categories st) rank Hr
              (fun _ _ => True) (fun _ _ _ => I) bound Hb fuel
              (selectTemplateCategory p st))
    as (st3 & -> & Hc3 & _ & Hsel3); [done|done|by intros k l _|].
  simpl. destruct (renderTemplateList_store st3) as (Hc4 & Hs4 & Hd4).
  eexists. split; [done|]. rewrite Hc4, Hs4, Hc3, Hsel3.
  split; [done|].
  destruct (categories st); [by right|]. simpl. unfold Js.or.
  destruct (decide (p = "")); [by right|]. rewrite decide_False by done. by left.
Qed.

Lemma createCategories_depth calls :
  forall fuel bound used st,
    Acyclic bound (categories st) -> DepthBounded (categories st) ->
    "" ∈ used -> ALL_CATEGORY_ID ∈ used ->
    (forall x, x ∈ usedNames st -> x ∈ used) ->
    FreshFrom used calls ->
    (bound + length calls < fuel)%nat ->
    exists st',
      createCategories fuel calls st = Some st' /\
      Acyclic (bound + length calls) (categories st') /\
      DepthBounded (categories st').
Proof.
  induction calls as [|c calls IH];
    intros fuel bound used st Hacyc Hdepth Hempty Hall Hused Hfresh Hfuel.
  - exists st. simpl. rewrite Nat.add_0_r. by split_and!.
  - simpl in *. destruct Hfresh as [Hnew Hfresh].
    set (used' := match call_parent c with Some p => p :: used | None => used end)
      in *.
    assert (Hsub : forall x, x ∈ used -> x ∈ used').
    { intros x Hx. subst used'. destruct (call_parent c); [by right|done]. }
    assert (Hclick : exists st1,
               match call_parent c with
               | Some p => onTreeItemClick fuel p st
               | None => Some st
               end = Some st1 /\
               Acyclic bound (categories st1) /\
               DepthBounded (categories st1) /\
               (forall x, x ∈ usedNames st1 -> x ∈ used')).
    { subst used'. destruct (call_parent c) as [p|]; [|by exists st].
      destruct (click_selects fuel bound p st) as (st1 & Hrun & Hc1 & Hsel);
        [done|lia|].
      exists st1. rewrite Hc1. split_and!; [done..|].
      intros x. rewrite !elem_of_usedNames, Hc1.
      intros [->|Hx].
      - destruct Hsel as [-> | ->]; [left|by right; apply Hall].
      - right. apply Hused, elem_of_usedNames. by right. }
    destruct Hclick as (st1 & Hrun1 & Hacyc1 & Hdepth1 & Hused1).
    unfold createCategory. rewrite Hrun1. simpl.
    destruct (create_depth_step fuel bound (call_name c) (call_confirm c)
                (call_newId c) st1) as (st2 & -> & Hacyc2 & Hdepth2 & Hused2);
      [done..| | |lia|].
    { intros Heq. apply Hnew, Hsub. by rewrite Heq. }
    { intros Hin. by apply Hnew, Hused1. }
    simpl.
    destruct (IH fuel (S bound) (call_newId c :: used') st2)
      as (st' & -> & Hacyc' & Hdepth'); [done..| | | |done|lia|].
    { right. by apply Hsub. }
    { right. by apply Hsub. }
    { intros x Hx. destruct (Hused2 x Hx) as [->|[->|Hold]];
        [left|right; by apply Hsub|right; by apply Hused1]. }
    exists st'. split_and!; [done| |done].
    by replace (bound + S (length calls))%nat with (S bound + length calls)%nat by lia.
Qed.

(** X12: in a library whose parent references form a forest, however many
    categories are created with new identifiers, each under the row chosen
    for it, none ends up deeper than the sixth level when none was before:
    the depth that [getTemplateCategoryDepth] computes for every category
    of the resulting library is at most 6. *)
Theorem created_categories_stay_within_six_levels fuel bound calls st :
  Acyclic bound (categories st) ->
  DepthBounded (categories st) ->
  FreshIds calls st ->
  (bound + length calls < fuel)%nat ->
  exists st',
    createCategories fuel calls st = Some st' /\
    forall cat, cat ∈ categories st' ->
      (getTemplateCategoryDepth (categories st') (Some (cat_id cat)) <= 6)%nat.
Proof.
  intros Hacyc Hdepth Hfresh Hfuel.
  destruct (createCategories_depth calls fuel bound
              ("" :: ALL_CATEGORY_ID :: usedNames st) st)
    as (st' & Hrun & Hacyc' & Hdepth');
    [done|done|by left|by right; left|by intros x Hx; right; right|done..|].
  exists st'. split; [done|]. exact Hdepth'.
Qed.

Lemma sampleStore_depth : DepthBounded (categories sampleStore).
Proof.
  intros cat Hin. simpl in Hin.
  apply elem_of_cons in Hin as [->|Hin]; [vm_compute; lia|].
  apply list_elem_of_singleton in Hin as ->. vm_compute; lia.
Qed.

Lemma created_categories_stay_within_six_levels_witness :
  exists st',
    createCategories 5 sampleCalls sampleStore = Some st' /\
    forall cat, cat ∈ categories st' ->
      (getTemplateCategoryDepth (categories st') (Some (cat_id cat)) <= 6)%nat.
Proof.
  apply (created_categories_stay_within_six_levels 5 2 sampleCalls sampleStore).
  - exact sampleStore_acyclic.
  - exact sampleStore_depth.
  - exact sampleCalls_fresh.
  - simpl. lia.
Defined.

(** *** Deletions *)

(** X13: in a forest with a coherent cache, deleting the current category
    removes it and exactly the categories of its subtree, moves the
    selection to "All" and leaves a coherent cache; when the confirmation
    is declined nothing changes. *)
Theorem delete_current_removes_subtree fuel bound c st :
  Acyclic bound (categories st) -> CacheCoherent st -> (bound < fuel)%nat ->
  selectedCategoryId st <> "" -> selectedCategoryId st <> ALL_CATEGORY_ID ->
  findCategory (categories st) (selectedCategoryId st) = Some c ->
  onDeleteCurrentCategory fuel false st = Some st /\
  exists st',
    onDeleteCurrentCategory fuel true st = Some st' /\
    (forall cat,
       cat ∈ categories st' <->
       cat ∈ categories st /\
       ~ InSubtree (categories st) (selectedCategoryId st) (cat_id cat)) /\
    selectedCategoryId st' = ALL_CATEGORY_ID /\
    CacheCoherent st'.
Proof.
  intros Hacyc Hcoh Hfuel Hsel Hall Hfind.
  unfold onDeleteCurrentCategory, removeTemplateCategory.
  rewrite !decide_False by done. rewrite Hfind. simpl. split; [done|].
  pose proof Hacyc as (rank & Hb & Hr).
  destruct (getDescendantCategoryIds_total (categories st) rank Hr
              (Covers (fun _ => False) (categories st)) (Covers_node _ _) fuel
              (selectedCategoryId st) (descendantCategoryIdsCache st))
    as (ids & cache' & -> & _ & Hids);
    [specialize (Hb (selectedCategoryId st)); lia|by apply covers_of_coherent|].
  simpl.
  rewrite decide_True by (apply elem_of_list_to_set, Hids).
  set (cats' := filter (fun cat => cat_id cat ∉ (list_to_set ids : gset string))
                       (categories st)).
  assert (Hr' : forall cat, cat ∈ cats' ->
                  (rank (cat_id cat) < rank (parentKey cat))%nat).
  { intros cat [_ Hin]%list_elem_of_filter. by apply Hr. }
  match goal with
  | |- context [renderTemplateCategoryOptions fuel ?s] =>
      destruct (renderTemplateCategoryOptions_total cats' rank Hr'
                  (Covers (fun _ => False) cats') (Covers_node _ _) bound Hb fuel s)
        as (st4 & -> & Hc4 & Hcov4 & Hsel4); [done|done|apply map_Forall_empty|]
  end.
  simpl. destruct (renderTemplateList_store st4) as (Hc5 & Hs5 & Hd5).
  eexists. split; [done|]. split_and!.
  - intros cat. rewrite Hc5, Hc4. subst cats'.
    rewrite list_elem_of_filter, not_elem_of_list_to_set.
    rewrite (Covers_exact _ _ _ Hids). tauto.
  - rewrite Hs5, Hsel4. simpl. by destruct cats'.
  - apply coherent_of_covers. by rewrite Hc5, Hd5, Hc4.
Qed.

Lemma delete_current_removes_subtree_witness :
  let st := setSelected "alg" sampleStore in
  onDeleteCurrentCategory 5 false st = Some st /\
  exists st',
    onDeleteCurrentCategory 5 true st = Some st' /\
    (forall cat,
       cat ∈ categories st' <->
       cat ∈ categories st /\
       ~ InSubtree (categories st) (selectedCategoryId st) (cat_id cat)) /\
    selectedCategoryId st' = ALL_CATEGORY_ID /\
    CacheCoherent st'.
Proof.
  apply (delete_current_removes_subtree 5 2
           (default (mkCategory "" "" [] None) (head (categories sampleStore)))
           (setSelected "alg" sampleStore)).
  - exact sampleStore_acyclic.
  - intros k l Hkl. simpl in Hkl. by rewrite lookup_empty in Hkl.
  - lia.
  - done.
  - done.
  - reflexivity.
Defined.

(** With a coherent cache every count is the sum over the subtree. *)
Lemma count_exact fuel bound id st :
  Acyclic bound (categories st) -> CacheCoherent st -> (bound < fuel)%nat ->
  exists n st',
    getCategoryTemplateCount fuel id st = Some (n, st') /\
    subtreeTemplateCount (categories st) id n.
Proof.
  intros (rank & Hb & Hr) Hcoh Hfuel.
  destruct (getCategoryTemplateCount_total (categories st) rank Hr
              (Covers (fun _ => False) (categories st)) (Covers_node _ _)
              fuel id st eq_refl) as (l & cache' & -> & _ & Hl);
    [specialize (Hb id); lia|by apply covers_of_coherent|].
  eexists _, _. split; [done|]. exists (list_to_set l). split.
  - intros x. rewrite elem_of_list_to_set. by apply Covers_exact.
  - apply countIn_sum.
Qed.

Lemma find_template_by_id ts id :
  match List.find (fun tpl => bool_decide (tpl_id tpl = id)) ts with
  | Some t => t ∈ ts /\ tpl_id t = id
  | None => id ∉ map tpl_id ts
  end.
Proof.
  induction ts as [|t ts IH]; simpl; [apply not_elem_of_nil|].
  destruct (bool_decide (tpl_id t = id)) eqn:Ht.
  - apply bool_decide_eq_true in Ht. split; [apply list_elem_of_here|done].
  - apply bool_decide_eq_false in Ht.
    destruct (List.find _ ts).
    + destruct IH. split; [by apply list_elem_of_further|done].
    + by apply not_elem_of_cons.
Qed.

Lemma map_cat_id_updateCategory id f cats :
  (forall c, cat_id (f c) = cat_id c) ->
  map cat_id (updateCategory id f cats) = map cat_id cats.
Proof.
  intros Hf. induction cats as [|c cats IH]; simpl; [done|].
  destruct (decide (cat_id c = id)); simpl; [by rewrite Hf|by rewrite IH].
Qed.



(** *** Toggles of the tree *)

(** X15: a click on the toggle of a row, in a forest whose tree is
    initialised, with a coherent cache and a selection as a render leaves
    it.  On a collapsed row it expands that row and nothing else.  On the
    expanded "All" row it collapses everything and selects "All".  On
    another expanded row it collapses that row and every row of its
    subtree, and a selection inside that subtree moves to the row;
    otherwise the selection stays.  The categories are not touched. *)
Theorem tree_toggle_effect fuel bound id st :
  Acyclic bound (categories st) -> CacheCoherent st -> (bound < fuel)%nat ->
  hasInitializedTemplateTree st = true ->
  selectedCategoryId st <> "" ->
  (categories st = [] -> selectedCategoryId st = ALL_CATEGORY_ID) ->
  id <> "" ->
  exists st',
    onTreeToggleClick fuel id st = Some st' /\
    categories st' = categories st /\
    (id ∉ templateTreeExpandedIds st ->
     (forall x, x ∈ templateTreeExpandedIds st' <->
                x ∈ templateTreeExpandedIds st \/ x = id) /\
     selectedCategoryId st' = selectedCategoryId st) /\
    (id ∈ templateTreeExpandedIds st -> id = ALL_CATEGORY_ID ->
     templateTreeExpandedIds st' = ∅ /\
     selectedCategoryId st' = ALL_CATEGORY_ID) /\
    (id ∈ templateTreeExpandedIds st -> id <> ALL_CATEGORY_ID ->
     (forall x, x ∈ templateTreeExpandedIds st' <->
                x ∈ templateTreeExpandedIds st /\ ~ InSubtree (categories st) id x) /\
     (InSubtree (categories st) id (selectedCategoryId st) ->
      selectedCategoryId st' = id) /\
     (~ InSubtree (categories st) id (selectedCategoryId st) ->
      selectedCategoryId st' = selectedCategoryId st)).
Proof.
  intros Hacyc Hcoh Hfuel Hinit Hsel Hnone Hid.
  pose proof Hacyc as (rank & Hb & Hr).
  unfold onTreeToggleClick. rewrite decide_False by done.
  set (Φ := Covers (fun _ => False) (categories st)).
  (* the store once the toggle has changed the expanded rows *)
  lazymatch goal with
  | |- ex (fun st' => mbind _ ?m = _ /\ _) => set (toggled := m)
  end.
  assert (Hst1 : exists st1,
    toggled = Some st1 /\
    categories st1 = categories st /\
    hasInitializedTemplateTree st1 = true /\
    map_Forall Φ (descendantCategoryIdsCache st1) /\
    (id ∉ templateTreeExpandedIds st ->
     (forall x, x ∈ templateTreeExpandedIds st1 <->
                x ∈ templateTreeExpandedIds st \/ x = id) /\
     selectedCategoryId st1 = selectedCategoryId st) /\
    (id ∈ templateTreeExpandedIds st -> id = ALL_CATEGORY_ID ->
     templateTreeExpandedIds st1 = ∅ /\
     selectedCategoryId st1 = ALL_CATEGORY_ID) /\
    (id ∈ templateTreeExpandedIds st -> id <> ALL_CATEGORY_ID ->
     (forall x, x ∈ templateTreeExpandedIds st1 <->
                x ∈ templateTreeExpandedIds st /\ ~ InSubtree (categories st) id x) /\
     (InSubtree (categories st) id (selectedCategoryId st) ->
      selectedCategoryId st1 = id) /\
     (~ InSubtree (categories st) id (selectedCategoryId st) ->
      selectedCategoryId st1 = selectedCategoryId st))).
  { assert (Hcov : map_Forall Φ (descendantCategoryIdsCache st))
      by (by apply covers_of_coherent).
    subst toggled.
    destruct (decide (id ∈ templateTreeExpandedIds st)) as [Hexp|Hexp].
    - destruct (decide (id = ALL_CATEGORY_ID)) as [Hall|Hall].
      + eexists. split; [done|]. simpl.
        split_and!; try done.
        * by destruct (_ && _).
        * by destruct (_ && _).
        * by destruct (_ && _).
        * intros _ _. split; [done|].
          destruct (bool_decide (selectedCategoryId st ≠ ALL_CATEGORY_ID)) eqn:Hs;
            rewrite bool_decide_eq_true_2 by done; simpl; [done|].
          apply bool_decide_eq_false in Hs.
          by destruct (decide (selectedCategoryId st = ALL_CATEGORY_ID)).
      + destruct (getDescendantCategoryIds_total (categories st) rank Hr
                    Φ (Covers_node _ _) fuel id (descendantCategoryIdsCache st))
          as (ids & cache' & -> & Hcov' & Hids);
          [specialize (Hb id); lia|done|].
        pose proof (Covers_exact _ _ _ Hids) as Hexact.
        simpl. eexists. split; [done|]. simpl.
        destruct (decide (selectedCategoryId st ∈ ids)) as [Hin|Hin]; simpl;
          (split_and!; try done); intros _ _; split_and!.
        * intros x. rewrite elem_of_difference, elem_of_list_to_set, Hexact. tauto.
        * done.
        * intros Hno. destruct Hno. by apply Hexact.
        * intros x. rewrite elem_of_difference, elem_of_list_to_set, Hexact. tauto.
        * intros Hyes. destruct Hin. by apply Hexact.
        * done.
    - eexists. split; [done|]. simpl. split_and!; try done.
      intros _. split; [|done]. intros x. set_solver. }
  destruct Hst1 as (st1 & -> & Hc1 & Hi1 & Hcov1 & Hcoll & HallRow & Hrow).
  simpl.
  assert (Hacyc1 : Acyclic bound (categories (setSuppress true st1))).
  { simpl. by rewrite Hc1. }
  destruct (renderTemplateCategoryOptions_frame fuel bound (setSuppress true st1)
              Hacyc1 Hfuel) as (st' & Hrun & _ & _ & _ & _ & Hexp' & _).
  specialize (Hexp' Hi1 eq_refl). simpl in Hexp'.
  destruct (renderTemplateCategoryOptions_total (categories st) rank Hr
              Φ (Covers_node _ _) bound Hb fuel (setSuppress true st1))
    as (st'' & Hrun' & Hc' & _ & Hsel'); [done..|].
  rewrite Hrun in Hrun'. injection Hrun' as <-. simpl in Hsel'.
  exists st'. split; [done|]. split; [done|]. rewrite Hexp'.
  assert (Hkeep : forall s,
            selectedCategoryId st1 = s ->
            (categories st = [] -> s = ALL_CATEGORY_ID) -> s <> "" ->
            selectedCategoryId st' = s).
  { intros s Hs1 Hs2 Hs3. rewrite Hsel', Hs1.
    destruct (categories st); [by rewrite Hs2|].
    unfold Js.or. by rewrite decide_False. }
  split_and!.
  - intros Hno. destruct (Hcoll Hno) as [He Hs]. split; [done|]. by apply Hkeep.
  - intros Hyes Hall. destruct (HallRow Hyes Hall) as [He Hs]. split; [done|].
    by apply Hkeep.
  - intros Hyes Hall. destruct (Hrow Hyes Hall) as (He & Hin & Hout).
    split_and!; [done| |].
    + intros Hsub. apply Hkeep; [by apply Hin| |done].
      intros Hnil. specialize (Hnone Hnil). rewrite Hnone, Hnil in Hsub.
      inversion Hsub as [|cat Hcat]; [done|]. by apply elem_of_nil in Hcat.
    + intros Hsub. apply Hkeep; [by apply Hout|done..].
Qed.

Lemma tree_toggle_effect_witness :
  let st :=
    setInitialized true
      (setExpanded {[ ALL_CATEGORY_ID; "alg" ]} sampleStore) in
  exists st',
    onTreeToggleClick 5 "alg" st = Some st' /\
    categories st' = categories st /\
    ("alg" ∉ templateTreeExpandedIds st') /\
    ALL_CATEGORY_ID ∈ templateTreeExpandedIds st' /\
    selectedCategoryId st' = "alg".
Proof.
  intros st.
  destruct (tree_toggle_effect 5 2 "alg" st) as (st' & Hrun & Hcats & _ & _ & Hrow).
  - exact sampleStore_acyclic.
  - intros k l Hkl. simpl in Hkl. by rewrite lookup_empty in Hkl.
  - lia.
  - reflexivity.
  - done.
  - done.
  - done.
  - destruct Hrow as (Hexp & Hin & _); [subst st; simpl; set_solver|done|].
    exists st'. split; [exact Hrun|]. split; [exact Hcats|]. split_and!.
    + intros Hx. apply Hexp in Hx as [_ Hno]. apply Hno. constructor.
    + apply Hexp. split; [subst st; simpl; set_solver|].
      intros Hsub. inversion Hsub as [|cat Hcat Hparent Heq].
      simpl in Hcat. apply elem_of_cons in Hcat as [->|Hcat]; [done|].
      apply list_elem_of_singleton in Hcat as ->. done.
    + apply Hin.
      apply (subtree_child _ _
               (mkCategory "lin" "Linear"
                  [mkTemplate "t2" "Line" "y=kx" (Some "slope")] (Some "alg"))).
      * right. left.
      * constructor.
Defined.

(** *** Selecting a row *)

Lemma renderTemplateList_expanded st :
  templateTreeExpandedIds (renderTemplateList st).2 = templateTreeExpandedIds st.
Proof.
  destruct (renderTemplateList_cases st) as [-> | ->]; [done|].
  by destruct (getAllTemplates_fields st) as (_ & _ & _ & _ & He & _ & _).
Qed.

Lemma subtree_inv cats a x :
  InSubtree cats a x ->
  a = x \/
  exists cat, cat ∈ cats /\ cat_id cat = x /\ InSubtree cats a (parentKey cat).
Proof.
  intros Hsub. inversion Hsub as [|cat Hcat Hparent Heq]; [by left|].
  right. by exists cat.
Qed.

Lemma distinct_same_id cats c1 c2 :
  NoDup (map cat_id cats) -> c1 ∈ cats -> c2 ∈ cats ->
  cat_id c1 = cat_id c2 -> c1 = c2.
Proof.
  induction cats as [|c cats IH]; intros Hnd H1 H2 Heq.
  { by apply elem_of_nil in H1. }
  simpl in Hnd. apply NoDup_cons in Hnd as [Hc Hnd].
  assert (Hmem : forall x, x ∈ cats -> cat_id x ∈ map cat_id cats).
  { intros x Hx. change (cat_id x ∈ cat_id <$> cats).
    apply list_elem_of_fmap. eauto. }
  apply elem_of_cons in H1 as [->|H1]; apply elem_of_cons in H2 as [->|H2].
  - done.
  - destruct Hc. rewrite Heq. by apply Hmem.
  - destruct Hc. rewrite <- Heq. by apply Hmem.
  - by apply IH.
Qed.

(** The loop of [ensureTemplateTreeExpandedForSelection] adds every proper
    ancestor of the category it starts from, and removes nothing. *)
Lemma expandLoop_ancestors cats rank bound :
  (forall x, (rank x <= bound)%nat) ->
  (forall cat, cat ∈ cats -> (rank (cat_id cat) < rank (parentKey cat))%nat) ->
  DistinctIds cats ->
  forall fuel current expanded,
    (forall cur, current = Some cur ->
                 cur ∈ cats /\ (bound - rank (cat_id cur) <= fuel)%nat) ->
    exists e,
      expandLoop fuel cats current expanded = Some e /\
      expanded ⊆ e /\
      forall cur a, current = Some cur -> a <> cat_id cur -> a <> "" ->
                    InSubtree cats a (cat_id cur) -> a ∈ e.
Proof.
  intros Hb Hr [Hnd Hne].
  assert (Hup : forall cur a, cur ∈ cats -> a <> cat_id cur ->
                  InSubtree cats a (cat_id cur) ->
                  InSubtree cats a (parentKey cur)).
  { intros cur a Hin Ha Hsub.
    apply subtree_inv in Hsub as [?|(cat & Hcat & Hid & Hsub)]; [done|].
    by rewrite <- (distinct_same_id cats cat cur Hnd Hcat Hin Hid). }
  assert (Hmissing : forall a x, x ∉ map cat_id cats -> InSubtree cats a x -> a = x).
  { intros a x Hx Hsub.
    apply subtree_inv in Hsub as [?|(cat & Hcat & Hid & _)]; [done|].
    destruct Hx. rewrite <- Hid. change (cat_id cat ∈ cat_id <$> cats).
    apply list_elem_of_fmap. eauto. }
  induction fuel as [|fuel IH]; intros [cur|] expanded Hcur; simpl;
    try (exists expanded; split_and!; [done|done|by intros ? ? [=]]).
  - destruct (Hcur cur eq_refl) as [Hin Hrank].
    destruct (Js.truthy (parentId cur)) eqn:Ht.
    { specialize (Hr cur Hin). specialize (Hb (parentKey cur)). lia. }
    exists expanded. split_and!; [done..|].
    intros ? a [= <-] Ha Hne' Hsub. destruct Hne'.
    apply (Hmissing a ""); [done|].
    replace "" with (parentKey cur); [by apply Hup|].
    unfold parentKey, Js.truthy in *. destruct (parentId cur) as [p|]; [|done].
    apply bool_decide_eq_false in Ht. simpl.
    by destruct (decide (p = "")).
  - destruct (Hcur cur eq_refl) as [Hin Hrank].
    destruct (Js.truthy (parentId cur)) eqn:Ht.
    2:{ exists expanded. split_and!; [done..|].
        intros ? a [= <-] Ha Hne' Hsub. destruct Hne'.
        apply (Hmissing a ""); [done|].
        replace "" with (parentKey cur); [by apply Hup|].
        unfold parentKey, Js.truthy in *. destruct (parentId cur) as [p|]; [|done].
        apply bool_decide_eq_false in Ht. simpl.
        by destruct (decide (p = "")). }
    fold (parentKey cur).
    destruct (IH (findCategory cats (parentKey cur)) (expanded ∪ {[parentKey cur]}))
      as (e & -> & Hsub & Hanc).
    { intros next Hnext. apply findCategory_Some in Hnext as [Hn Hid].
      split; [done|]. rewrite Hid.
      specialize (Hr cur Hin). specialize (Hb (parentKey cur)). lia. }
    exists e. split_and!; [done|set_solver|].
    intros ? a [= <-] Ha Hne' Hsuba.
    pose proof (Hup cur a Hin Ha Hsuba) as Hparent.
    destruct (decide (a = parentKey cur)) as [->|Hap]; [set_solver|].
    pose proof (TemplateTreeFacts.find_by_id cats (parentKey cur)) as Hfind.
    unfold findCategory in Hanc.
    destruct (List.find _ cats) as [next|] eqn:Hnext.
    + destruct Hfind as [_ Hid]. apply (Hanc next a eq_refl); by rewrite ?Hid.
    + by destruct Hap; apply Hmissing.
Qed.

(** X16: a click on the row of a category, in a forest whose identifiers
    are distinct and while no toggle has suppressed the automatic expansion,
    selects it and expands "All" and every proper ancestor of the category,
    so that the row is visible; rows that were expanded stay so. *)
Theorem selecting_a_row_expands_its_ancestors fuel bound p c st :
  Acyclic bound (categories st) -> DistinctIds (categories st) ->
  (bound < fuel)%nat ->
  suppressTemplateAutoExpandOnce st = false ->
  findCategory (categories st) p = Some c -> p <> ALL_CATEGORY_ID ->
  exists st',
    onTreeItemClick fuel p st = Some st' /\
    categories st' = categories st /\
    selectedCategoryId st' = p /\
    ALL_CATEGORY_ID ∈ templateTreeExpandedIds st' /\
    (forall a, a <> p -> a <> "" -> InSubtree (categories st) a p ->
               a ∈ templateTreeExpandedIds st') /\
    templateTreeExpandedIds st ⊆ templateTreeExpandedIds st'.
Proof.
  intros Hacyc Hdist Hfuel Hsup Hfind Hall.
  pose proof Hacyc as (rank & Hb & Hr).
  apply findCategory_Some in Hfind as Hc. destruct Hc as [Hin Hid].
  assert (Hp : p <> "").
  { intros ->. destruct Hdist as [_ Hne]. apply Hne. rewrite <- Hid.
    change (cat_id c ∈ cat_id <$> categories st). apply list_elem_of_fmap. eauto. }
  assert (Hcats : categories st <> []).
  { intros Hnil. rewrite Hnil in Hin. by apply elem_of_nil in Hin. }
  unfold onTreeItemClick.
  assert (Hselp : selectTemplateCategory p st = setSelected p st).
  { unfold selectTemplateCategory, Js.or. by rewrite decide_False. }
  rewrite Hselp. clear Hselp.
  destruct (renderTemplateCategoryOptions_frame fuel bound
              (setSelected p st) Hacyc Hfuel)
    as (st1 & Hrun & _ & _ & _ & _ & _ & Hloop).
  specialize (Hloop Hsup Hcats Hp Hall). simpl in Hloop.
  destruct (renderTemplateCategoryOptions_total (categories st) rank Hr
              (fun _ _ => True) (fun _ _ _ => I) bound Hb fuel
              (setSelected p st))
    as (st1' & Hrun' & Hc1 & _ & Hsel1); [done|done|by intros k l _|].
  rewrite Hrun in Hrun'. injection Hrun' as <-. rewrite Hrun. simpl.
  destruct (renderTemplateList_store st1) as (Hc2 & Hs2 & _).
  pose proof (renderTemplateList_expanded st1) as Hexp.
  eexists. split; [done|]. rewrite Hc2, Hs2, Hc1, Hsel1, Hexp.
  destruct (expandLoop_ancestors (categories st) rank bound Hb Hr Hdist fuel
              (findCategory (categories st) p)
              (templateTreeExpandedIds
                 (initializeTemplateTreeExpandedState (setSelected p st)) ∪
               {[ALL_CATEGORY_ID]}))
    as (e & He & Hsub & Hanc).
  { intros cur Hcur. apply findCategory_Some in Hcur as [? ?]. split; [done|lia]. }
  rewrite He in Hloop. injection Hloop as <-.
  split_and!; [done| |set_solver| |].
  - destruct (categories st); [done|]. simpl. unfold Js.or.
    by rewrite decide_False.
  - intros a Ha Hne Hsuba. apply (Hanc c a Hfind); by rewrite ?Hid.
  - unfold initializeTemplateTreeExpandedState in Hsub. simpl in Hsub.
    destruct (hasInitializedTemplateTree st); [set_solver|].
    destruct (decide _) as [Hempty|]; simpl in Hsub; [rewrite Hempty|]; set_solver.
Qed.

Lemma sampleStore_distinct : DistinctIds (categories sampleStore).
Proof. split; by apply (bool_decide_unpack _). Qed.

Lemma selecting_a_row_expands_its_ancestors_witness :
  exists st',
    onTreeItemClick 5 "lin" sampleStore = Some st' /\
    selectedCategoryId st' = "lin" /\
    ALL_CATEGORY_ID ∈ templateTreeExpandedIds st' /\
    "alg" ∈ templateTreeExpandedIds st'.
Proof.
  destruct (selecting_a_row_expands_its_ancestors 5 2 "lin"
              (mkCategory "lin" "Linear"
                 [mkTemplate "t2" "Line" "y=kx" (Some "slope")] (Some "alg"))
              sampleStore sampleStore_acyclic sampleStore_distinct
              ltac:(lia) eq_refl eq_refl ltac:(done))
    as (st' & Hrun & _ & Hsel & Hall & Hanc & _).
  exists st'. split; [exact Hrun|]. split; [exact Hsel|]. split; [exact Hall|].
  apply Hanc; [done|done|].
  apply (subtree_child _ _
           (mkCategory "lin" "Linear"
              [mkTemplate "t2" "Line" "y=kx" (Some "slope")] (Some "alg"))).
  - right. left.
  - constructor.
Defined.

(** *** The list of all templates *)

Lemma length_updateCategory id f cats :
  length (updateCategory id f cats) = length cats.
Proof.
  induction cats as [|c cats IH]; simpl; [done|].
  destruct (decide (cat_id c = id)); simpl; by rewrite ?IH.
Qed.

Lemma getAllTemplates_reuses st cache :
  allTemplatesCache st = Some cache ->
  lastCategoriesLength st = length (categories st) ->
  getAllTemplates st = (cache, st).
Proof.
  intros Hc Hl. unfold getAllTemplates. rewrite Hc. by rewrite decide_True.
Qed.

(** X17: the list of all templates is rebuilt only when the number of
    categories changes.  Once it has been built for the categories as they
    are, a template saved under a new name and a new identifier into the
    selected category is stored in that category, but [getAllTemplates]
    still answers the list built before, which does not hold it. *)
Theorem saved_template_missing_from_all fuel bound nameInput latex noteInput
    confirm newId category st :
  Acyclic bound (categories st) -> (bound < fuel)%nat ->
  getSelectedTemplateCategory st = Some category ->
  Js.trim nameInput <> "" -> latex <> "" ->
  List.find (fun tpl => bool_decide (tpl_name tpl = Js.trim nameInput))
            (templates category) = None ->
  allTemplatesCache st = Some (flattenTemplates (categories st)) ->
  lastCategoriesLength st = length (categories st) ->
  newId ∉ map (fun entry => tpl_id entry.1) (flattenTemplates (categories st)) ->
  let new := mkTemplate newId (Js.trim nameInput) latex (Some (Js.trim noteInput)) in
  exists st' category',
    saveTemplateEntry fuel nameInput latex noteInput confirm newId st = Some st' /\
    findCategory (categories st') (cat_id category) = Some category' /\
    templates category' = templates category ++ [new] /\
    (getAllTemplates st').1 = flattenTemplates (categories st) /\
    new ∉ map fst (getAllTemplates st').1.
Proof.
  intros Hacyc Hfuel Hsel Hname Hlatex Hfree Hcache Hlen Hfresh new.
  pose proof Hacyc as (rank & Hb & Hr).
  unfold saveTemplateEntry. rewrite Hsel.
  rewrite !decide_False by done. rewrite Hfree. fold new.
  assert (Hfind : findCategory (categories st) (cat_id category) = Some category).
  { unfold getSelectedTemplateCategory in Hsel.
    destruct (decide _); [done|].
    apply findCategory_Some in Hsel as Hc. destruct Hc as [_ ->]. done. }
  set (category' := setTemplates (templates category ++ [new]) category).
  set (cats' := updateCategory (cat_id category)
                  (setTemplates (templates category ++ [new])) (categories st)).
  set (st1 := setCategories cats' st).
  assert (Hacyc1 : Acyclic bound (categories st1)).
  { by apply Acyclic_updateCategory. }
  destruct (renderTemplateCategoryOptions_frame fuel bound st1 Hacyc1 Hfuel)
    as (st2 & Hrun & _ & Ha2 & Hl2 & _).
  destruct Hacyc1 as (rank1 & Hb1 & Hr1).
  destruct (renderTemplateCategoryOptions_total cats' rank1 Hr1
              (fun _ _ => True) (fun _ _ _ => I) bound Hb1 fuel st1)
    as (st2' & Hrun' & Hc2 & _); [done|done|by intros k l _|].
  rewrite Hrun in Hrun'. injection Hrun' as <-. rewrite Hrun. simpl.
  assert (Hlen' : length cats' = length (categories st))
    by apply length_updateCategory.
  assert (Hreuse1 : getAllTemplates st1 = (flattenTemplates (categories st), st1)).
  { apply getAllTemplates_reuses; [done|]. simpl. by rewrite Hlen'. }
  rewrite Hreuse1 in Ha2, Hl2. simpl in Ha2, Hl2.
  assert (Hreuse2 : getAllTemplates st2 = (flattenTemplates (categories st), st2)).
  { apply getAllTemplates_reuses; [by rewrite Ha2, Hcache|].
    by rewrite Hl2, Hc2, Hlen, Hlen'. }
  assert (Hst' : (renderTemplateList st2).2 = st2).
  { destruct (renderTemplateList_cases st2) as [Hsame|Hsame]; rewrite Hsame;
      [done|]. by rewrite Hreuse2. }
  rewrite Hst'. exists st2, category'. rewrite Hc2, Hreuse2. simpl.
  split_and!; [done| |done|done|].
  - by apply findCategory_updateCategory.
  - intros Hin. apply Hfresh.
    change (newId ∈ (fun entry => tpl_id entry.1) <$> flattenTemplates (categories st)).
    change (new ∈ fst <$> flattenTemplates (categories st)) in Hin.
    apply list_elem_of_fmap in Hin as (entry & Hentry & Hin).
    apply list_elem_of_fmap. exists entry. by rewrite <- Hentry.
Qed.

Lemma sampleCurrent_fresh :
  "t3" ∉ map (fun entry : TemplateItem * TemplateCategory => tpl_id entry.1)
         (flattenTemplates (categories sampleStore)).
Proof. by apply (bool_decide_unpack _). Qed.

Lemma saved_template_missing_from_all_witness :
  let st := setAllTemplates (Some (flattenTemplates (categories sampleStore))) 2
              sampleStore in
  let new := mkTemplate "t3" "Plane" "z=0" (Some "") in
  exists st' category',
    saveTemplateEntry 5 " Plane" "z=0" "" false "t3" st = Some st' /\
    findCategory (categories st') "lin" = Some category' /\
    templates category' = [mkTemplate "t2" "Line" "y=kx" (Some "slope"); new] /\
    (getAllTemplates st').1 = flattenTemplates (categories st) /\
    new ∉ map fst (getAllTemplates st').1.
Proof.
  apply (saved_template_missing_from_all 5 2 " Plane" "z=0" "" false "t3"
           (mkCategory "lin" "Linear"
              [mkTemplate "t2" "Line" "y=kx" (Some "slope")] (Some "alg"))
           (setAllTemplates (Some (flattenTemplates (categories sampleStore))) 2
              sampleStore)).
  - exact sampleStore_acyclic.
  - lia.
  - reflexivity.
  - done.
  - done.
  - reflexivity.
  - reflexivity.
  - reflexivity.
  - exact sampleCurrent_fresh.
Defined.

End TemplateEditFacts.

(** ** The file bound to the template library *)

Module TemplateBindingFacts.
Import Autosave TemplateImport TemplateTree.

Lemma tryTemplateWrite_throws isTauriEnv content io b b1 message :
  tryTemplateWrite isTauriEnv content io b = inr (b1, message) ->
  b1 = b \/ b1 = recordTemplateWrite content b.
Proof.
  unfold tryTemplateWrite.
  repeat match goal with
         | |- context [if ?c then _ else _] => destruct c
         | |- context [match ?x with _ => _ end] => destruct x
         end; intros [= <- <-] || intros [=]; auto.
Qed.

Lemma tryTemplateWrite_returns isTauriEnv content io b b1 :
  tryTemplateWrite isTauriEnv content io b = inl b1 ->
  b1 = b \/ b1 = recordTemplateWrite content b.
Proof.
  unfold tryTemplateWrite.
  repeat match goal with
         | |- context [if ?c then _ else _] => destruct c
         | |- context [match ?x with _ => _ end] => destruct x
         end; intros [= <-] || intros [=]; auto.
Qed.

(** Without a bound file nothing is written and no interval is started. *)
Lemma template_unbound_step isTauriEnv b ev :
  hasTemplateFile b = false -> templateAutosaveIntervalId b = None ->
  let b' := bindingStep isTauriEnv b ev in
  hasTemplateFile b' = false /\ templateAutosaveIntervalId b' = None /\
  templateWriteAttempts b' = templateWriteAttempts b /\
  templateActiveTimers b' = templateActiveTimers b.
Proof.
  intros Hb Hi. destruct ev as [content io|skip content io]; simpl.
  - unfold saveTemplatesToBoundFile. by rewrite Hb.
  - unfold persistTemplateLibrary. rewrite Hb.
    destruct skip; [done|]. unfold saveTemplatesToBoundFile. by rewrite Hb.
Qed.

Lemma template_unbound_run isTauriEnv events :
  forall b,
    hasTemplateFile b = false -> templateAutosaveIntervalId b = None ->
    let b' := foldl (bindingStep isTauriEnv) b events in
    hasTemplateFile b' = false /\
    templateWriteAttempts b' = templateWriteAttempts b /\
    templateActiveTimers b' = templateActiveTimers b.
Proof.
  induction events as [|ev events IH]; intros b Hb Hi; simpl; [done|].
  destruct (template_unbound_step isTauriEnv b ev Hb Hi) as (Hb' & Hi' & Hw & Ha).
  destruct (IH _ Hb' Hi') as (? & Hw' & Ha').
  split_and!; [done|by rewrite Hw'|by rewrite Ha'].
Qed.

(** X18: when the write of the bound template file throws, or the
    permission to write is denied, the binding is dropped (handle, path and
    name are cleared), the error is reported with the error variant and the
    interval is cleared; from then on neither the interval nor a change of
    the library writes anything or starts a timer. *)
Theorem template_write_failure_unbinds isTauriEnv content io b message :
  templateWriteFailure isTauriEnv content io b = Some message ->
  let b' := saveTemplatesToBoundFile isTauriEnv content io b in
  templateFileHandle b' = None /\ templateFilePath b' = "" /\
  templateFileName b' = "" /\
  templateStatusText b' = "写入模板失败：" +:+ message /\
  templateStatusVariant b' = "error" /\
  templateAutosaveIntervalId b' = None /\
  templateActiveTimers b' =
    templateActiveTimers b ∖
    (match templateAutosaveIntervalId b with Some id => {[ id ]} | None => ∅ end) /\
  forall events,
    let b'' := foldl (bindingStep isTauriEnv) b' events in
    hasTemplateFile b'' = false /\
    templateWriteAttempts b'' = templateWriteAttempts b' /\
    templateActiveTimers b'' = templateActiveTimers b'.
Proof.
  unfold templateWriteFailure, saveTemplatesToBoundFile. intros Hfail.
  destruct (hasTemplateFile b); [|done]. simpl.
  destruct (tryTemplateWrite isTauriEnv content io b) as [|[b1 m]] eqn:Htry;
    [done|].
  injection Hfail as <-.
  assert (Hb1 : templateAutosaveIntervalId b1 = templateAutosaveIntervalId b /\
                templateActiveTimers b1 = templateActiveTimers b).
  { by destruct (tryTemplateWrite_throws _ _ _ _ _ _ Htry) as [-> | ->]. }
  destruct Hb1 as (Hi & Ha).
  assert (Hstop : templateAutosaveIntervalId (stopTemplateAutosave b1) = None).
  { unfold stopTemplateAutosave. by destruct (templateAutosaveIntervalId b1) eqn:E. }
  split_and!; try done.
  - unfold unbindTemplateFile, stopTemplateAutosave. simpl.
    rewrite Hi, Ha. destruct (templateAutosaveIntervalId b); simpl; set_solver.
  - intros events. by apply template_unbound_run.
Qed.

Lemma template_write_failure_unbinds_witness :
  templateWriteFailure true "{}" sampleFailure sampleTemplateBinding =
    Some "disk full" /\
  let b' := saveTemplatesToBoundFile true "{}" sampleFailure sampleTemplateBinding in
  hasTemplateFile b' = false /\
  templateStatusText b' = "写入模板失败：disk full" /\
  templateActiveTimers b' = ∅ /\
  templateWriteAttempts
    (foldl (bindingStep true) b'
       [TemplateIntervalFires "{}" sampleFailure;
        LibraryPersisted false "{}" sampleFailure]) = ["{}"].
Proof.
  split; [reflexivity|].
  destruct (template_write_failure_unbinds true "{}" sampleFailure
              sampleTemplateBinding "disk full" eq_refl)
    as (_ & _ & _ & Htext & _ & _ & Hactive & Hlater).
  destruct (Hlater [TemplateIntervalFires "{}" sampleFailure;
                    LibraryPersisted false "{}" sampleFailure]) as (_ & Hwrites & _).
  split_and!; [reflexivity|exact Htext| |by rewrite Hwrites].
  rewrite Hactive. apply set_eq. intros x. simpl. set_solver.
Defined.

Lemma stopTemplateAutosave_tracked b :
  TemplateTimersTracked b ->
  templateActiveTimers (stopTemplateAutosave b) = ∅ /\
  templateAutosaveIntervalId (stopTemplateAutosave b) = None.
Proof.
  unfold TemplateTimersTracked, stopTemplateAutosave. intros Ht.
  destruct (templateAutosaveIntervalId b) eqn:Hi; simpl; [|by rewrite Hi].
  split; [|done]. rewrite Ht. set_solver.
Qed.

Lemma saveTemplatesToBoundFile_tracked isTauriEnv content io b :
  TemplateTimersTracked b ->
  TemplateTimersTracked (saveTemplatesToBoundFile isTauriEnv content io b).
Proof.
  intros Ht. unfold saveTemplatesToBoundFile.
  destruct (hasTemplateFile b); [|done]. simpl.
  destruct (tryTemplateWrite isTauriEnv content io b) as [b1|[b1 m]] eqn:Htry.
  - by destruct (tryTemplateWrite_returns _ _ _ _ _ Htry) as [-> | ->].
  - assert (Ht1 : TemplateTimersTracked b1)
      by (by destruct (tryTemplateWrite_throws _ _ _ _ _ _ Htry) as [-> | ->]).
    destruct (stopTemplateAutosave_tracked b1 Ht1) as [Ha Hi].
    unfold TemplateTimersTracked, unbindTemplateFile. simpl. by rewrite Ha, Hi.
Qed.

Lemma startTemplateAutosave_tracked b :
  TemplateTimersTracked b -> TemplateTimersTracked (startTemplateAutosave b).
Proof.
  intros Ht. destruct (stopTemplateAutosave_tracked b Ht) as [Ha Hi].
  unfold startTemplateAutosave, TemplateTimersTracked.
  destruct (negb _); simpl; [by rewrite Ha, Hi|]. rewrite Ha. set_solver.
Qed.

(** X19: at most one interval of the template autosave runs: if the only
    running timer is the one that the program remembers, this stays so
    whenever the interval fires or the library is persisted, whether the
    writes succeed or fail. *)
Theorem template_interval_is_single isTauriEnv events b :
  TemplateTimersTracked b ->
  TemplateTimersTracked (foldl (bindingStep isTauriEnv) b events).
Proof.
  revert b. induction events as [|ev events IH]; intros b Ht; simpl; [done|].
  apply IH. destruct ev as [content io|skip content io]; simpl.
  - by apply saveTemplatesToBoundFile_tracked.
  - unfold persistTemplateLibrary.
    assert (Ht1 : TemplateTimersTracked
                    (if hasTemplateFile b then startTemplateAutosave b else b)).
    { destruct (hasTemplateFile b); [by apply startTemplateAutosave_tracked|done]. }
    destruct skip; [done|]. by apply saveTemplatesToBoundFile_tracked.
Qed.

Lemma template_interval_is_single_witness :
  TemplateTimersTracked
    (foldl (bindingStep true) sampleTemplateBinding
       [LibraryPersisted false "{}" (mkOutcome granted None);
        LibraryPersisted true "{}" (mkOutcome granted None);
        TemplateIntervalFires "{}" sampleFailure]).
Proof.
  apply (template_interval_is_single true _ sampleTemplateBinding).
  reflexivity.
Defined.

End TemplateBindingFacts.

(** ** The formula list and the actions on it *)

Module EditorFacts.
Import Formulas MemoryOptimizer Editor MemoryFacts WindowFacts AutosaveFacts.

Ltac unfold_app :=
  unfold schedule, exitEditMode, enterEditMode, renderFormulaList,
    renderFormulaListStandard, dropVirtualList, withFormulaState,
    withSearchTerm, withVirtualList, withContainer, withStringCache,
    withAutosave, withTemplateLibrary in *.

Lemma foldl_max_index l :
  forall m,
    (m <= foldl (fun m entry => Z.max m (f_index entry)) m l)%Z /\
    Forall (fun item =>
              (f_index item <= foldl (fun m entry => Z.max m (f_index entry)) m l)%Z)
           l.
Proof.
  induction l as [|x l IH]; intros m; simpl; [by split; [lia|constructor]|].
  destruct (IH (Z.max m (f_index x))) as [Hm Hall].
  split; [lia|]. constructor; [lia|done].
Qed.

Lemma applyImportedFormulas_indices sanitized silent fs :
  IndicesBelowNext (applyImportedFormulas sanitized silent fs).2.
Proof.
  unfold applyImportedFormulas, IndicesBelowNext. simpl.
  destruct (foldl_max_index sanitized 0) as [Hm Hall].
  set (maxIndex := foldl _ _ _) in *. clearbody maxIndex.
  rewrite decide_False by lia.
  split; [lia|]. eapply Forall_impl; [exact Hall|]. simpl. intros; lia.
Qed.

Lemma importJsonText_state env ids parsed silent fs :
  (importJsonText env ids parsed silent fs).2 = fs \/
  exists sanitized,
    (importJsonText env ids parsed silent fs).2 =
      (applyImportedFormulas sanitized silent fs).2 /\
    (importJsonText env ids parsed silent fs).1 =
      Imported (applyImportedFormulas sanitized silent fs).1.
Proof.
  unfold importJsonText.
  destruct env as [|[message|sanitized]]; [|by left|right; by exists sanitized].
  destruct parsed as [message|value]; [by left|].
  destruct value; try (left; by destruct (Js.truthyJson _)).
  right. by eexists.
Qed.

Lemma importJsonText_failed env ids parsed silent fs message :
  (importJsonText env ids parsed silent fs).1 = ImportFailed message ->
  (importJsonText env ids parsed silent fs).2 = fs.
Proof.
  unfold importJsonText.
  destruct env as [|[m|sanitized]]; [|done|done].
  destruct parsed as [m|value]; [done|].
  destruct value; try (by destruct (Js.truthyJson _)). done.
Qed.

Lemma prefix_append a :
  forall q b, String.prefix q a = true -> String.prefix q (a +:+ b) = true.
Proof.
  induction a as [|c' a IH]; intros q b.
  - destruct q; [|done]. intros _. by destruct b.
  - change (String c' a +:+ b) with (String c' (a +:+ b)).
    destruct q as [|c q]; [done|]. simpl.
    destruct (ascii_dec c c'); [apply IH|done].
Qed.

Lemma includes_append_l a b q :
  Js.includes a q = true -> Js.includes (a +:+ b) q = true.
Proof.
  induction a as [|c a IH].
  - simpl. rewrite orb_false_r. intros Hq. destruct q; [|done]. by destruct b.
  - change (String c a +:+ b) with (String c (a +:+ b)).
    simpl. intros [Hp|Hi]%orb_true_iff; apply orb_true_iff.
    + left. by apply (prefix_append (String c a) q b).
    + right. by apply IH.
Qed.

Lemma includes_append_r a b q :
  Js.includes b q = true -> Js.includes (a +:+ b) q = true.
Proof.
  intros Hb. induction a as [|c a IH]; [done|].
  change (String c a +:+ b) with (String c (a +:+ b)).
  simpl. apply orb_true_iff. by right.
Qed.

Lemma toLowerCase_append a b :
  Js.toLowerCase (a +:+ b) = Js.toLowerCase a +:+ Js.toLowerCase b.
Proof.
  induction a as [|c a IH]; [done|].
  change (String c a +:+ b) with (String c (a +:+ b)). simpl.
  by rewrite IH.
Qed.


Lemma stopAutoSave_tracked a :
  TimersTracked a ->
  Autosave.activeTimers (Autosave.stopAutoSave a) = ∅ /\
  Autosave.autosaveIntervalId (Autosave.stopAutoSave a) = None /\
  Autosave.autosaveDebounceId (Autosave.stopAutoSave a) = None /\
  Autosave.nextTimer (Autosave.stopAutoSave a) = Autosave.nextTimer a.
Proof.
  intros (Hact & _ & _). unfold Autosave.stopAutoSave. simpl.
  split_and!; [|done..]. rewrite Hact. unfold Autosave.referencedTimers.
  destruct (Autosave.autosaveIntervalId a), (Autosave.autosaveDebounceId a);
    set_solver.
Qed.

Lemma tracked_of_cleared a :
  Autosave.activeTimers a = ∅ -> Autosave.autosaveIntervalId a = None ->
  Autosave.autosaveDebounceId a = None -> TimersTracked a.
Proof.
  intros Hact Hi Hd. unfold TimersTracked, Autosave.referencedTimers.
  rewrite Hact, Hi, Hd. split_and!; [set_solver|set_solver|done].
Qed.

Lemma unbindAutosaveFile_tracked message variant a :
  TimersTracked a -> TimersTracked (Autosave.unbindAutosaveFile message variant a).
Proof.
  intros Ht. destruct (stopAutoSave_tracked a Ht) as (Hact & Hi & Hd & _).
  by apply tracked_of_cleared.
Qed.

Lemma scheduleAutosave_tracked a :
  TimersTracked a -> TimersTracked (Autosave.scheduleAutosave a).
Proof.
  intros (Hact & Hfresh & Hdist). unfold Autosave.scheduleAutosave.
  destruct (negb (Autosave.hasBoundFile a)); [done|].
  unfold TimersTracked, Autosave.referencedTimers in *. simpl.
  destruct (Autosave.autosaveIntervalId a) as [i|] eqn:Hi,
           (Autosave.autosaveDebounceId a) as [d|] eqn:Hd; rewrite Hact.
  - assert (i <> d) by (intros ->; by apply (Hdist d)).
    assert (i < Autosave.nextTimer a)%positive by (apply Hfresh; set_solver).
    split_and!; [set_solver| |intros ? [= <-] [= ?]; lia].
    intros id Hid. assert (id = i \/ id = Autosave.nextTimer a) as [->| ->]
      by set_solver; lia.
  - assert (i < Autosave.nextTimer a)%positive by (apply Hfresh; set_solver).
    split_and!; [set_solver| |intros ? [= <-] [= ?]; lia].
    intros id Hid. assert (id = i \/ id = Autosave.nextTimer a) as [->| ->]
      by set_solver; lia.
  - split_and!; [set_solver| |done].
    intros id Hid. assert (id = Autosave.nextTimer a) as -> by set_solver. lia.
  - split_and!; [set_solver| |done].
    intros id Hid. assert (id = Autosave.nextTimer a) as -> by set_solver. lia.
Qed.

Lemma startAutoSave_tracked extractFileName a :
  TimersTracked a -> TimersTracked (Autosave.startAutoSave extractFileName a).
Proof.
  intros Ht. destruct (stopAutoSave_tracked a Ht) as (Hact & Hi & Hd & Hn).
  unfold Autosave.startAutoSave.
  set (st1 := Autosave.stopAutoSave a) in *. clearbody st1.
  destruct (negb (Autosave.hasBoundFile st1)).
  - by apply tracked_of_cleared.
  - unfold TimersTracked, Autosave.referencedTimers. simpl.
    rewrite Hact, Hd. split_and!; [set_solver| |done].
    intros id Hid. assert (id = Autosave.nextTimer st1) as -> by set_solver.
    lia.
Qed.

Lemma saveToBoundFile_tracked extractFileName content now timeText io a :
  TimersTracked a ->
  TimersTracked (Autosave.saveToBoundFile extractFileName content now timeText io a).
Proof.
  intros Ht. unfold Autosave.saveToBoundFile.
  destruct (negb (Autosave.hasBoundFile a)); [done|].
  destruct (Autosave.tryWrite content io a) as [a1|[a1 message]] eqn:Hw.
  - assert (a1 = a \/ a1 = Autosave.recordWrite content a) as [->| ->]; [|done..].
    unfold Autosave.tryWrite in Hw.
    repeat (case_match; simplify_eq); ((by left) || (by right)).
  - apply unbindAutosaveFile_tracked.
    by destruct (tryWrite_throws _ _ _ _ _ Hw) as [->| ->].
Qed.

Section Host.
Context (viewportScrollTop viewportHeight : Q).
Context (stringify : list FormulaItem -> string).

#[local] Abbreviation renderFormulaList := (renderFormulaList viewportScrollTop viewportHeight).
#[local] Abbreviation exitEditMode := (exitEditMode viewportScrollTop viewportHeight).
#[local] Abbreviation addFormula := (addFormula viewportScrollTop viewportHeight).
#[local] Abbreviation removeFormula := (removeFormula viewportScrollTop viewportHeight).
#[local] Abbreviation clearAll := (clearAll viewportScrollTop viewportHeight).
#[local] Abbreviation startNewFormulaSet := (startNewFormulaSet viewportScrollTop viewportHeight).
#[local] Abbreviation importJson := (importJson viewportScrollTop viewportHeight).
#[local] Abbreviation importJsonViaTauri := (importJsonViaTauri viewportScrollTop viewportHeight stringify).
#[local] Abbreviation act := (act viewportScrollTop viewportHeight stringify).
#[local] Abbreviation run := (run viewportScrollTop viewportHeight stringify).
#[local] Abbreviation initialApp := (initialApp viewportScrollTop viewportHeight).

(** What a render leaves alone. *)
Lemma renderFormulaList_keeps app :
  formulaState (renderFormulaList app) = formulaState app /\
  formulaSearchTerm (renderFormulaList app) = formulaSearchTerm app /\
  stringCache (renderFormulaList app) = stringCache app /\
  autosave (renderFormulaList app) = autosave app /\
  templateLibrary (renderFormulaList app) = templateLibrary app.
Proof.
  unfold_app. repeat case_match; simpl; done.
Qed.

Lemma fs_render app : formulaState (renderFormulaList app) = formulaState app.
Proof. apply renderFormulaList_keeps. Qed.

Lemma strings_render app : stringCache (renderFormulaList app) = stringCache app.
Proof. apply renderFormulaList_keeps. Qed.

Lemma autosave_render app : autosave (renderFormulaList app) = autosave app.
Proof. apply renderFormulaList_keeps. Qed.

Lemma library_render app :
  templateLibrary (renderFormulaList app) = templateLibrary app.
Proof. apply renderFormulaList_keeps. Qed.

Lemma search_render app :
  formulaSearchTerm (renderFormulaList app) = formulaSearchTerm app.
Proof. apply renderFormulaList_keeps. Qed.

Lemma fs_exit skipRender app :
  formulaState (exitEditMode skipRender app) =
    if Js.truthy (editingId (formulaState app))
    then setEditingId None (formulaState app) else formulaState app.
Proof.
  unfold Editor.exitEditMode.
  destruct (Js.truthy (editingId (formulaState app))); [|done].
  destruct skipRender; [done|]. by rewrite fs_render.
Qed.

Lemma strings_exit skipRender app :
  stringCache (exitEditMode skipRender app) = stringCache app.
Proof.
  unfold Editor.exitEditMode.
  destruct (Js.truthy (editingId (formulaState app))); [|done].
  destruct skipRender; [done|]. by rewrite strings_render.
Qed.

Lemma autosave_exit skipRender app :
  autosave (exitEditMode skipRender app) = autosave app.
Proof.
  unfold Editor.exitEditMode.
  destruct (Js.truthy (editingId (formulaState app))); [|done].
  destruct skipRender; [done|]. by rewrite autosave_render.
Qed.

Lemma library_exit skipRender app :
  templateLibrary (exitEditMode skipRender app) = templateLibrary app.
Proof.
  unfold Editor.exitEditMode.
  destruct (Js.truthy (editingId (formulaState app))); [|done].
  destruct skipRender; [done|]. by rewrite library_render.
Qed.

(** The state of the formulas after [addFormula], read off its two
    branches; [cachedLatex] and [cachedNote] are what the string cache
    answered. *)
Lemma fs_addFormula latex noteInput newId app :
  latex <> "" ->
  let fs := formulaState app in
  let strings1 := (intern latex (stringCache app)).2 in
  let cachedLatex := (intern latex (stringCache app)).1 in
  let cachedNote :=
    if decide (Js.trim noteInput = "") then ""
    else (intern (Js.trim noteInput) strings1).1 in
  formulaState (addFormula latex noteInput newId app) =
    if Js.truthy (editingId fs) then
      setEditingId None
        (setFormulas
           (map (fun item =>
                   if decide (Some (f_id item) = editingId fs)
                   then mkFormula (f_id item) (f_index item) cachedLatex
                          (Some cachedNote)
                   else item)
                (formulas fs)) fs)
    else
      setNextIndex (nextIndex fs + 1)
        (setFormulas
           (formulas fs ++
            [mkFormula newId (nextIndex fs) cachedLatex (Some cachedNote)]) fs).
Proof.
  intros Hlatex. simpl. unfold Editor.addFormula.
  rewrite decide_False by done.
  destruct (intern latex (stringCache app)) as [cachedLatex strings1] eqn:Hi1.
  simpl.
  destruct (decide (Js.trim noteInput = "")) as [Hnote|Hnote].
  - simpl. destruct (Js.truthy (editingId (formulaState app))) eqn:Hed.
    + rewrite fs_exit. simpl. by rewrite Hed.
    + simpl. by rewrite fs_render.
  - destruct (intern (Js.trim noteInput) strings1) as [cachedNote strings2] eqn:Hi2.
    simpl. destruct (Js.truthy (editingId (formulaState app))) eqn:Hed.
    + rewrite fs_exit. simpl. by rewrite Hed.
    + simpl. by rewrite fs_render.
Qed.

Lemma fs_removeFormula id app :
  let fs := formulaState app in
  let kept := List.filter (fun item => bool_decide (f_id item ≠ id)) (formulas fs) in
  formulaState (removeFormula id app) =
    if bool_decide (editingId fs = Some id) && Js.truthy (editingId fs)
    then setEditingId None (setFormulas kept fs)
    else setFormulas kept fs.
Proof.
  simpl. unfold Editor.removeFormula.
  destruct (bool_decide (editingId (formulaState app) = Some id)); simpl.
  - rewrite fs_exit. simpl. rewrite fs_render. simpl.
    by destruct (Js.truthy (editingId (formulaState app))).
  - by rewrite fs_render.
Qed.

Lemma fs_clearAll confirmed app :
  formulaState (clearAll confirmed app) = formulaState app \/
  (formulas (formulaState app) <> [] /\ confirmed = true /\
   formulas (formulaState (clearAll confirmed app)) = [] /\
   nextIndex (formulaState (clearAll confirmed app)) = 1%Z /\
   Js.truthy (editingId (formulaState (clearAll confirmed app))) = false).
Proof.
  unfold Editor.clearAll.
  destruct (formulas (formulaState app)) as [|f l] eqn:Hf; [by left|].
  destruct confirmed; [|by left]. right. simpl.
  rewrite fs_render, fs_exit. simpl.
  split_and!; [done|done|..];
    destruct (Js.truthy (editingId (formulaState app))) eqn:Hed; simpl; done.
Qed.

Lemma fs_startNewFormulaSet confirmed app :
  formulaState (startNewFormulaSet confirmed app) = formulaState app \/
  (formulas (formulaState (startNewFormulaSet confirmed app)) = [] /\
   nextIndex (formulaState (startNewFormulaSet confirmed app)) = 1%Z /\
   Js.truthy (editingId (formulaState (startNewFormulaSet confirmed app))) = false).
Proof.
  unfold Editor.startNewFormulaSet.
  destruct (_ && _); [by left|]. right. simpl.
  rewrite fs_render, fs_exit. simpl.
  split_and!;
    destruct (Js.truthy (editingId (formulaState app))) eqn:Hed; simpl; done.
Qed.

Lemma fs_importJson env ids parsed silent app :
  formulaState (importJson env ids parsed silent app).2 =
  (importJsonText env ids parsed silent (formulaState app)).2.
Proof.
  unfold Editor.importJson.
  destruct (importJsonText env ids parsed silent (formulaState app))
    as [result fs] eqn:Himp.
  destruct result as [alerted|message]; simpl.
  - by rewrite fs_render.
  - pose proof (importJsonText_failed env ids parsed silent (formulaState app) message)
      as H. rewrite Himp in H. simpl in H. symmetry. by apply H.
Qed.

Lemma fs_importJsonViaTauri filePath read host ids parsed now timeText io app :
  formulaState
    (importJsonViaTauri filePath read host ids parsed now timeText io app).2 =
    formulaState app \/
  formulaState
    (importJsonViaTauri filePath read host ids parsed now timeText io app).2 =
    (importJsonText (Tauri host) ids parsed true (formulaState app)).2.
Proof.
  unfold Editor.importJsonViaTauri.
  destruct (negb (Js.truthy filePath)); [by left|].
  destruct read as [m|u]; [by left|].
  pose proof (fs_importJson (Tauri host) ids parsed true app) as H.
  destruct (importJson (Tauri host) ids parsed true app) as [result app1].
  simpl in H. right. by destruct result.
Qed.

(** The state of the formulas after an action: unchanged, or one of the
    changes that the actions make. *)
Lemma act_indices app a :
  IndicesBelowNext (formulaState app) ->
  IndicesBelowNext (formulaState (act app a)).
Proof.
  intros [Hnext Hall]. destruct a; simpl.
  - (* addFormula *)
    destruct (decide (latex = "")) as [->|Hlatex].
    { unfold Editor.addFormula. by rewrite decide_True. }
    rewrite fs_addFormula by done.
    destruct (Js.truthy (editingId (formulaState app))); split; simpl; try lia.
    + apply Forall_fmap. eapply Forall_impl; [exact Hall|]. simpl.
      intros item Hitem. by destruct (decide _).
    + apply Forall_app. split.
      * eapply Forall_impl; [exact Hall|]. simpl. intros; lia.
      * constructor; [simpl; lia|constructor].
  - unfold onEditClick. destruct (decide (id = "")); [done|].
    destruct (List.find _ _); [|done]. unfold Editor.enterEditMode.
    by rewrite fs_render.
  - unfold onResetClick. rewrite fs_exit. by destruct (Js.truthy _).
  - unfold onRemoveClick. destruct (decide (id = "")); [done|].
    rewrite fs_removeFormula.
    assert (Forall (fun item => (f_index item < nextIndex (formulaState app))%Z)
              (List.filter (fun item => bool_decide (f_id item ≠ id))
                 (formulas (formulaState app)))) as Hkept.
    { apply Forall_forall. intros item Hin%list_elem_of_In.
      apply filter_In in Hin as [Hin%list_elem_of_In _].
      by apply (proj1 (Forall_forall _ _) Hall). }
    by destruct (_ && _).
  - destruct (fs_clearAll confirmed app) as [->|(_ & _ & Hf & Hn & _)]; [done|].
    split; [lia|]. rewrite Hf. constructor.
  - destruct (fs_startNewFormulaSet confirmed app) as [->|(Hf & Hn & _)]; [done|].
    split; [lia|]. rewrite Hf. constructor.
  - unfold onSearchInput. by rewrite fs_render.
  - rewrite fs_importJson.
    destruct (importJsonText_state env ids parsed silent (formulaState app))
      as [->|(sanitized & -> & _)]; [done|].
    apply applyImportedFormulas_indices.
  - destruct (fs_importJsonViaTauri filePath read host ids parsed now timeText io app)
      as [->| ->]; [done|].
    destruct (importJsonText_state (Tauri host) ids parsed true (formulaState app))
      as [->|(sanitized & -> & _)]; [done|].
    apply applyImportedFormulas_indices.
  - done.
  - unfold onListScroll. by destruct (formulaVirtualList app).
Qed.

Lemma act_edited app a :
  EditedExists (formulaState app) ->
  EditedExists (formulaState (act app a)).
Proof.
  intros Hed. destruct a; simpl.
  - destruct (decide (latex = "")) as [->|Hlatex].
    { unfold Editor.addFormula. by rewrite decide_True. }
    rewrite fs_addFormula by done.
    destruct (Js.truthy (editingId (formulaState app))); [done|].
    intros id Hid Hne. simpl in *. destruct (Hed id Hid Hne) as (item & Hin & Hitem).
    exists item. split; [|done]. apply elem_of_app. by left.
  - unfold onEditClick. destruct (decide (id = "")); [done|].
    destruct (List.find _ _) as [formula|] eqn:Hfind; [|done].
    unfold Editor.enterEditMode. rewrite fs_render. simpl.
    intros id' [= <-] _. apply find_some in Hfind as [Hin _].
    exists formula. split; [by apply list_elem_of_In|done].
  - unfold onResetClick. rewrite fs_exit. by destruct (Js.truthy _).
  - unfold onRemoveClick. destruct (decide (id = "")); [done|].
    rewrite fs_removeFormula.
    destruct (bool_decide (editingId (formulaState app) = Some id) &&
              Js.truthy (editingId (formulaState app))) eqn:Hcur; [done|].
    intros e He Hne. simpl in *. destruct (Hed e He Hne) as (item & Hin & Hitem).
    exists item. split; [|done].
    apply list_elem_of_In, filter_In. split; [by apply list_elem_of_In|].
    apply bool_decide_eq_true. intros Heq. rewrite He in Hcur.
    subst e id. simpl in Hcur.
    rewrite (bool_decide_eq_true_2 (Some (f_id item) = Some (f_id item)))
      in Hcur by done.
    by rewrite bool_decide_eq_true_2 in Hcur.
  - destruct (fs_clearAll confirmed app) as [->|(_ & _ & _ & _ & Hf)]; [done|].
    intros id Hid Hne. rewrite Hid in Hf. simpl in Hf.
    by rewrite bool_decide_eq_true_2 in Hf.
  - destruct (fs_startNewFormulaSet confirmed app) as [->|(_ & _ & Hf)]; [done|].
    intros id Hid Hne. rewrite Hid in Hf. simpl in Hf.
    by rewrite bool_decide_eq_true_2 in Hf.
  - unfold onSearchInput. by rewrite fs_render.
  - rewrite fs_importJson.
    by destruct (importJsonText_state env ids parsed silent (formulaState app))
      as [->|(sanitized & -> & _)].
  - destruct (fs_importJsonViaTauri filePath read host ids parsed now timeText io app)
      as [->| ->]; [done|].
    by destruct (importJsonText_state (Tauri host) ids parsed true (formulaState app))
      as [->|(sanitized & -> & _)].
  - done.
  - unfold onListScroll. by destruct (formulaVirtualList app).
Qed.

Lemma strings_importJson env ids parsed silent app :
  stringCache (importJson env ids parsed silent app).2 = stringCache app.
Proof.
  unfold Editor.importJson.
  destruct (importJsonText env ids parsed silent (formulaState app)) as [[|] fs];
    simpl; [by rewrite strings_render|done].
Qed.

Lemma act_strings app a : StringsOk app -> StringsOk (act app a).
Proof.
  intros [Hmax Hok]. destruct a; simpl; try done.
  - unfold Editor.addFormula. destruct (decide (latex = "")); [done|].
    destruct (intern_ok latex (stringCache app) Hmax Hok) as (Hok1 & Hmax1 & _).
    destruct (intern latex (stringCache app)) as [cachedLatex strings1].
    simpl in *.
    assert (StringsOk (withStringCache
              (if decide (Js.trim noteInput = "") then ("", strings1)
               else intern (Js.trim noteInput) strings1).2 app)) as Hok2.
    { destruct (decide (Js.trim noteInput = "")); simpl.
      - split; simpl; [lia|done].
      - destruct (intern_ok (Js.trim noteInput) strings1) as (? & ? & _);
          [lia|done|]. split; simpl; [lia|done]. }
    destruct (if decide (Js.trim noteInput = "") then ("", strings1)
              else intern (Js.trim noteInput) strings1) as [cachedNote strings2].
    simpl in *.
    destruct (Js.truthy _); unfold StringsOk.
    + by rewrite strings_exit.
    + simpl. by rewrite strings_render.
  - unfold onEditClick. destruct (decide (id = "")); [done|].
    destruct (List.find _ _); [|done]. unfold Editor.enterEditMode, StringsOk.
    by rewrite strings_render.
  - unfold onResetClick, StringsOk. by rewrite strings_exit.
  - unfold onRemoveClick. destruct (decide (id = "")); [done|].
    unfold Editor.removeFormula, StringsOk.
    destruct (bool_decide _); [rewrite strings_exit|]; simpl;
      by rewrite strings_render.
  - unfold Editor.clearAll. destruct (formulas (formulaState app)); [done|].
    destruct confirmed; [|done]. split; simpl.
    + by rewrite strings_render, strings_exit.
    + split; [constructor|]. simpl. rewrite strings_render, strings_exit.
      simpl. lia.
  - unfold Editor.startNewFormulaSet, StringsOk. destruct (_ && _); [done|].
    simpl. by rewrite strings_render, strings_exit.
  - unfold onSearchInput, StringsOk. by rewrite strings_render.
  - unfold StringsOk. by rewrite strings_importJson.
  - unfold Editor.importJsonViaTauri, StringsOk.
    destruct (negb (Js.truthy filePath)); [done|]. destruct read; [done|].
    pose proof (strings_importJson (Tauri host) ids parsed true app) as H.
    destruct (importJson (Tauri host) ids parsed true app) as [[|] app1];
      simpl in *; by rewrite H.
  - unfold onListScroll. by destruct (formulaVirtualList app).
Qed.

Lemma run_invariant (P : App -> Prop) actions :
  (forall app a, P app -> P (act app a)) ->
  forall app, P app -> P (run app actions).
Proof.
  intros Hstep. unfold Editor.run.
  induction actions as [|a actions IH]; intros app Happ; simpl; [done|].
  by apply IH, Hstep.
Qed.

Lemma initialApp_state :
  formulaState initialApp = mkFormulaState [] 1 None /\
  stringCache initialApp = newStringCache None.
Proof. unfold Editor.initialApp. by rewrite fs_render, strings_render. Qed.


(** X22: whatever the user does, the formula that is being edited is one
    of the stored formulas. *)
Theorem edited_formula_is_stored actions :
  EditedExists (formulaState (run initialApp actions)).
Proof.
  apply (run_invariant (fun app => EditedExists (formulaState app)));
    [apply act_edited|].
  destruct initialApp_state as [-> _]. by intros id.
Qed.

Lemma run_strings actions : StringsOk (run initialApp actions).
Proof.
  apply (run_invariant StringsOk); [apply act_strings|].
  unfold StringsOk. destruct initialApp_state as [_ ->].
  split; simpl; [lia|]. split; [constructor|simpl; lia].
Qed.


(** X24: in any state that the application reaches, saving while a
    formula is being edited gives the text entered and the trimmed note to
    the formulas of that identifier and to no other, keeps the number, the
    order, the identifiers and the indices of the formulas, leaves edit mode,
    and does not touch what the list shows. *)
Theorem addFormula_saves_edit actions latex noteInput newId id :
  latex <> "" -> id <> "" ->
  let app := run initialApp actions in
  editingId (formulaState app) = Some id ->
  let app' := addFormula latex noteInput newId app in
  map f_id (formulas (formulaState app')) = map f_id (formulas (formulaState app)) /\
  map f_index (formulas (formulaState app')) =
    map f_index (formulas (formulaState app)) /\
  (forall i item,
     formulas (formulaState app) !! i = Some item ->
     formulas (formulaState app') !! i =
       Some (if decide (f_id item = id)
             then mkFormula id (f_index item) latex (Some (Js.trim noteInput))
             else item)) /\
  editingId (formulaState app') = None /\
  nextIndex (formulaState app') = nextIndex (formulaState app) /\
  formulaList app' = formulaList app /\
  formulaVirtualList app' = formulaVirtualList app.
Proof.
  intros Hlatex Hid app Hed app'.
  destruct (run_strings actions) as [Hmax Hok]. fold app in Hmax, Hok.
  destruct (intern_ok latex (stringCache app) Hmax Hok) as (Hok1 & Hmax1 & Hl & _).
  assert ((if decide (Js.trim noteInput = "") then ""
           else (intern (Js.trim noteInput) (intern latex (stringCache app)).2).1)
          = Js.trim noteInput) as Hn.
  { destruct (decide (Js.trim noteInput = "")) as [->|Hnote]; [done|].
    by destruct (intern_ok (Js.trim noteInput) (intern latex (stringCache app)).2)
      as (_ & _ & -> & _); [lia|done|]. }
  assert (Js.truthy (editingId (formulaState app)) = true) as Htruthy.
  { rewrite Hed. simpl. by apply bool_decide_eq_true. }
  assert (formulaList app' = formulaList app /\
          formulaVirtualList app' = formulaVirtualList app) as [Hlist Hvl].
  { subst app'. unfold Editor.addFormula. rewrite decide_False by done.
    destruct (intern latex (stringCache app)) as [c1 s1].
    destruct (if decide (Js.trim noteInput = "") then ("", s1)
              else intern (Js.trim noteInput) s1) as [c2 s2].
    simpl. rewrite Htruthy. unfold Editor.exitEditMode. simpl.
    by rewrite Htruthy. }
  subst app'. rewrite fs_addFormula by done. rewrite Htruthy, Hl, Hn, Hed. simpl.
  assert (forall i item,
            formulas (formulaState app) !! i = Some item ->
            map (fun item0 =>
                   if decide (Some (f_id item0) = Some id)
                   then mkFormula (f_id item0) (f_index item0) latex
                          (Some (Js.trim noteInput))
                   else item0) (formulas (formulaState app)) !! i =
            Some (if decide (f_id item = id)
                  then mkFormula id (f_index item) latex (Some (Js.trim noteInput))
                  else item)) as Hlookup.
  { intros i item Hi. change (map ?f ?l) with (f <$> l).
    rewrite list_lookup_fmap, Hi. simpl.
    destruct (decide (f_id item = id)) as [<-|Hne].
    - by rewrite decide_True.
    - rewrite decide_False; [done|]. by intros [= ?]. }
  split_and!; try done.
  - rewrite map_map. apply map_ext. intros item. simpl.
    by destruct (decide (Some (f_id item) = Some id)).
  - rewrite map_map. apply map_ext. intros item. simpl.
    by destruct (decide (Some (f_id item) = Some id)).
Qed.


Lemma renderFormulaList_consistent app :
  ListConsistent app -> ListConsistent (renderFormulaList app).
Proof.
  intros Hcons. unfold ListConsistent, Editor.renderFormulaList in *.
  set (fl := List.filter _ (formulas (formulaState app))) in *. clearbody fl.
  remember (VIRTUAL_LIST_THRESHOLD <=? length fl)%nat as should eqn:Hlen.
  clear Hlen.
  destruct app as [fs term enabled vl c sc a lib]. simpl in *.
  destruct c as [h cs v]. simpl in *.
  destruct (bool_decide (fl = []) && bool_decide (formulas fs ≠ [])).
  { destruct vl; destruct_and!; subst; simpl; by split_and!. }
  destruct (bool_decide (formulas fs = [])).
  { destruct vl; destruct_and!; subst; simpl; by split_and!. }
  destruct should; simpl;
    destruct vl as [vl|]; destruct_and!; subst; simpl; split_and!; try done.
  by destruct h.
Qed.

(** The virtual list that a render leaves, if any, is the former one or a
    new one, given the filtered formulas. *)
Lemma renderFormulaList_list app vl' :
  ListConsistent app ->
  formulaVirtualList (renderFormulaList app) = Some vl' ->
  exists vl0,
    vl' = VirtualList.updateItems (map asItem (filtered app)) vl0 /\
    (formulaVirtualList app = Some vl0 \/
     vl0 = VirtualList.create (map asItem (filtered app)) 180 (Some 5%Z)
             renderCard viewportScrollTop viewportHeight).
Proof.
  intros Hcons. unfold ListConsistent, filtered, Editor.renderFormulaList in *.
  set (fl := List.filter _ (formulas (formulaState app))) in *. clearbody fl.
  remember (VIRTUAL_LIST_THRESHOLD <=? length fl)%nat as should eqn:Hlen.
  clear Hlen.
  destruct app as [fs term enabled vl c sc a lib]. simpl in *.
  destruct c as [h cs v]. simpl in *.
  destruct (bool_decide (fl = []) && bool_decide (formulas fs ≠ [])).
  { by destruct vl; destruct_and!; subst; simpl. }
  destruct (bool_decide (formulas fs = [])).
  { by destruct vl; destruct_and!; subst; simpl. }
  destruct should; simpl;
    destruct vl as [vl|]; destruct_and!; subst; simpl; try done;
    intros [= <-]; eexists; (split; [done|]); ((by left) || (by right)).
Qed.

Lemma filtered_within app item :
  item ∈ filtered app -> item ∈ formulas (formulaState app).
Proof.
  unfold filtered. intros Hin%list_elem_of_In%filter_In.
  by apply list_elem_of_In, Hin.
Qed.

Lemma renderFormulaList_windowed app :
  0 <= viewportScrollTop -> 0 <= viewportHeight ->
  ListConsistent app -> ListSized app ->
  ListSized (renderFormulaList app) /\ Windowed (renderFormulaList app).
Proof.
  intros Hst Hh Hcons Hsized.
  assert (forall vl', formulaVirtualList (renderFormulaList app) = Some vl' ->
            exists vl1,
              vl' = VirtualList.render (VirtualList.updateVisibleRange vl1) /\
              VirtualList.items vl1 = map asItem (filtered app) /\
              VirtualList.itemHeight vl1 = 180 /\
              VirtualList.bufferSize vl1 = 5%Z /\
              0 <= VirtualList.scrollTop vl1 /\
              0 <= VirtualList.clientHeight vl1) as Hshape.
  { intros vl' Hvl'.
    destruct (renderFormulaList_list app vl' Hcons Hvl') as (vl0 & -> & [Hold| ->]).
    - destruct (Hsized vl0 Hold) as (? & ? & ? & ?).
      by exists (VirtualList.setItems (map asItem (filtered app)) vl0).
    - eexists. split; [reflexivity|]. by split_and!. }
  split.
  - intros vl' Hvl'. destruct (Hshape vl' Hvl') as (vl1 & -> & _ & ? & ? & ? & ?).
    by split_and!.
  - intros vl' Hvl'.
    destruct (Hshape vl' Hvl') as (vl1 & -> & Hitems & Hih & Hbuf & Hs1 & Hc1).
    destruct (refresh_dom_within vl1) as [Hdom Hsize]; [by rewrite Hih|done..| |].
    { by rewrite Hbuf. }
    change (VirtualList.items (VirtualList.render (VirtualList.updateVisibleRange vl1)))
      with (VirtualList.items vl1).
    change (VirtualList.clientHeight
              (VirtualList.render (VirtualList.updateVisibleRange vl1)))
      with (VirtualList.clientHeight vl1).
    rewrite fs_render. split_and!; [|done|].
    + rewrite Hitems. intros id. change (map ?f ?l) with (f <$> l).
      rewrite !list_elem_of_fmap. intros (x & -> & (f & -> & Hf)%list_elem_of_fmap).
      exists f. split; [done|]. by apply filtered_within.
    + rewrite Hih, Hbuf in Hsize. lia.
Qed.

Section Geometry.
Hypothesis scrollTop_nonneg : 0 <= viewportScrollTop.
Hypothesis height_nonneg : 0 <= viewportHeight.

Lemma inv_render app :
  ListConsistent app -> ListSized app -> ListInv (renderFormulaList app).
Proof.
  intros Hcons Hsized.
  destruct (renderFormulaList_windowed app) as [? ?]; [done..|].
  split_and!; [by apply renderFormulaList_consistent|done|done].
Qed.

Lemma exit_true_cases app :
  exitEditMode true app = app \/
  exitEditMode true app =
    withFormulaState (setEditingId None (formulaState app)) app.
Proof.
  unfold Editor.exitEditMode. destruct (Js.truthy _); [by right|by left].
Qed.

Lemma inv_exit_true app : ListInv app -> ListInv (exitEditMode true app).
Proof. intros H. by destruct (exit_true_cases app) as [-> | ->]. Qed.

Lemma consistent_exit_true app :
  ListConsistent app -> ListConsistent (exitEditMode true app).
Proof. intros H. by destruct (exit_true_cases app) as [-> | ->]. Qed.

Lemma sized_exit_true app : ListSized app -> ListSized (exitEditMode true app).
Proof. intros H. by destruct (exit_true_cases app) as [-> | ->]. Qed.

Lemma inv_importJson env ids parsed silent app :
  ListInv app -> ListInv (importJson env ids parsed silent app).2.
Proof.
  intros (Hcons & Hsized & Hwin). unfold Editor.importJson.
  destruct (importJsonText env ids parsed silent (formulaState app)) as [[|] fs];
    simpl; [|done].
  by apply (inv_render (withFormulaState fs app)).
Qed.

Lemma act_list app a :
  scrollsFromTop a -> ListInv app -> ListInv (act app a).
Proof.
  intros Hscroll Hinv. pose proof Hinv as (Hcons & Hsized & Hwin).
  destruct a; simpl.
  - unfold Editor.addFormula. destruct (decide (latex = "")); [done|].
    destruct (intern latex (stringCache app)) as [c1 s1].
    destruct (if decide (Js.trim noteInput = "") then ("", s1)
              else intern (Js.trim noteInput) s1) as [c2 s2].
    simpl. destruct (Js.truthy (editingId (formulaState app))).
    + apply inv_exit_true. split_and!; [done|done|].
      intros vl Hvl. destruct (Hwin vl Hvl) as (Hids & Hdom & Hsize).
      split_and!; [|done|done].
      intros id Hid. specialize (Hids id Hid). simpl.
      rewrite map_map. simpl.
      erewrite map_ext; [exact Hids|].
      intros item. simpl. by destruct (decide _).
    + match goal with |- ListInv (schedule (Editor.renderFormulaList _ _ ?X)) =>
        exact (inv_render X Hcons Hsized) end.
  - unfold onEditClick. destruct (decide (id = "")); [done|].
    destruct (List.find _ _); [|done].
    match goal with |- ListInv (Editor.enterEditMode _ _ ?f _) =>
      exact (inv_render
               (withFormulaState (setEditingId (Some (f_id f)) (formulaState app)) app)
               Hcons Hsized) end.
  - unfold onResetClick, Editor.exitEditMode. destruct (Js.truthy _); [|done].
    match goal with |- ListInv (Editor.renderFormulaList _ _ ?X) =>
      exact (inv_render X Hcons Hsized) end.
  - unfold onRemoveClick. destruct (decide (id = "")); [done|].
    unfold Editor.removeFormula.
    match goal with |- context [Editor.renderFormulaList _ _ ?X] =>
      pose proof (inv_render X Hcons Hsized) as H end.
    destruct (bool_decide _); [|exact H]. apply inv_exit_true. exact H.
  - unfold Editor.clearAll. destruct (formulas (formulaState app)); [done|].
    destruct confirmed; [|done]. simpl.
    match goal with |- context [Editor.exitEditMode _ _ true ?X] =>
      exact (inv_render (exitEditMode true X)
               (consistent_exit_true X Hcons) (sized_exit_true X Hsized)) end.
  - unfold Editor.startNewFormulaSet. destruct (_ && _); [done|]. simpl.
    match goal with |- context [Editor.exitEditMode _ _ true ?X] =>
      exact (inv_render (exitEditMode true X)
               (consistent_exit_true X Hcons) (sized_exit_true X Hsized)) end.
  - exact (inv_render (withSearchTerm term app) Hcons Hsized).
  - by apply inv_importJson.
  - unfold Editor.importJsonViaTauri.
    destruct (negb (Js.truthy filePath)); [done|]. destruct read; [done|].
    pose proof (inv_importJson (Tauri host) ids parsed true app Hinv) as H.
    destruct (importJson (Tauri host) ids parsed true app) as [[|] app1]; exact H.
  - done.
  - unfold onListScroll. destruct (formulaVirtualList app) as [vl|] eqn:Hvl; [|done].
    simpl in Hscroll.
    destruct (Hsized vl Hvl) as (Hih & Hbuf & Hs0 & Hc0).
    destruct (Hwin vl Hvl) as (Hids & _ & _).
    destruct (refresh_dom_within (VirtualList.setScrollTop y vl)) as [Hdom Hsize];
      [change (0 < VirtualList.itemHeight vl); by rewrite Hih
      |exact Hscroll|exact Hc0
      |change (0 <= VirtualList.bufferSize vl)%Z; by rewrite Hbuf|].
    unfold ListConsistent in Hcons. rewrite Hvl in Hcons.
    split_and!.
    + done.
    + intros vl' [= <-]. by split_and!.
    + intros vl' [= <-]. split_and!; [done|done|].
      change (VirtualList.clientHeight
                (VirtualList.onScrollFrame (VirtualList.setScrollTop y vl)))
        with (VirtualList.clientHeight vl).
      change (VirtualList.clientHeight (VirtualList.setScrollTop y vl))
        with (VirtualList.clientHeight vl) in Hsize.
      change (VirtualList.itemHeight (VirtualList.setScrollTop y vl))
        with (VirtualList.itemHeight vl) in Hsize.
      change (VirtualList.bufferSize (VirtualList.setScrollTop y vl))
        with (VirtualList.bufferSize vl) in Hsize.
      rewrite Hih, Hbuf in Hsize. unfold VirtualList.onScrollFrame. lia.
Qed.

Lemma run_list actions :
  Forall scrollsFromTop actions -> ListInv (run initialApp actions).
Proof.
  assert (forall app, ListInv app -> Forall scrollsFromTop actions ->
                      ListInv (run app actions)) as Hgen.
  { unfold Editor.run. induction actions as [|a actions IH];
      intros app Happ Hall; simpl; [done|].
    apply Forall_cons in Hall as [Ha Hall]. by apply IH; [apply act_list|]. }
  intros Hall. apply Hgen; [|done].
  unfold Editor.initialApp. by apply inv_render.
Qed.


End Geometry.

(** What an action does to the binding: nothing, or one of the
    operations of the autosave. *)
Lemma autosave_act app a :
  autosave (act app a) = autosave app \/
  autosave (act app a) = Autosave.scheduleAutosave (autosave app) \/
  (exists message variant,
     autosave (act app a) =
       Autosave.unbindAutosaveFile message variant (autosave app)) \/
  (exists content now timeText io,
     autosave (act app a) =
       Autosave.saveToBoundFile Paths.extractFileName content now timeText io
         (autosave app)) \/
  (rebinds a = true /\
   exists path content now timeText io,
     autosave (act app a) =
       Autosave.saveToBoundFile Paths.extractFileName content now timeText io
         (Autosave.startAutoSave Paths.extractFileName
            (bindTauriFile path (Autosave.scheduleAutosave (autosave app))))).
Proof.
  destruct a; simpl.
  - unfold Editor.addFormula. destruct (decide (latex = "")); [by left|].
    destruct (intern latex (stringCache app)) as [c1 s1].
    destruct (if decide (Js.trim noteInput = "") then ("", s1)
              else intern (Js.trim noteInput) s1) as [c2 s2].
    simpl. right; left. destruct (Js.truthy _).
    + by rewrite autosave_exit.
    + simpl. by rewrite autosave_render.
  - left. unfold onEditClick. destruct (decide (id = "")); [done|].
    destruct (List.find _ _); [|done]. unfold Editor.enterEditMode.
    by rewrite autosave_render.
  - left. unfold onResetClick. by rewrite autosave_exit.
  - unfold onRemoveClick. destruct (decide (id = "")); [by left|].
    right; left. unfold Editor.removeFormula.
    destruct (bool_decide _); [rewrite autosave_exit|]; simpl;
      by rewrite autosave_render.
  - unfold Editor.clearAll. destruct (formulas (formulaState app)); [by left|].
    destruct confirmed; [|by left]. right; left. simpl.
    by rewrite autosave_render, autosave_exit.
  - unfold Editor.startNewFormulaSet. destruct (_ && _); [by left|].
    right; right; left. eexists _, _. simpl.
    by rewrite autosave_render, autosave_exit.
  - left. unfold onSearchInput. by rewrite autosave_render.
  - unfold Editor.importJson.
    destruct (importJsonText env ids parsed silent (formulaState app)) as [[|] fs];
      simpl; [|by left]. right; left. by rewrite autosave_render.
  - unfold Editor.importJsonViaTauri.
    destruct (negb (Js.truthy filePath)); [by left|]. destruct read; [by left|].
    unfold Editor.importJson.
    destruct (importJsonText (Tauri host) ids parsed true (formulaState app))
      as [[|] fs]; simpl; [|by left].
    right; right; right; right. split; [done|]. eexists _, _, _, _, _.
    by rewrite autosave_render.
  - right; right; right; left. by eexists _, _, _, _.
  - left. unfold onListScroll. by destruct (formulaVirtualList app).
Qed.

Lemma act_timers app a :
  TimersTracked (autosave app) -> TimersTracked (autosave (act app a)).
Proof.
  intros Ht.
  destruct (autosave_act app a)
    as [-> | [-> | [(m & v & ->) | [(c & now & t & io & ->)
        | (_ & p & c & now & t & io & ->)]]]].
  - done.
  - by apply scheduleAutosave_tracked.
  - by apply unbindAutosaveFile_tracked.
  - by apply saveToBoundFile_tracked.
  - apply saveToBoundFile_tracked, startAutoSave_tracked.
    by apply (scheduleAutosave_tracked (autosave app)) in Ht.
Qed.

Lemma initialApp_autosave :
  autosave initialApp =
    Autosave.mkAutosave None "" Autosave.none "" None None None ∅ 1%positive
      "未绑定自动保存文件" "normal" [].
Proof. unfold Editor.initialApp. by rewrite autosave_render. Qed.

(** X27: whatever the user and the timers do, binding a file included, the
    timers that are set and not cleared are exactly the interval and the
    debounce timer that the module refers to: at most two, and none that it
    has lost track of. *)
Theorem autosave_timers_do_not_leak actions :
  let a := autosave (run initialApp actions) in
  Autosave.activeTimers a = Autosave.referencedTimers a /\
  (size (Autosave.activeTimers a) <= 2)%nat.
Proof.
  intros a.
  assert (TimersTracked a) as (Hact & _ & _).
  { subst a.
    apply (run_invariant (fun app => TimersTracked (autosave app)));
      [apply act_timers|].
    rewrite initialApp_autosave. by apply tracked_of_cleared. }
  split; [done|]. rewrite Hact. unfold Autosave.referencedTimers.
  assert (forall o : option positive,
            (size (match o with Some id => {[id]} | None => ∅ end : gset positive)
               <= 1)%nat) as Hone.
  { intros [id|]; [rewrite size_singleton|rewrite size_empty]; lia. }
  rewrite size_union_alt.
  pose proof (Hone (Autosave.autosaveIntervalId a)) as Hi.
  pose proof (Hone (Autosave.autosaveDebounceId a)) as Hd.
  match goal with |- (_ + size (?Y ∖ ?X) <= _)%nat =>
    pose proof (subseteq_size (Y ∖ X) Y ltac:(set_solver)) end.
  lia.
Qed.

Lemma unbound_act app a :
  rebinds a = false -> Unbound (autosave app) ->
  Unbound (autosave (act app a)) /\
  Autosave.writeAttempts (autosave (act app a)) =
    Autosave.writeAttempts (autosave app).
Proof.
  intros Hre (Hb & Hi & Hd).
  destruct (autosave_act app a)
    as [-> | [-> | [(m & v & ->) | [(c & now & t & io & ->)
        | (Hre' & _)]]]]; [done| | | |congruence].
  - destruct (unbound_step Paths.extractFileName (autosave app)
                Autosave.EditSchedules Hb Hi Hd) as (? & ? & ? & ? & _).
    by split; [split_and!|].
  - unfold Unbound, Autosave.unbindAutosaveFile, Autosave.stopAutoSave,
      Autosave.hasBoundFile. simpl. by split_and!.
  - destruct (unbound_step Paths.extractFileName (autosave app)
                (Autosave.IntervalFires c now t io) Hb Hi Hd) as (? & ? & ? & ? & _).
    by split; [split_and!|].
Qed.




End Host.


Lemma addFormula_saves_edit_witness :
  let app :=
    run 0 600 (fun _ => "") (initialApp 0 600)
      [AddFormula "x" "" "a"; AddFormula "z" "" "c"; EditClick "a"] in
  let app' := addFormula 0 600 "y^2" " squared " "b" app in
  map f_id (formulas (formulaState app')) = map f_id (formulas (formulaState app)) /\
  map f_index (formulas (formulaState app')) =
    map f_index (formulas (formulaState app)) /\
  (forall i item,
     formulas (formulaState app) !! i = Some item ->
     formulas (formulaState app') !! i =
       Some (if decide (f_id item = "a")
             then mkFormula "a" (f_index item) "y^2" (Some (Js.trim " squared "))
             else item)) /\
  editingId (formulaState app') = None /\
  nextIndex (formulaState app') = nextIndex (formulaState app) /\
  formulaList app' = formulaList app /\
  formulaVirtualList app' = formulaVirtualList app.
Proof.
  apply (addFormula_saves_edit 0 600 (fun _ => "")
           [AddFormula "x" "" "a"; AddFormula "z" "" "c"; EditClick "a"]
           "y^2" " squared " "b" "a").
  - done.
  - done.
  - reflexivity.
Defined.





End EditorFacts.
